(** * May voice assistant: a shallow embedding of [backend/may.py]

    The development follows the Python module top-down: string primitives
    of the Python runtime that the module relies on ([Py]), the external
    collaborators as an environment record ([Env]), the process state
    ([World]), the [ESP32Comm] class and the methods of [MayAssistant]
    written in a small state monad.  The properties come last.

    Left out: the voice catalogue ([list_voices], [change_voice]), the
    diagnostics printout, [stop_speaking], the shutdown on an interrupt
    signal and logging.  Every other exception the module can meet is
    caught where it arises, so the handlers appear as branches on the
    outcome of the call that may fail. *)

From Stdlib Require Import String Ascii List ZArith QArith Lia Bool Arith Sorted
  Permutation.
Import ListNotations.
Close Scope Q_scope.
Open Scope string_scope.
Open Scope nat_scope.

(* ================================================================== *)
(** ** Python string primitives used by the module *)
(* ================================================================== *)

Module Py.

(** [str.lower] on an ASCII character: [A-Z] is shifted to [a-z].
    Transcripts are modelled as ASCII text; characters above 127 are left
    untouched. *)
Definition lower_char (c : ascii) : ascii :=
  let n := nat_of_ascii c in
  if (65 <=? n) && (n <=? 90) then ascii_of_nat (n + 32) else c.

Definition upper_char (c : ascii) : ascii :=
  let n := nat_of_ascii c in
  if (97 <=? n) && (n <=? 122) then ascii_of_nat (n - 32) else c.

Definition is_alpha (c : ascii) : bool :=
  let n := nat_of_ascii c in
  ((65 <=? n) && (n <=? 90)) || ((97 <=? n) && (n <=? 122)).

Fixpoint lower (s : string) : string :=
  match s with
  | EmptyString => EmptyString
  | String c t => String (lower_char c) (lower t)
  end.

(** [str.title]: the first letter of every run of letters is upper-cased,
    the others are lower-cased. *)
Fixpoint title_from (prev_cased : bool) (s : string) : string :=
  match s with
  | EmptyString => EmptyString
  | String c t =>
      String (if prev_cased then lower_char c else upper_char c)
             (title_from (is_alpha c) t)
  end.

Definition title (s : string) : string := title_from false s.

(** The characters [str.strip] removes when called without argument:
    tab, line feed, vertical tab, form feed, carriage return, the four
    separators 28-31 and the space. *)
Definition is_space (c : ascii) : bool :=
  let n := nat_of_ascii c in
  ((9 <=? n) && (n <=? 13)) || ((28 <=? n) && (n <=? 32)).

Definition is_empty (s : string) : bool :=
  match s with EmptyString => true | String _ _ => false end.

Fixpoint lstrip (s : string) : string :=
  match s with
  | EmptyString => EmptyString
  | String c t => if is_space c then lstrip t else s
  end.

Fixpoint rstrip (s : string) : string :=
  match s with
  | EmptyString => EmptyString
  | String c t =>
      let t' := rstrip t in
      if is_space c && is_empty t' then EmptyString else String c t'
  end.

Definition strip (s : string) : string := rstrip (lstrip s).

(** [s.startswith(p)] *)
Fixpoint startswith (p s : string) : bool :=
  match p, s with
  | EmptyString, _ => true
  | String _ _, EmptyString => false
  | String a p', String b s' => Ascii.eqb a b && startswith p' s'
  end.

(** [needle in hay] *)
Fixpoint contains (needle hay : string) : bool :=
  startswith needle hay ||
  match hay with
  | EmptyString => false
  | String _ t => contains needle t
  end.

Fixpoint drop (n : nat) (s : string) : string :=
  match n, s with
  | O, _ => s
  | S _, EmptyString => EmptyString
  | S k, String _ t => drop k t
  end.

(** [s.replace(old, new)] for a non-empty [old]: a single left-to-right
    pass that substitutes every non-overlapping occurrence.  [skip] counts
    the characters of the occurrence just matched that are still to be
    passed over. *)
Fixpoint replace_from (old new : string) (skip : nat) (s : string) : string :=
  match s with
  | EmptyString => EmptyString
  | String c t =>
      match skip with
      | S k => replace_from old new k t
      | O =>
          if startswith old s
          then new ++ replace_from old new (String.length old - 1) t
          else String c (replace_from old new 0 t)
      end
  end.

(** For the empty pattern Python inserts [new] before every character and
    once more at the end. *)
Fixpoint intersperse (new s : string) : string :=
  match s with
  | EmptyString => new
  | String c t => new ++ String c (intersperse new t)
  end.

Definition replace (old new s : string) : string :=
  match old with
  | EmptyString => intersperse new s
  | String _ _ => replace_from old new 0 s
  end.

(** Truth value of an optional string: [None] and [""] are falsy. *)
Definition truthy (o : option string) : bool :=
  match o with
  | None => false
  | Some s => negb (is_empty s)
  end.

(** [any(p(x) for x in l)] *)
Definition any {A} (p : A -> bool) (l : list A) : bool := existsb p l.

End Py.

(* ================================================================== *)
(** ** Module-level constants *)
(* ================================================================== *)

Definition WAKE_WORDS : list string := ["may"].

Definition TERMINATION_WORDS : list string :=
  ["goodbye"; "bye"; "see you later"; "talk to you later";
   "stop listening"; "go to sleep"; "sleep now"].

(* ================================================================== *)
(** ** Wake word and termination checks (pure methods) *)
(* ================================================================== *)

(** The [for word in WAKE_WORDS] loop of [check_wake_word], which returns
    from inside the loop at the first word found. *)
Fixpoint wake_scan (words : list string) (text_lower : string)
  : bool * option string :=
  match words with
  | [] => (false, None)
  | word :: rest =>
      if Py.contains word text_lower then
        let query := Py.strip (Py.replace word "" text_lower) in
        (true, if Py.truthy (Some query) then Some query else None)
      else wake_scan rest text_lower
  end.

Definition check_wake_word (text : option string) : bool * option string :=
  match text with
  | None => (false, None)
  | Some t =>
      if negb (Py.truthy text) then (false, None)
      else wake_scan WAKE_WORDS (Py.lower t)
  end.

Definition check_termination (text : option string) : bool :=
  match text with
  | None => false
  | Some t =>
      if negb (Py.truthy text) then false
      else
        let text_lower := Py.lower t in
        Py.any (fun term => Py.contains term text_lower) TERMINATION_WORDS
  end.

(* ================================================================== *)
(** ** Data carried by the assistant *)
(* ================================================================== *)

(** A reminder is the dictionary [{"text": ..., "time": ...}].  The time is
    kept as the instant its ISO string denotes, in seconds. *)
Record Reminder := mkReminder { r_text : string; r_time : Z }.

Definition Reminder_eqb (a b : Reminder) : bool :=
  String.eqb (r_text a) (r_text b) && Z.eqb (r_time a) (r_time b).

(** One entry of the emotion service's answer. *)
Record HumeEmotion := mkEmotion { e_name : string; e_score : Q }.

(** The dictionary returned by [detect_emotions_fast]; the key ["top3"] is
    only present on the service path. *)
Record EmotionResult := mkResult {
  primary : string;
  score : Q;
  top3 : option (list HumeEmotion)
}.

(* ================================================================== *)
(** ** External collaborators *)
(* ================================================================== *)

(** Speech recogniser.  [SttError] is an exception raised before the
    microphone is opened; [NoSpeech] covers time-out, unintelligible audio
    and a recogniser request error. *)
Inductive ListenOutcome :=
| Heard (raw : string)
| NoSpeech
| SttError.

(** Emotion service: the two HTTP exchanges and the extraction of the
    emotion list either deliver the list or fail at some point. *)
Inductive HumeOutcome :=
| HumeEmotions (emotions : list HumeEmotion)
| HumeFailure.

(** One [messages.create] call. *)
Inductive ModelOutcome :=
| ModelText (text : string)
| ModelApiError
| ModelOtherError.

(** [psutil.sensors_battery()] *)
Inductive BatteryOutcome :=
| Battery (percent : Q)
| NoBattery
| BatteryError.

(** Writing the configuration file, [open(..., 'w')] followed by
    [json.dump].  When [open] fails the file is left as it was; when the dump
    fails after [open] has emptied the file, what is left is not a readable
    configuration. *)
Inductive WriteOutcome :=
| Written
| WriteRefused
| WriteBroken.

(** Every interaction with the outside is answered by the environment; the
    first argument is the number of interactions made so far, so the same
    request may be answered differently each time it is made.  The clock
    gives wall-clock seconds in the configured time zone, counted from the
    start of year 1.  Three fields are
    plain functions of their argument: the lexical polarity of a text
    ([TextBlob], [None] when it raises), and the two number formats [str(x)]
    and [format(x, ".0%")].  Floating-point numbers are taken as rationals;
    a float is above the float 0.3 exactly when it is above 3/10, and
    likewise for -0.3. *)
Record Env := mkEnv {
  env_clock : nat -> Z;
  env_strftime_date : Z -> string;
  env_connect : nat -> bool;
  env_sendall : nat -> string -> bool;
  env_tts : nat -> string -> bool;
  env_listen : nat -> ListenOutcome;
  env_hume : nat -> string -> HumeOutcome;
  env_model : nat -> string -> string -> ModelOutcome;
  env_battery : nat -> BatteryOutcome;
  env_random : nat -> nat;
  env_polarity : string -> option Q;
  env_str_number : Q -> string;
  env_format_percent : Q -> string;
  env_write : nat -> WriteOutcome
}.

(** What the process did to the outside, in order. *)
Inductive Event :=
| EvConnect (ok : bool)
| EvSendall (line : string) (ok : bool)
| EvSay (text : string)
| EvTTS (text : string) (ok : bool)
| EvListen (timeout phrase_time_limit : option nat) (out : ListenOutcome)
| EvHume (text : string) (out : HumeOutcome)
| EvModel (model prompt : string) (out : ModelOutcome)
| EvSaveConfig (saved : list Reminder) (out : WriteOutcome)
| EvBattery (out : BatteryOutcome).

(* ================================================================== *)
(** ** Process state *)
(* ================================================================== *)

Record ESP32Comm := mkESP32 { connected : bool }.

(** [config_file] is what the configuration file holds, as the list of
    reminders a later [load_config] would read from it. *)
Record World := mkWorld {
  tick : nat;
  trace : list Event;
  config_file : list Reminder;
  esp32 : option ESP32Comm;
  elevenlabs_client : bool;
  hume_api_key : option string;
  anthropic_client : bool;
  conversation_active : bool;
  context : list string;
  is_speaking : bool;
  reminders : list Reminder;
  battery_thresholds : list (Z * bool);
  last_battery_check : Z
}.

Definition set_tick (v : nat) (w : World) : World :=
  mkWorld v (trace w) (config_file w) (esp32 w) (elevenlabs_client w)
    (hume_api_key w) (anthropic_client w) (conversation_active w) (context w)
    (is_speaking w) (reminders w) (battery_thresholds w) (last_battery_check w).

Definition set_trace (v : list Event) (w : World) : World :=
  mkWorld (tick w) v (config_file w) (esp32 w) (elevenlabs_client w)
    (hume_api_key w) (anthropic_client w) (conversation_active w) (context w)
    (is_speaking w) (reminders w) (battery_thresholds w) (last_battery_check w).

Definition set_config_file (v : list Reminder) (w : World) : World :=
  mkWorld (tick w) (trace w) v (esp32 w) (elevenlabs_client w)
    (hume_api_key w) (anthropic_client w) (conversation_active w) (context w)
    (is_speaking w) (reminders w) (battery_thresholds w) (last_battery_check w).

Definition set_esp32 (v : option ESP32Comm) (w : World) : World :=
  mkWorld (tick w) (trace w) (config_file w) v (elevenlabs_client w)
    (hume_api_key w) (anthropic_client w) (conversation_active w) (context w)
    (is_speaking w) (reminders w) (battery_thresholds w) (last_battery_check w).

Definition set_conversation_active (v : bool) (w : World) : World :=
  mkWorld (tick w) (trace w) (config_file w) (esp32 w) (elevenlabs_client w)
    (hume_api_key w) (anthropic_client w) v (context w)
    (is_speaking w) (reminders w) (battery_thresholds w) (last_battery_check w).

Definition set_context (v : list string) (w : World) : World :=
  mkWorld (tick w) (trace w) (config_file w) (esp32 w) (elevenlabs_client w)
    (hume_api_key w) (anthropic_client w) (conversation_active w) v
    (is_speaking w) (reminders w) (battery_thresholds w) (last_battery_check w).

Definition set_is_speaking (v : bool) (w : World) : World :=
  mkWorld (tick w) (trace w) (config_file w) (esp32 w) (elevenlabs_client w)
    (hume_api_key w) (anthropic_client w) (conversation_active w) (context w)
    v (reminders w) (battery_thresholds w) (last_battery_check w).

Definition set_reminders (v : list Reminder) (w : World) : World :=
  mkWorld (tick w) (trace w) (config_file w) (esp32 w) (elevenlabs_client w)
    (hume_api_key w) (anthropic_client w) (conversation_active w) (context w)
    (is_speaking w) v (battery_thresholds w) (last_battery_check w).

Definition set_battery_thresholds (v : list (Z * bool)) (w : World) : World :=
  mkWorld (tick w) (trace w) (config_file w) (esp32 w) (elevenlabs_client w)
    (hume_api_key w) (anthropic_client w) (conversation_active w) (context w)
    (is_speaking w) (reminders w) v (last_battery_check w).

Definition set_last_battery_check (v : Z) (w : World) : World :=
  mkWorld (tick w) (trace w) (config_file w) (esp32 w) (elevenlabs_client w)
    (hume_api_key w) (anthropic_client w) (conversation_active w) (context w)
    (is_speaking w) (reminders w) (battery_thresholds w) v.

(** The state monad the methods are written in. *)
Definition M (A : Type) : Type := World -> A * World.

Definition ret {A} (a : A) : M A := fun w => (a, w).

Definition bind {A B} (m : M A) (k : A -> M B) : M B :=
  fun w => let r := m w in k (fst r) (snd r).

Declare Scope monad_scope.
Delimit Scope monad_scope with monad.
Notation "x <- m ;; k" := (bind m (fun x => k))
  (at level 61, m at next level, right associativity) : monad_scope.
Notation "m ;; k" := (bind m (fun _ => k))
  (at level 61, right associativity) : monad_scope.
Open Scope monad_scope.

Definition gets {A} (f : World -> A) : M A := fun w => (f w, w).
Definition modify (f : World -> World) : M unit := fun w => (tt, f w).
Definition when (b : bool) (m : M unit) : M unit := if b then m else ret tt.
Definition emit (e : Event) : M unit :=
  modify (fun w => set_trace (trace w ++ [e]) w).

Definition exec {A} (m : M A) (w : World) : World := snd (m w).
Definition eval {A} (m : M A) (w : World) : A := fst (m w).

(* ================================================================== *)
(** ** Small helpers standing for Python built-ins *)
(* ================================================================== *)

Definition nl : string := String (ascii_of_nat 10) EmptyString.

Definition Qlt_bool (a b : Q) : bool := negb (Qle_bool b a).

(** [d.get(key, default)] on a dictionary with string keys, kept in
    insertion order. *)
Fixpoint dict_get {V} (d : list (string * V)) (key : string) (default : V) : V :=
  match d with
  | [] => default
  | (k, v) :: rest => if String.eqb k key then v else dict_get rest key default
  end.

(** [d[key] = v] for a key already in the dictionary: the entry keeps its
    place. *)
Fixpoint dict_set (key : Z) (v : bool) (d : list (Z * bool)) : list (Z * bool) :=
  match d with
  | [] => [(key, v)]
  | (k, x) :: rest =>
      if Z.eqb k key then (k, v) :: rest else (k, x) :: dict_set key v rest
  end.

(** [l.remove(x)]: the first element equal to [x] is deleted.  Python raises
    when there is none; the only caller removes elements it has just read
    from a copy of the same list. *)
Fixpoint list_remove (x : Reminder) (l : list Reminder) : list Reminder :=
  match l with
  | [] => []
  | y :: rest => if Reminder_eqb y x then rest else y :: list_remove x rest
  end.

(** [l[-n:]] *)
Definition last_n {A} (n : nat) (l : list A) : list A :=
  skipn (length l - n) l.

(** [sorted(emotions, key=lambda x: x["score"], reverse=True)]: stable, so
    entries of equal score keep their relative order. *)
Fixpoint insert_desc (x : HumeEmotion) (l : list HumeEmotion) : list HumeEmotion :=
  match l with
  | [] => [x]
  | y :: rest =>
      if Qlt_bool (e_score x) (e_score y) then y :: insert_desc x rest
      else x :: l
  end.

Definition sorted_desc (l : list HumeEmotion) : list HumeEmotion :=
  fold_right insert_desc [] l.

(** The reminders the file holds after a write of [saved] over a file that
    held [old]. *)
Definition stored_after (out : WriteOutcome) (saved old : list Reminder)
  : list Reminder :=
  match out with
  | Written => saved
  | WriteRefused => old
  | WriteBroken => []
  end.

(** [timedelta(minutes=m)] in seconds: a [timedelta] holds at most 999999999
    days either way, and Python raises [OverflowError] beyond. *)
Definition timedelta_minutes (minutes : Z) : option Z :=
  let seconds := (60 * minutes)%Z in
  if (Z.abs (seconds / 86400) <=? 999999999)%Z then Some seconds else None.

(** [datetime + timedelta].  An instant is a number of wall-clock seconds
    counted from the start of year 1; a [datetime] holds the years 1 to 9999,
    that is 3652059 days, and the sum raises [OverflowError] outside. *)
Definition datetime_add (t delta : Z) : option Z :=
  let sum := (t + delta)%Z in
  if ((0 <=? sum) && (sum <? 3652059 * 86400))%Z then Some sum else None.

(** [strftime('%I:%M %p')] of a wall-clock instant given in seconds. *)
Definition digit (n : nat) : ascii := ascii_of_nat (48 + n mod 10).

Definition two_digits (n : nat) : string :=
  String (digit (n / 10)) (String (digit n) EmptyString).

Definition strftime_I_M_p (t : Z) : string :=
  let secs := Z.to_nat (t mod 86400) in
  let h := secs / 3600 in
  let m := (secs / 60) mod 60 in
  two_digits (if h mod 12 =? 0 then 12 else h mod 12) ++ ":" ++ two_digits m
  ++ " " ++ (if h <? 12 then "AM" else "PM").

(* ================================================================== *)
(** ** Static tables of [MayAssistant] *)
(* ================================================================== *)

Definition emotion_map : list (string * string) :=
  [("positive", "Joy"); ("negative", "Sadness"); ("neutral", "Calm")].

Definition responses : list (string * list string) :=
  [("Joy", ["I'm glad you're happy!"; "That's wonderful to hear!";
            "Your positivity is contagious!"]);
   ("Excitement", ["I love your enthusiasm!"; "That sounds amazing!";
                   "How exciting!"]);
   ("Sadness", ["I'm here for you."; "Take your time, I'm listening.";
                "It's okay to feel this way."]);
   ("Distress", ["I understand this is difficult.";
                 "You're not alone in this.";
                 "Let's work through this together."]);
   ("Anger", ["I hear your frustration."; "That sounds really challenging.";
              "Your feelings are valid."]);
   ("Anxiety", ["Take a deep breath. I'm here.";
                "Let's take this one step at a time.";
                "It's okay to feel worried."]);
   ("Calm", ["How can I help you?"; "I'm listening."; "Go ahead, I'm here."]);
   ("Surprise", ["Wow, that's unexpected!"; "Tell me more!"; "Interesting!"]);
   ("Fear", ["I'm here with you."; "You're safe to share.";
             "Let's talk about it."])].

Definition casual_responses : list (string * list string) :=
  [("how are you", ["I'm doing great, thanks for asking!"; "All good here!";
                    "I'm well, how about you?"]);
   ("what's up", ["Not much, just here to help!"; "Ready to assist!";
                  "All set to chat!"]);
   ("hello", ["Hello!"; "Hi there!"; "Hey!"]);
   ("thanks", ["You're welcome!"; "Happy to help!"; "Anytime!"]);
   ("help", ["I can help with reminders, answer questions, and chat with you!";
             "Just ask me anything!"])].

Definition time_keywords : list string := ["time"; "clock"; "hour"; "what time"].
Definition date_keywords : list string := ["date"; "day is it"; "today"].

Definition models_to_try : list string :=
  ["claude-sonnet-4-5-20250929"; "claude-3-5-sonnet-20241022"].

Definition fresh_thresholds : list (Z * bool) :=
  [(20%Z, false); (10%Z, false); (5%Z, false)].

(** The loop over [self.battery_thresholds.items()] of [check_battery]:
    the first threshold reached and not yet alerted. *)
Fixpoint scan_thresholds (percent : Q) (items : list (Z * bool)) : option Z :=
  match items with
  | [] => None
  | (threshold, alerted) :: rest =>
      if Qle_bool percent (inject_Z threshold) && negb alerted
      then Some threshold
      else scan_thresholds percent rest
  end.

(** The first loop of [check_reminders], over the copy [self.reminders[:]]:
    [due] and [active] are [due_reminders] and [self.reminders]. *)
Fixpoint scan_due (now : Z) (copy due active : list Reminder)
  : list Reminder * list Reminder :=
  match copy with
  | [] => (due, active)
  | reminder :: rest =>
      if (r_time reminder <=? now)%Z
      then scan_due now rest (due ++ [reminder]) (list_remove reminder active)
      else scan_due now rest due active
  end.

(** The loop of [get_casual_response] over the table, without the draw. *)
Fixpoint casual_entry (table : list (string * list string)) (query_lower : string)
  : option (list string) :=
  match table with
  | [] => None
  | (key, replies) :: rest =>
      if Py.contains key query_lower then Some replies
      else casual_entry rest query_lower
  end.

(* ================================================================== *)
(** ** The classes [ESP32Comm] and [MayAssistant] *)
(* ================================================================== *)

Section Assistant.

Variable env : Env.

(** One question to the environment. *)
Definition ask {A} (q : Env -> nat -> A) : M A :=
  fun w => (q env (tick w), set_tick (S (tick w)) w).

Definition datetime_now : M Z := ask env_clock.

(** [random.choice] on a non-empty list. *)
Definition random_choice (l : list string) : M string :=
  i <- ask env_random;;
  ret (nth (i mod length l) l EmptyString).

Fixpoint for_each {A} (l : list A) (body : A -> M unit) : M unit :=
  match l with
  | [] => ret tt
  | x :: rest => body x;; for_each rest body
  end.

(** *** ESP32Comm *)

Definition set_connected (b : bool) : M unit :=
  modify (fun w =>
    match esp32 w with
    | Some _ => set_esp32 (Some (mkESP32 b)) w
    | None => w
    end).

Definition is_connected : M bool :=
  gets (fun w =>
    match esp32 w with
    | Some c => connected c
    | None => false
    end).

Definition connect : M unit :=
  ok <- ask env_connect;;
  emit (EvConnect ok);;
  set_connected ok.

Definition send (message_type text : string) : M unit :=
  c <- is_connected;;
  if negb c then ret tt
  else
    let message := message_type ++ "|" ++ text ++ nl in
    ok <- ask (fun e t => env_sendall e t message);;
    emit (EvSendall message ok);;
    if ok then ret tt
    else set_connected false;; connect.

Definition send_listening : M unit := send "LISTENING" "".
Definition send_input (text : string) : M unit := send "INPUT" text.
Definition send_response (text : string) : M unit := send "RESPONSE" text.
Definition send_speaking : M unit := send "SPEAKING" "".
Definition send_ready : M unit := send "READY" "".

(** [if self.esp32: ...] *)
Definition if_esp32 (m : M unit) : M unit :=
  e <- gets esp32;;
  match e with
  | Some _ => m
  | None => ret tt
  end.

(** *** MayAssistant: configuration, speech in and out *)

(** The write may fail; the method logs the failure and goes on. *)
Definition save_config : M unit :=
  rs <- gets reminders;;
  out <- ask env_write;;
  emit (EvSaveConfig rs out);;
  modify (fun w => set_config_file (stored_after out rs (config_file w)) w).

Definition speak (text : string) : M unit :=
  if_esp32 send_speaking;;
  client <- gets elevenlabs_client;;
  if negb client then emit (EvSay text)
  else
    modify (set_is_speaking true);;
    emit (EvSay text);;
    ok <- ask (fun e t => env_tts e t text);;
    emit (EvTTS text ok);;
    modify (set_is_speaking false);;
    when ok (if_esp32 send_ready).

Definition listen (timeout phrase_time_limit : option nat) : M (option string) :=
  out <- ask env_listen;;
  match out with
  | SttError =>
      emit (EvListen timeout phrase_time_limit out);;
      ret None
  | NoSpeech =>
      if_esp32 send_listening;;
      emit (EvListen timeout phrase_time_limit out);;
      ret None
  | Heard raw =>
      if_esp32 send_listening;;
      emit (EvListen timeout phrase_time_limit out);;
      let text := Py.strip raw in
      if_esp32 (send_input text);;
      ret (Some text)
  end.

(** *** Reminders and battery *)

(** The [try] block ends at the first exception, here the overflow of the
    date arithmetic, and the handler answers for it. *)
Definition set_reminder (reminder_text : string) (when_minutes : Z) : M string :=
  now <- datetime_now;;
  match timedelta_minutes when_minutes with
  | Some delta =>
      match datetime_add now delta with
      | Some reminder_time =>
          rs <- gets reminders;;
          modify (set_reminders (rs ++ [mkReminder reminder_text reminder_time]));;
          save_config;;
          ret ("Reminder set for " ++ env_str_number env (inject_Z when_minutes)
               ++ " minutes from now.")
      | None => ret "Failed to set reminder."
      end
  | None => ret "Failed to set reminder."
  end.

Definition check_reminders : M unit :=
  now <- datetime_now;;
  rs <- gets reminders;;
  let scanned := scan_due now rs [] rs in
  let due_reminders := fst scanned in
  modify (set_reminders (snd scanned));;
  match due_reminders with
  | [] => ret tt
  | _ :: _ =>
      save_config;;
      for_each due_reminders
        (fun reminder => speak ("Reminder: " ++ r_text reminder))
  end.

Definition check_battery : M (option string) :=
  now <- datetime_now;;
  last <- gets last_battery_check;;
  if (now - last <? 300)%Z then ret None
  else
    modify (set_last_battery_check now);;
    battery <- ask env_battery;;
    emit (EvBattery battery);;
    match battery with
    | Battery percent =>
        items <- gets battery_thresholds;;
        match scan_thresholds percent items with
        | Some threshold =>
            modify (set_battery_thresholds (dict_set threshold true items));;
            ret (Some ("Battery at " ++ env_str_number env percent
                       ++ "%. Please charge soon."))
        | None =>
            when (Qlt_bool (inject_Z 20) percent)
                 (modify (set_battery_thresholds fresh_thresholds));;
            ret None
        end
    | NoBattery | BatteryError => ret None
    end.

(** *** Emotion detection *)

Definition fallback_sentiment (text : string) : string :=
  match env_polarity env text with
  | Some polarity =>
      if Qlt_bool (3 # 10) polarity then "positive"
      else if Qlt_bool polarity (-3 # 10) then "negative"
      else "neutral"
  | None => "neutral"
  end.

(** The block the method runs both when no usable key is configured and
    after a failed service call. *)
Definition sentiment_result (text : string) : EmotionResult :=
  let sentiment := fallback_sentiment text in
  let emotion := dict_get emotion_map sentiment "Calm" in
  mkResult emotion (1 # 2) None.

Definition key_unusable (key : option string) : bool :=
  match key with
  | None => true
  | Some k => negb (Py.truthy key) || Py.startswith "YOUR" k
  end.

Definition detect_emotions_fast (text : string) : M EmotionResult :=
  key <- gets hume_api_key;;
  if key_unusable key then ret (sentiment_result text)
  else
    out <- ask (fun e t => env_hume e t text);;
    emit (EvHume text out);;
    match out with
    | HumeEmotions emotions =>
        let top_emotions := firstn 3 (sorted_desc emotions) in
        match top_emotions with
        | [] => ret (sentiment_result text)
        | top_emotion :: _ =>
            let emotion_name := Py.title (e_name top_emotion) in
            if_esp32 (send "EMOTION" ("Emotion: " ++ emotion_name));;
            ret (mkResult emotion_name (e_score top_emotion) (Some top_emotions))
        end
    | HumeFailure => ret (sentiment_result text)
    end.

(** *** Canned replies *)

Definition get_emotion_aware_response
    (query : string) (emotions : option EmotionResult) : M string :=
  let emotion :=
    match emotions with
    | Some e => primary e
    | None => "Calm"
    end in
  random_choice (dict_get responses emotion (dict_get responses "Calm" [])).

Definition get_casual_response (query : string) : M (option string) :=
  let query_lower := Py.lower query in
  match casual_entry casual_responses query_lower with
  | Some replies => r <- random_choice replies;; ret (Some r)
  | None => ret None
  end.

(** *** The language model *)

Definition emotion_context (emotions : option EmotionResult) : string :=
  match emotions with
  | Some e =>
      if Py.truthy (Some (primary e)) then
        (nl ++ nl ++ "[EMOTIONAL CONTEXT - User is feeling " ++ primary e
         ++ " (confidence: " ++ env_format_percent env (score e)
         ++ "). Respond with empathy and acknowledge their emotional state when appropriate.]")
        ++
        match top3 e with
        | Some top =>
            if 1 <? length top then
              let other_emotions :=
                map (fun x => Py.title (e_name x) ++ " ("
                              ++ env_format_percent env (e_score x) ++ ")")
                    (tl top) in
              nl ++ "Secondary emotions: " ++ String.concat ", " other_emotions
            else ""
        | None => ""
        end
      else ""
  | None => ""
  end.

Definition build_prompt (query : string) (emotions : option EmotionResult)
    (ctx : list string) : string :=
  let emotion_str := emotion_context emotions in
  let context_str :=
    match ctx with
    | [] => ""
    | _ :: _ => nl ++ "Recent conversation: " ++ String.concat "; " (last_n 3 ctx)
    end in
  "You are May, a friendly and empathetic voice assistant. "
  ++ "Respond naturally and conversationally (max 100 tokens)." ++ nl ++ nl
  ++ "User's question: " ++ query
  ++ emotion_str
  ++ context_str ++ nl ++ nl
  ++ "Keep your tone warm, engaging, and emotionally intelligent.".

(** The loop over [models_to_try]: an [AnthropicError] moves on to the
    next model, any other exception leaves the loop for the outer handler,
    which answers like the exhausted loop does. *)
Fixpoint try_models (models : list string) (prompt query : string)
    (emotions : option EmotionResult) : M string :=
  match models with
  | [] => get_emotion_aware_response query emotions
  | model :: rest =>
      out <- ask (fun e t => env_model e t model prompt);;
      emit (EvModel model prompt out);;
      match out with
      | ModelText text => ret (Py.strip text)
      | ModelApiError => try_models rest prompt query emotions
      | ModelOtherError => get_emotion_aware_response query emotions
      end
  end.

Definition process_with_claude
    (query : string) (emotions : option EmotionResult) : M string :=
  let query_lower := Py.lower query in
  if Py.any (fun keyword => Py.contains keyword query_lower) time_keywords then
    now <- datetime_now;;
    ret ("It's " ++ strftime_I_M_p now ++ ".")
  else if Py.any (fun keyword => Py.contains keyword query_lower) date_keywords then
    now <- datetime_now;;
    ret ("Today is " ++ env_strftime_date env now ++ ".")
  else
    client <- gets anthropic_client;;
    if negb client then get_emotion_aware_response query emotions
    else
      ctx <- gets context;;
      try_models models_to_try (build_prompt query emotions ctx) query emotions.

(** *** The two loops *)

(** [self.context.append(...)] followed by the eviction test; both loops
    end a turn with these two statements. *)
Definition remember (text response : string) : M unit :=
  ctx <- gets context;;
  let entry := "User: " ++ text ++ " | May: " ++ response in
  let ctx1 := (ctx ++ [entry])%list in
  modify (set_context ctx1);;
  when (5 <? length ctx1) (modify (set_context (tl ctx1))).

(** One pass through the body of the [while] loop of [conversation_mode]. *)
Definition conversation_turn : M unit :=
  heard <- listen (Some 10) (Some 10);;
  match heard with
  | None => speak "Still here. What else would you like to know?"
  | Some text =>
      if_esp32 (send_input text);;
      if check_termination (Some text) then
        speak "Goodbye! Say my name if you need me again.";;
        modify (set_conversation_active false);;
        if_esp32 send_ready
      else
        emotions <- detect_emotions_fast text;;
        casual_response <- get_casual_response text;;
        response <-
          (if Py.truthy casual_response
           then ret (match casual_response with Some r => r | None => "" end)
           else process_with_claude text (Some emotions));;
        if_esp32 (send_response response);;
        speak response;;
        remember text response
  end.

(** The [while self.conversation_active] loop, run for at most [fuel]
    passes; the result tells whether the loop was left. *)
Fixpoint conversation_loop (fuel : nat) : M bool :=
  match fuel with
  | O => gets (fun w => negb (conversation_active w))
  | S n =>
      active <- gets conversation_active;;
      if negb active then ret true
      else conversation_turn;; conversation_loop n
  end.

Definition conversation_mode (fuel : nat) : M bool :=
  modify (set_conversation_active true);;
  speak "I'm listening. What would you like to know?";;
  conversation_loop fuel.

(** The statements of [passive_listening] guarded by
    [if query and len(query.strip()) > 0]. *)
Definition inline_query (query : option string) : M unit :=
  match query with
  | Some q =>
      if Py.truthy query && (0 <? String.length (Py.strip q)) then
        emotions <- detect_emotions_fast q;;
        response <- process_with_claude q (Some emotions);;
        if_esp32 (send_response response);;
        speak response;;
        remember q response
      else ret tt
  | None => ret tt
  end.

(** One pass through the body of the [while True] loop of
    [passive_listening]; [fuel] bounds the conversation it may start. *)
Definition passive_iteration (fuel : nat) : M unit :=
  check_reminders;;
  battery_warning <- check_battery;;
  match battery_warning with
  | Some warning => when (Py.truthy battery_warning) (speak warning)
  | None => ret tt
  end;;
  heard <- listen None (Some 8);;
  match heard with
  | None => ret tt
  | Some text =>
      let wake := check_wake_word (Some text) in
      if fst wake then
        if_esp32 send_ready;;
        inline_query (snd wake);;
        _ <- conversation_mode fuel;;
        ret tt
      else ret tt
  end.

Fixpoint passive_listening (iterations fuel : nat) : M unit :=
  match iterations with
  | O => speak "May is ready. Say my name to start talking."
  | S n => passive_listening n fuel;; passive_iteration fuel
  end.

End Assistant.

(** The state [MayAssistant.__init__] leaves behind, before the display
    connection is attempted: empty context, no reminder, no threshold
    alerted. *)
Definition new_assistant (hume_key : option string)
    (anthropic elevenlabs : bool) (started : Z) : World :=
  mkWorld 0 [] [] (Some (mkESP32 false)) elevenlabs hume_key anthropic
          false [] false [] fresh_thresholds started.

(* ================================================================== *)
(** ** Notions used to state the properties *)
(* ================================================================== *)

(** [word] occurs in [text] when letter case is ignored: some stretch of
    [text] lower-cases to [word]. *)
Definition occurs_ci (word text : string) : Prop :=
  exists pre mid suf, text = pre ++ mid ++ suf /\ Py.lower mid = word.

Module Spec.

(** The utterance with the first case-insensitive occurrence of [word]
    taken out, the rest left as it was said. *)
Fixpoint remove_first_ci (word s : string) : string :=
  match s with
  | EmptyString => EmptyString
  | String c t =>
      if Py.startswith word (Py.lower s) then Py.drop (String.length word) s
      else String c (remove_first_ci word t)
  end.

Definition wake_query (text : string) : string :=
  Py.strip (remove_first_ci "may" text).

(** The three buckets of the lexical fall-back. *)
Definition bucket (polarity : Q) : string :=
  if Qlt_le_dec (3 # 10) polarity then "Joy"
  else if Qlt_le_dec polarity (-3 # 10) then "Sadness"
  else "Calm".

End Spec.

(** The emotion service cannot be used for [text] in state [w]: the key is
    missing, empty or a placeholder, or the request made now fails or comes
    back without any emotion. *)
Definition service_unavailable (env : Env) (text : string) (w : World) : Prop :=
  hume_api_key w = None
  \/ hume_api_key w = Some ""
  \/ (exists rest, hume_api_key w = Some ("YOUR" ++ rest))
  \/ env_hume env (tick w) text = HumeFailure
  \/ env_hume env (tick w) text = HumeEmotions [].

(** What [check_wake_word] is left with once the wake word is taken out. *)
Definition wake_remainder (text : string) : string :=
  Py.strip (Py.replace "may" "" (Py.lower text)).

(** The texts spoken, the emotion-service requests and the model requests
    found in a stretch of the trace. *)
Fixpoint said (evs : list Event) : list string :=
  match evs with
  | [] => []
  | EvSay text :: rest => text :: said rest
  | _ :: rest => said rest
  end.

Fixpoint hume_calls (evs : list Event) : list string :=
  match evs with
  | [] => []
  | EvHume text _ :: rest => text :: hume_calls rest
  | _ :: rest => hume_calls rest
  end.

Fixpoint model_calls (evs : list Event) : list string :=
  match evs with
  | [] => []
  | EvModel model _ _ :: rest => model :: model_calls rest
  | _ :: rest => model_calls rest
  end.

Fixpoint connects (evs : list Event) : list bool :=
  match evs with
  | [] => []
  | EvConnect ok :: rest => ok :: connects rest
  | _ :: rest => connects rest
  end.

(** The events a computation added to the trace. *)
Definition events_since (w w' : World) : list Event :=
  skipn (length (trace w)) (trace w').

Fixpoint all_space (s : string) : bool :=
  match s with
  | EmptyString => true
  | String c t => Py.is_space c && all_space t
  end.

Definition first_char (s : string) : option ascii :=
  match s with
  | EmptyString => None
  | String c _ => Some c
  end.

Fixpoint last_char (s : string) : option ascii :=
  match s with
  | EmptyString => None
  | String c EmptyString => Some c
  | String _ t => last_char t
  end.

Definition not_space (o : option ascii) : Prop :=
  match o with
  | Some c => Py.is_space c = false
  | None => True
  end.

(** Events that are not display traffic. *)
Definition is_display (e : Event) : bool :=
  match e with
  | EvConnect _ | EvSendall _ _ => true
  | _ => false
  end.

Definition core (evs : list Event) : list Event :=
  filter (fun e => negb (is_display e)) evs.

(** The part of the state that display traffic and speech leave alone. *)
Definition session (w : World) :=
  (config_file w, elevenlabs_client w, hume_api_key w, anthropic_client w,
   conversation_active w, context w, reminders w, battery_thresholds w,
   last_battery_check w).

(** [runs m w Q]: started in [w], the computation [m] only adds events to the
    trace, and its result, the events added and the final state satisfy
    [Q]. *)
Definition runs {A} (m : M A) (w : World)
    (Q : A -> list Event -> World -> Prop) : Prop :=
  exists evs,
    trace (snd (m w)) = (trace w ++ evs)%list /\ Q (fst (m w)) evs (snd (m w)).

(** What a computation does when it only exchanges display traffic: no
    other event, session and speaking flag untouched. *)
Definition display_only (w : World) : unit -> list Event -> World -> Prop :=
  fun _ evs w' =>
    core evs = [] /\ session w' = session w /\ is_speaking w' = is_speaking w.

(** The context after one more exchange. *)
Definition pushed (ctx : list string) (text response : string) : list string :=
  let entry := "User: " ++ text ++ " | May: " ++ response in
  let ctx1 := (ctx ++ [entry])%list in
  if 5 <? length ctx1 then tl ctx1 else ctx1.

(** A reminder is due when its time has come. *)
Definition is_due (now : Z) (r : Reminder) : bool := (r_time r <=? now)%Z.

Definition announcement (r : Reminder) : string := "Reminder: " ++ r_text r.

Definition Reminder_eq_dec (a b : Reminder) : {a = b} + {a <> b}.
Proof. decide equality; [apply Z.eq_dec | apply string_dec]. Defined.

(** Whether the dictionary marks threshold [t] as alerted. *)
Definition alerted (t : Z) (items : list (Z * bool)) : bool :=
  match find (fun kv => Z.eqb (fst kv) t) items with
  | Some kv => snd kv
  | None => false
  end.

(** The dictionary always has the three keys, in the order of creation. *)
Definition three_flags (items : list (Z * bool)) : Prop :=
  map fst items = [20; 10; 5]%Z.

(** One battery check: the state it started in, what it returned, the state
    it left. *)
Record BatteryCheck := mkCheck { before : World; warning : option string; after : World }.

(** [n] battery checks in a row.  The environment decides the time and the
    charge of each. *)
Fixpoint battery_run (env : Env) (n : nat) (w : World) : list BatteryCheck :=
  match n with
  | O => []
  | S k =>
      let r := check_battery env w in
      mkCheck w (fst r) (snd r) :: battery_run env k (snd r)
  end.

(** The charge a check read, when it was not throttled and a battery was
    found. *)
Definition observed (c : BatteryCheck) : option Q :=
  match events_since (before c) (after c) with
  | [EvBattery (Battery p)] => Some p
  | _ => None
  end.

(** The thresholds a check turned from unalerted to alerted. *)
Definition newly_alerted (c : BatteryCheck) : list Z :=
  filter (fun t => negb (alerted t (battery_thresholds (before c)))
                   && alerted t (battery_thresholds (after c)))
         [20; 10; 5]%Z.

(** The check warned, and it was threshold [t] that it marked. *)
Definition warns_for (t : Z) (c : BatteryCheck) : bool :=
  match warning c with
  | Some _ => negb (alerted t (battery_thresholds (before c)))
              && alerted t (battery_thresholds (after c))
  | None => false
  end.

(** A check belongs to a low period unless it reads a charge above 20%. *)
Definition in_low_period (c : BatteryCheck) : Prop :=
  forall p, observed c = Some p -> (p <= inject_Z 20)%Q.

(** The replies [get_emotion_aware_response] draws from. *)
Definition reply_bucket (emotions : option EmotionResult) : list string :=
  dict_get responses
    (match emotions with Some e => primary e | None => "Calm" end)
    (dict_get responses "Calm" []).

Definition calm_replies : list string :=
  ["How can I help you?"; "I'm listening."; "Go ahead, I'm here."].

(** A model attempt, as it shows in the trace. *)
Definition attempt_event (prompt : string) (a : string * ModelOutcome) : Event :=
  EvModel (fst a) prompt (snd a).

(** How a series of model attempts ended and what was answered: the
    attempts before the last were all refused by the service; a last attempt
    that delivered text gives the answer; a last attempt that was refused
    was made on the last model of the list; and without any text the answer
    comes from the bucket. *)
Definition attempts_outcome (models : list string) (bucket : list string)
    (failed : list (string * ModelOutcome)) (final : string * ModelOutcome)
    (answer : string) : Prop :=
  map fst (failed ++ [final]) = firstn (S (length failed)) models
  /\ Forall (fun a => snd a = ModelApiError) failed
  /\ match snd final with
     | ModelText text => answer = Py.strip text
     | ModelApiError => S (length failed) = length models /\ In answer bucket
     | ModelOtherError => In answer bucket
     end.

(** The shape ["It's HH:MM AM."] or ["It's HH:MM PM."]. *)
Definition is_digit (c : ascii) : bool :=
  let n := nat_of_ascii c in (48 <=? n) && (n <=? 57).

Definition time_reply_form (s : string) : Prop :=
  exists h1 h2 m1 m2 half,
    s = "It's " ++ String h1 (String h2 (":" ++ String m1 (String m2
          (" " ++ half ++ "M."))))
    /\ is_digit h1 = true /\ is_digit h2 = true
    /\ is_digit m1 = true /\ is_digit m2 = true
    /\ (half = "A" \/ half = "P").

(** The line the loops store for one exchange. *)
Definition exchange_entry (x : string * string) : string :=
  "User: " ++ fst x ++ " | May: " ++ snd x.

(** A computation cannot make the context longer than five entries. *)
Definition keeps_window {A} (m : M A) : Prop :=
  forall w, length (context w) <= 5 -> length (context (snd (m w))) <= 5.

(** A small concrete setting to run the definitions in: the display does
    not answer, the emotion service fails, the first model is refused and
    the second one answers, the battery is at 15%. *)
Module Demo.

Definition hearing (utterance : string) : Env :=
  mkEnv (fun t => (1000 + 400 * Z.of_nat t)%Z)
        (fun _ => "Monday, January 01")
        (fun _ => false)
        (fun _ _ => false)
        (fun _ _ => true)
        (fun _ => Heard utterance)
        (fun _ _ => HumeFailure)
        (fun _ model _ =>
           if String.eqb model "claude-3-5-sonnet-20241022"
           then ModelText " Hello, I am here. "
           else ModelApiError)
        (fun _ => Battery (15 # 1))
        (fun t => t)
        (fun text =>
           if Py.contains "excited" (Py.lower text) then Some (3 # 8)%Q
           else Some (0 # 1)%Q)
        (fun _ => "15")
        (fun _ => "50%")
        (fun _ => Written).

Definition env : Env := hearing "may hello".

Definition call_mum : Reminder := mkReminder "call mum" 900.
Definition water_plants : Reminder := mkReminder "water the plants" 5000.

(** Display connected, emotion key configured, model client configured,
    no speech synthesis, two reminders of which the first is due. *)
Definition world : World :=
  mkWorld 0 [] [] (Some (mkESP32 true)) false (Some "hume-key") true
          false [] false [call_mum; water_plants] fresh_thresholds 0.

End Demo.

(* ================================================================== *)
(** ** Further notions *)
(* ================================================================== *)

(** One of [keywords] occurs in [text], whatever the letter case. *)
Definition mentions (keywords : list string) (text : string) : Prop :=
  exists keyword, In keyword keywords /\ occurs_ci keyword text.

(** No white space at either end. *)
Definition trimmed (s : string) : Prop :=
  not_space (first_char s) /\ not_space (last_char s).

(** What the assistant says when a conversation turn hears nothing. *)
Definition still_here : string := "Still here. What else would you like to know?".

(** Further settings, obtained from [Demo.env] by replacing one
    collaborator. *)
Module Scenes.

Definition with_listen (f : nat -> ListenOutcome) (e : Env) : Env :=
  mkEnv (env_clock e) (env_strftime_date e) (env_connect e) (env_sendall e)
        (env_tts e) f (env_hume e) (env_model e) (env_battery e)
        (env_random e) (env_polarity e) (env_str_number e)
        (env_format_percent e) (env_write e).

Definition with_hume (f : nat -> string -> HumeOutcome) (e : Env) : Env :=
  mkEnv (env_clock e) (env_strftime_date e) (env_connect e) (env_sendall e)
        (env_tts e) (env_listen e) f (env_model e) (env_battery e)
        (env_random e) (env_polarity e) (env_str_number e)
        (env_format_percent e) (env_write e).

Definition with_battery (f : nat -> BatteryOutcome) (show : Q -> string)
    (e : Env) : Env :=
  mkEnv (env_clock e) (env_strftime_date e) (env_connect e) (env_sendall e)
        (env_tts e) (env_listen e) (env_hume e) (env_model e) f
        (env_random e) (env_polarity e) show (env_format_percent e)
        (env_write e).

Definition with_clock (f : nat -> Z) (e : Env) : Env :=
  mkEnv f (env_strftime_date e) (env_connect e) (env_sendall e)
        (env_tts e) (env_listen e) (env_hume e) (env_model e) (env_battery e)
        (env_random e) (env_polarity e) (env_str_number e)
        (env_format_percent e) (env_write e).

Definition with_write (f : nat -> WriteOutcome) (e : Env) : Env :=
  mkEnv (env_clock e) (env_strftime_date e) (env_connect e) (env_sendall e)
        (env_tts e) (env_listen e) (env_hume e) (env_model e) (env_battery e)
        (env_random e) (env_polarity e) (env_str_number e)
        (env_format_percent e) f.


(** The clock advances by 100 seconds from one reading to the next. *)
Definition unhurried : Env :=
  with_clock (fun t => (1000 + 100 * Z.of_nat t)%Z) Demo.env.

(** Nobody speaks. *)
Definition silent : Env := with_listen (fun _ => NoSpeech) Demo.env.

(** The battery stays at 4%. *)
Definition drained : Env :=
  with_battery (fun _ => Battery (4 # 1)) (fun _ => "4") Demo.env.

(** The emotion service answers with four emotions. *)
Definition feeling : Env :=
  with_hume (fun _ _ => HumeEmotions
               [mkEmotion "calmness" (2 # 10); mkEmotion "joy" (7 # 10);
                mkEmotion "surprise (positive)" (7 # 10);
                mkEmotion "interest" (5 # 10)])
            Demo.env.


(** Somebody calls the assistant and then takes leave. *)
Definition calling : Env :=
  with_listen (fun t => if t <=? 6 then Heard "Hey May" else Heard "goodbye")
              Demo.env.

(** The configuration file cannot be opened for writing. *)
Definition unwritable : Env := with_write (fun _ => WriteRefused) Demo.env.

(** [Demo.world] with its two reminders in the file. *)
Definition stored : World :=
  set_config_file (reminders Demo.world) Demo.world.

(** [Demo.world], in the middle of a conversation. *)
Definition talking : World := set_conversation_active true Demo.world.

End Scenes.

(** What the assistant says on entering conversation mode. *)
Definition opening_prompt : string := "I'm listening. What would you like to know?".

(** The sentence [check_battery] returns for a charge. *)
Definition is_battery_warning (env : Env) (s : string) : Prop :=
  exists p, s = "Battery at " ++ env_str_number env p ++ "%. Please charge soon.".

(** The display link is missing or marked disconnected. *)
Definition link_down (w : World) : Prop :=
  match esp32 w with
  | Some c => connected c = false
  | None => True
  end.

(** The display traffic in a stretch of the trace. *)
Definition display_traffic (evs : list Event) : list Event :=
  filter is_display evs.

(** [upholds I P m]: started in a state that satisfies [I], the computation
    [m] ends in such a state, and the events it adds satisfy [P]. *)
Definition upholds (I : World -> Prop) (P : list Event -> Prop)
    {A} (m : M A) : Prop :=
  forall w, I w -> runs m w (fun _ evs w' => P evs /\ I w').

(** [l.remove(x)] with its failure: [None] stands for the [ValueError] that
    Python raises when no element equals [x]. *)
Fixpoint list_remove_checked (x : Reminder) (l : list Reminder)
  : option (list Reminder) :=
  match l with
  | [] => None
  | y :: rest =>
      if Reminder_eqb y x then Some rest
      else option_map (cons y) (list_remove_checked x rest)
  end.

(** The first loop of [check_reminders] with that failure: the exception
    would leave the loop, and the method with it. *)
Fixpoint scan_due_checked (now : Z) (copy due active : list Reminder)
  : option (list Reminder * list Reminder) :=
  match copy with
  | [] => Some (due, active)
  | reminder :: rest =>
      if (r_time reminder <=? now)%Z then
        match list_remove_checked reminder active with
        | Some active' => scan_due_checked now rest (due ++ [reminder]) active'
        | None => None
        end
      else scan_due_checked now rest due active
  end.

(** The warning [check_battery] gives for a charge. *)
Definition battery_warning (env : Env) (p : Q) : string :=
  "Battery at " ++ env_str_number env p ++ "%. Please charge soon.".

(** The thresholds after [j] warnings of one low period, given in the order
    of the dictionary. *)
Definition alerted_first (j : nat) : list (Z * bool) :=
  [(20%Z, 0 <? j); (10%Z, 1 <? j); (5%Z, 2 <? j)].

(** The instant [minutes] minutes after [now] exists: a [timedelta] can hold
    the span and a [datetime] the instant. *)
Definition representable (now minutes : Z) : Prop :=
  (-999999999 <= 60 * minutes / 86400 <= 999999999)%Z
  /\ (0 <= now + 60 * minutes < 3652059 * 86400)%Z.

(** What the microphone delivered, listen by listen, in a stretch of the
    trace. *)
Fixpoint listens (evs : list Event) : list ListenOutcome :=
  match evs with
  | [] => []
  | EvListen _ _ out :: rest => out :: listens rest
  | _ :: rest => listens rest
  end.

(** The emotion has score [q]. *)
Definition scored (q : Q) (e : HumeEmotion) : bool := Qeq_bool (e_score e) q.

(** [a] scores at least as much as [b]. *)
Definition scores_at_least (a b : HumeEmotion) : Prop :=
  (e_score b <= e_score a)%Q.

(* ================================================================== *)
(** ** Start-up *)
(* ================================================================== *)

(** The configuration file as [load_config] finds it: absent or unreadable,
    or holding a list of reminders (the empty list when the key is
    missing). *)
Inductive ConfigFile :=
| NoConfig
| StoredConfig (stored : list Reminder).

Definition stored_reminders (file : ConfigFile) : list Reminder :=
  match file with
  | StoredConfig stored => stored
  | NoConfig => []
  end.

(** The object before [__init__] has run, with the file as it is on disk
    and the three clients the environment variables give. *)
Definition unborn (file : ConfigFile) (hume_key : option string)
    (anthropic elevenlabs : bool) : World :=
  mkWorld 0 [] (stored_reminders file) (Some (mkESP32 false)) elevenlabs
          hume_key anthropic false [] false [] [] 0.

Section Startup.

Variable env : Env.

(** [load_config]: the reminders of an existing file are taken over.
    Without a readable file the defaults are used and nothing is written:
    the save attempted for a missing file fails on the attributes
    [__init__] has not set yet, and the failure is logged and dropped. *)
Definition load_config (file : ConfigFile) : M unit :=
  match file with
  | StoredConfig stored => modify (set_reminders stored)
  | NoConfig => ret tt
  end.

(** [MayAssistant.__init__], in the order of its statements: the display
    object and its first connection attempt, the configuration, the session
    fields, the reminders, the battery thresholds and the time of the last
    battery check. *)
Definition MayAssistant_init (file : ConfigFile) : M unit :=
  connect env;;
  load_config file;;
  modify (set_conversation_active false);;
  modify (set_context []);;
  modify (set_is_speaking false);;
  modify (set_reminders []);;
  modify (set_battery_thresholds fresh_thresholds);;
  now <- datetime_now env;;
  modify (set_last_battery_check now).

End Startup.

(* ================================================================== *)
(** ** Facts about the string primitives *)
(* ================================================================== *)

Module PyFacts.

Lemma app_empty_r (s : string) : s ++ "" = s.
Proof. induction s; simpl; congruence. Qed.

Lemma app_assoc (a b c : string) : (a ++ b) ++ c = a ++ b ++ c.
Proof. induction a; simpl; congruence. Qed.

Lemma lower_app (a b : string) : Py.lower (a ++ b) = Py.lower a ++ Py.lower b.
Proof. induction a; simpl; congruence. Qed.

Lemma lower_length (s : string) : String.length (Py.lower s) = String.length s.
Proof. induction s; simpl; congruence. Qed.

Lemma startswith_app (p s : string) : Py.startswith p (p ++ s) = true.
Proof.
  induction p as [|a p IH]; simpl; [reflexivity|].
  now rewrite Ascii.eqb_refl.
Qed.

Lemma startswith_split (p s : string) :
  Py.startswith p s = true -> exists suf, s = p ++ suf.
Proof.
  revert s; induction p as [|a p IH]; intros s H.
  - now exists s.
  - destruct s as [|b s]; simpl in H; [discriminate|].
    apply andb_true_iff in H as [Hab Hps].
    apply Ascii.eqb_eq in Hab; subst b.
    destruct (IH _ Hps) as [suf ->].
    now exists suf.
Qed.

Lemma contains_startswith (n h : string) :
  Py.startswith n h = true -> Py.contains n h = true.
Proof. intros H. destruct h; simpl; now rewrite H. Qed.

Lemma contains_app (n pre suf : string) : Py.contains n (pre ++ n ++ suf) = true.
Proof.
  induction pre as [|c pre IH].
  - change ("" ++ n ++ suf) with (n ++ suf).
    apply contains_startswith, startswith_app.
  - cbn [String.append Py.contains]. rewrite IH. apply orb_true_r.
Qed.

Lemma contains_split (n h : string) :
  Py.contains n h = true -> exists pre suf, h = pre ++ n ++ suf.
Proof.
  induction h as [|c h IH]; simpl; intros H.
  - rewrite orb_false_r in H.
    destruct (startswith_split _ _ H) as [suf ->]. now exists "", suf.
  - apply orb_true_iff in H as [H|H].
    + destruct (startswith_split _ _ H) as [suf ->]. now exists "", suf.
    + destruct (IH H) as (pre & suf & ->). now exists (String c pre), suf.
Qed.

(** [in] is exactly "occurs as a substring". *)
Lemma contains_iff (n h : string) :
  Py.contains n h = true <-> exists pre suf, h = pre ++ n ++ suf.
Proof.
  split; [apply contains_split|].
  intros (pre & suf & ->). apply contains_app.
Qed.

Lemma contains_lower_of_occurs (word text : string) :
  occurs_ci word text -> Py.contains word (Py.lower text) = true.
Proof.
  intros (pre & mid & suf & -> & <-).
  rewrite !lower_app. apply contains_app.
Qed.

(** *** [replace] *)

Lemma replace_from_skip (old new : string) (k : nat) (s : string) :
  Py.replace_from old new k s = Py.replace_from old new 0 (Py.drop k s).
Proof.
  revert s; induction k as [|k IH]; intros s.
  - reflexivity.
  - destruct s as [|c t]; [reflexivity|]. simpl. apply IH.
Qed.

Lemma drop_app_length (a b : string) : Py.drop (String.length a) (a ++ b) = b.
Proof. induction a; simpl; auto. Qed.

(** At an occurrence, the occurrence is replaced and the pass goes on
    behind it. *)
Lemma replace_hit (a : ascii) (old new rest : string) :
  Py.replace (String a old) new (String a old ++ rest)
  = new ++ Py.replace (String a old) new rest.
Proof.
  unfold Py.replace.
  change (String a old ++ rest) with (String a (old ++ rest)).
  cbn [Py.replace_from].
  change (String a (old ++ rest)) with (String a old ++ rest).
  rewrite startswith_app.
  rewrite replace_from_skip.
  replace (String.length (String a old) - 1) with (String.length old)
    by (cbn [String.length]; lia).
  now rewrite drop_app_length.
Qed.

(** Elsewhere the character is kept. *)
Lemma replace_miss (a c : ascii) (old new t : string) :
  Py.startswith (String a old) (String c t) = false ->
  Py.replace (String a old) new (String c t)
  = String c (Py.replace (String a old) new t).
Proof.
  intros H. unfold Py.replace. cbn [Py.replace_from]. now rewrite H.
Qed.

Lemma replace_empty (a : ascii) (old new : string) :
  Py.replace (String a old) new "" = "".
Proof. reflexivity. Qed.

Lemma replace_absent (a : ascii) (old new s : string) :
  Py.contains (String a old) s = false -> Py.replace (String a old) new s = s.
Proof.
  induction s as [|c t IH]; intros H; [reflexivity|].
  cbn [Py.contains] in H. apply orb_false_iff in H as [H1 H2].
  rewrite replace_miss by exact H1. now rewrite IH.
Qed.

(** *** [strip] *)

Lemma lstrip_split (s : string) :
  exists ws, s = ws ++ Py.lstrip s /\ all_space ws = true
             /\ not_space (first_char (Py.lstrip s)).
Proof.
  induction s as [|c t (ws & E & Hws & Hf)]; simpl.
  - now exists "".
  - destruct (Py.is_space c) eqn:Hc.
    + exists (String c ws). simpl. rewrite Hc, Hws. repeat split; auto.
      now rewrite <- E.
    + exists "". simpl. repeat split; auto.
Qed.

Lemma rstrip_empty_all_space (s : string) :
  Py.rstrip s = "" -> all_space s = true.
Proof.
  induction s as [|c t IH]; simpl; [reflexivity|].
  destruct (Py.is_space c) eqn:Hc; simpl.
  - destruct (Py.rstrip t) eqn:Ht; simpl; [auto | discriminate].
  - discriminate.
Qed.

Lemma rstrip_split (s : string) :
  exists ws, s = Py.rstrip s ++ ws /\ all_space ws = true
             /\ not_space (last_char (Py.rstrip s)).
Proof.
  induction s as [|c t (ws & E & Hws & Hl)]; simpl.
  - now exists "".
  - destruct (Py.is_space c && Py.is_empty (Py.rstrip t)) eqn:Hc.
    + apply andb_true_iff in Hc as [Hc He].
      exists (String c t). simpl. rewrite Hc. repeat split; auto.
      simpl. apply rstrip_empty_all_space.
      now destruct (Py.rstrip t).
    + exists ws. simpl. rewrite <- E. repeat split; auto.
      destruct (Py.rstrip t) eqn:Ht; simpl in *.
      * rewrite andb_true_r in Hc. exact Hc.
      * exact Hl.
Qed.

Lemma rstrip_first_char (s : string) :
  not_space (first_char s) -> not_space (first_char (Py.rstrip s)).
Proof.
  destruct s as [|c t]; simpl; [auto|].
  intros Hc. rewrite Hc. simpl. exact Hc.
Qed.

(** [strip] takes white space off both ends and nothing else. *)
Lemma strip_split (s : string) :
  exists l r, s = l ++ Py.strip s ++ r
              /\ all_space l = true /\ all_space r = true
              /\ not_space (first_char (Py.strip s))
              /\ not_space (last_char (Py.strip s)).
Proof.
  destruct (lstrip_split s) as (l & El & Hl & Hf).
  destruct (rstrip_split (Py.lstrip s)) as (r & Er & Hr & Hla).
  exists l, r. unfold Py.strip. rewrite <- Er.
  repeat split; auto using rstrip_first_char.
Qed.

End PyFacts.

(* ================================================================== *)
(** ** Wake word *)
(* ================================================================== *)

Lemma occurs_ci_nonempty (word text : string) :
  occurs_ci word text -> word <> "" -> Py.truthy (Some text) = true.
Proof.
  intros (pre & mid & suf & -> & <-) Hne.
  destruct pre; [|reflexivity].
  destruct mid; [|reflexivity].
  now elim Hne.
Qed.

(** The scan over the wake words stops at "may" as soon as the lower-cased
    text contains it. *)
Lemma wake_scan_hit (text_lower : string) :
  Py.contains "may" text_lower = true ->
  wake_scan WAKE_WORDS text_lower
  = (true,
     let query := Py.strip (Py.replace "may" "" text_lower) in
     if Py.is_empty query then None else Some query).
Proof.
  intros H. cbn [WAKE_WORDS wake_scan]. rewrite H.
  unfold Py.truthy. cbv zeta.
  now destruct (Py.strip (Py.replace "may" "" text_lower)).
Qed.

(** Without the wake word nothing is detected. *)
Lemma wake_word_missing (text : string) :
  ~ occurs_ci "may" text -> check_wake_word (Some text) = (false, None).
Proof.
  intros H. unfold check_wake_word.
  destruct (negb (Py.truthy (Some text))); [reflexivity|].
  cbn [WAKE_WORDS wake_scan].
  destruct (Py.contains "may" (Py.lower text)) eqn:E; [|reflexivity].
  exfalso. apply H.
  apply PyFacts.contains_split in E as (pre & suf & E).
  clear H. revert pre E.
  induction text as [|c t IH]; intros pre E.
  - destruct pre; discriminate.
  - destruct pre as [|p pre].
    + destruct t as [|c2 [|c3 t]]; try discriminate.
      cbn in E. injection E as E1 E2 E3 E4.
      exists "", (String c (String c2 (String c3 ""))), t.
      split; [reflexivity|]. cbn. congruence.
    + cbn in E. injection E as _ E.
      destruct (IH pre E) as (a & m & b & -> & Hm).
      exists (String c a), m, b. split; [reflexivity | exact Hm].
Qed.

(** C1, as amended.  For every utterance in which the wake word occurs,
    whatever the letter case, [check_wake_word] reports detection; the query
    is the lower-cased utterance with every occurrence of the wake word
    taken out and the white space at both ends removed, and there is no
    query when nothing is left. *)
Theorem check_wake_word_detects (text : string) :
  occurs_ci "may" text ->
  check_wake_word (Some text)
  = (true,
     if Py.is_empty (wake_remainder text) then None
     else Some (wake_remainder text)).
Proof.
  intros H.
  unfold check_wake_word.
  rewrite (occurs_ci_nonempty "may" text H) by discriminate.
  cbn [negb].
  rewrite wake_scan_hit by (apply PyFacts.contains_lower_of_occurs; exact H).
  reflexivity.
Qed.

Lemma check_wake_word_detects_witness :
  occurs_ci "may" "Tell me, May, about Maya" /\
  check_wake_word (Some "Tell me, May, about Maya")
  = (true, Some "tell me, , about a").
Proof.
  assert (H : occurs_ci "may" "Tell me, May, about Maya")
    by (exists "Tell me, ", "May", ", about Maya"; split; reflexivity).
  split; [exact H|].
  exact (check_wake_word_detects "Tell me, May, about Maya" H).
Defined.

(** The claim as worded fails: only the first occurrence would go, and the
    rest of the utterance would stay as it was. *)
Lemma check_wake_word_not_first_occurrence :
  occurs_ci "may" "may i see maya" /\
  check_wake_word (Some "may i see maya")
  <> (true, Some (Spec.wake_query "may i see maya")).
Proof.
  split.
  - exists "", "may", " i see maya". split; reflexivity.
  - intros H. vm_compute in H. discriminate H.
Qed.

(** The inline query keeps neither the letter case nor any later occurrence
    of the wake word. *)
Example wake_query_lowercased :
  check_wake_word (Some "May Hello There") = (true, Some "hello there")
  /\ Spec.wake_query "May Hello There" = "Hello There".
Proof. split; reflexivity. Qed.

Example wake_word_inside_word :
  check_wake_word (Some "maybe tomorrow") = (true, Some "be tomorrow").
Proof. reflexivity. Qed.

Example wake_word_absent :
  check_wake_word (Some "what time is it") = (false, None).
Proof. reflexivity. Qed.

(** C10.  Empty or missing text is neither a wake-up nor a termination;
    an utterance that holds nothing but the wake word wakes the assistant
    with no query at all, and then the inline-query step of the passive loop
    does nothing. *)
Theorem empty_text_and_bare_wake_word (env : Env) (w : World) (text : string) :
  occurs_ci "may" text ->
  wake_remainder text = "" ->
  check_wake_word None = (false, None)
  /\ check_wake_word (Some "") = (false, None)
  /\ check_termination None = false
  /\ check_termination (Some "") = false
  /\ check_wake_word (Some text) = (true, None)
  /\ inline_query env (snd (check_wake_word (Some text))) w = (tt, w).
Proof.
  intros H Hrem.
  assert (E : check_wake_word (Some text) = (true, None)).
  { unfold check_wake_word.
    rewrite (occurs_ci_nonempty "may" text H) by discriminate.
    cbn [negb].
    rewrite wake_scan_hit by (apply PyFacts.contains_lower_of_occurs; exact H).
    cbv zeta. fold (wake_remainder text). rewrite Hrem. reflexivity. }
  rewrite E. repeat split; reflexivity.
Qed.

Lemma empty_text_and_bare_wake_word_witness :
  occurs_ci "may" " May "
  /\ wake_remainder " May " = ""
  /\ check_wake_word (Some " May ") = (true, None)
  /\ inline_query Demo.env (snd (check_wake_word (Some " May "))) Demo.world
     = (tt, Demo.world).
Proof.
  assert (H : occurs_ci "may" " May ")
    by (exists " ", "May", " "; split; reflexivity).
  split; [exact H|]. split; [reflexivity|].
  pose proof (empty_text_and_bare_wake_word Demo.env Demo.world " May " H eq_refl)
    as (_ & _ & _ & _ & Hw & Hi).
  split; [exact Hw | exact Hi].
Defined.

(* ================================================================== *)
(** ** Reasoning about computations and their traces *)
(* ================================================================== *)

Section Rules.

Variable env : Env.

Lemma runs_ret {A} (a : A) w Q : Q a [] w -> runs (ret a) w Q.
Proof. intros H. exists []. simpl. rewrite app_nil_r. auto. Qed.

Lemma runs_bind {A B} (m : M A) (k : A -> M B) w Q :
  runs m w (fun a e1 w1 =>
    runs (k a) w1 (fun b e2 w2 => Q b (e1 ++ e2)%list w2)) ->
  runs (bind m k) w Q.
Proof.
  intros (e1 & E1 & e2 & E2 & H).
  exists (e1 ++ e2)%list. unfold bind.
  split; [|exact H].
  rewrite E2, E1. now rewrite <- List.app_assoc.
Qed.

Lemma runs_gets {A} (f : World -> A) w Q : Q (f w) [] w -> runs (gets f) w Q.
Proof. intros H. exists []. simpl. rewrite app_nil_r. auto. Qed.

Lemma runs_modify (f : World -> World) w Q :
  trace (f w) = trace w -> Q tt [] (f w) -> runs (modify f) w Q.
Proof. intros E H. exists []. simpl. rewrite app_nil_r. auto. Qed.

Lemma runs_ask {A} (q : Env -> nat -> A) w Q :
  Q (q env (tick w)) [] (set_tick (S (tick w)) w) -> runs (ask env q) w Q.
Proof. intros H. exists []. simpl. rewrite app_nil_r. auto. Qed.

Lemma runs_emit (e : Event) w Q :
  Q tt [e] (set_trace (trace w ++ [e]) w) -> runs (emit e) w Q.
Proof. intros H. exists [e]. simpl. auto. Qed.

Lemma runs_conseq {A} (m : M A) w (Q Q' : A -> list Event -> World -> Prop) :
  runs m w Q -> (forall a e w', Q a e w' -> Q' a e w') -> runs m w Q'.
Proof. intros (e & E & H) HQ. exists e. auto. Qed.

Lemma runs_when (b : bool) (m : M unit) w Q :
  (b = true -> runs m w Q) -> (b = false -> Q tt [] w) -> runs (when b m) w Q.
Proof.
  destruct b; simpl; intros H1 H2; [auto|].
  apply runs_ret; auto.
Qed.

Lemma runs_if_esp32 (m : M unit) w Q :
  (esp32 w <> None -> runs m w Q) -> (esp32 w = None -> Q tt [] w) ->
  runs (if_esp32 m) w Q.
Proof.
  intros H1 H2. unfold if_esp32. apply runs_bind, runs_gets.
  destruct (esp32 w) eqn:E.
  - eapply runs_conseq; [apply H1; discriminate|]. auto.
  - apply runs_ret. auto.
Qed.

Lemma events_since_runs {A} (m : M A) w evs :
  trace (snd (m w)) = (trace w ++ evs)%list -> events_since w (exec m w) = evs.
Proof.
  intros E. unfold events_since, exec. rewrite E.
  rewrite skipn_app, skipn_all, Nat.sub_diag. reflexivity.
Qed.

Lemma core_app (a b : list Event) : core (a ++ b) = (core a ++ core b)%list.
Proof. apply filter_app. Qed.

Lemma said_core (evs : list Event) : said (core evs) = said evs.
Proof.
  induction evs as [|e evs IH]; [reflexivity|].
  destruct e; simpl; congruence.
Qed.

Lemma hume_calls_core (evs : list Event) : hume_calls (core evs) = hume_calls evs.
Proof.
  induction evs as [|e evs IH]; [reflexivity|].
  destruct e; simpl; congruence.
Qed.

Lemma model_calls_core (evs : list Event) : model_calls (core evs) = model_calls evs.
Proof.
  induction evs as [|e evs IH]; [reflexivity|].
  destruct e; simpl; congruence.
Qed.

End Rules.

Lemma said_app (a b : list Event) : said (a ++ b) = (said a ++ said b)%list.
Proof. induction a as [|[] a IH]; simpl; congruence. Qed.

Lemma hume_calls_app (a b : list Event) :
  hume_calls (a ++ b) = (hume_calls a ++ hume_calls b)%list.
Proof. induction a as [|[] a IH]; simpl; congruence. Qed.

Lemma model_calls_app (a b : list Event) :
  model_calls (a ++ b) = (model_calls a ++ model_calls b)%list.
Proof. induction a as [|[] a IH]; simpl; congruence. Qed.

Lemma display_quiet (evs : list Event) :
  core evs = [] -> said evs = [] /\ hume_calls evs = [] /\ model_calls evs = [].
Proof.
  intros H.
  rewrite <- said_core, <- hume_calls_core, <- model_calls_core, H. auto.
Qed.

Ltac run_step :=
  lazymatch goal with
  | |- runs (bind (ret _) _) _ _ => apply runs_bind
  | |- runs (bind (gets _) _) _ _ => apply runs_bind
  | |- runs (bind (modify _) _) _ _ => apply runs_bind
  | |- runs (bind (ask _ _) _) _ _ => apply runs_bind
  | |- runs (bind (emit _) _) _ _ => apply runs_bind
  | |- runs (bind (bind _ _) _) _ _ => apply runs_bind
  | |- runs (ret _) _ _ => apply runs_ret
  | |- runs (gets _) _ _ => apply runs_gets
  | |- runs (modify _) _ _ => apply runs_modify; [reflexivity|]
  | |- runs (ask _ _) _ _ => apply runs_ask
  | |- runs (emit _) _ _ => apply runs_emit
  end.

Ltac run := repeat run_step.

Ltac run_case :=
  lazymatch goal with
  | |- runs (if ?b then _ else _) _ _ => destruct b eqn:?
  | |- runs (match ?x with _ => _ end) _ _ => destruct x eqn:?
  end.

Ltac run_all := repeat (run_step || run_case).

(* ================================================================== *)
(** ** The display link *)
(* ================================================================== *)

Section Display.

Variable env : Env.

Lemma set_connected_runs (b : bool) w Q :
  (forall w', trace w' = trace w -> session w' = session w ->
              is_speaking w' = is_speaking w -> tick w' = tick w ->
              esp32 w' = match esp32 w with
                         | Some _ => Some (mkESP32 b)
                         | None => None
                         end ->
              Q tt [] w') ->
  runs (set_connected b) w Q.
Proof.
  intros H. exists []. simpl. rewrite app_nil_r. split; [|apply H].
  all: destruct (esp32 w) eqn:E; simpl; auto.
Qed.

Lemma connect_runs w :
  runs (connect env) w (fun _ evs w' =>
    evs = [EvConnect (env_connect env (tick w))]
    /\ session w' = session w /\ is_speaking w' = is_speaking w
    /\ tick w' = S (tick w)
    /\ esp32 w' = match esp32 w with
                  | Some _ => Some (mkESP32 (env_connect env (tick w)))
                  | None => None
                  end).
Proof.
  unfold connect. run. apply set_connected_runs.
  intros w' Ht Hs Hsp Hk He. simpl in *. repeat split; auto.
Qed.

(** C9, as amended.  A send on a missing or disconnected link changes
    nothing at all: nothing is transmitted, no connection is attempted, no
    error is raised.  A send on a connected link transmits one line; when
    that transmission fails, the reconnection is attempted at once, inside
    the failing send, and its outcome is the new connection flag; no send
    attempts a connection in any other case. *)
Theorem send_behaviour (w : World) (message_type text : string) :
  let w' := exec (send env message_type text) w in
  let line := message_type ++ "|" ++ text ++ nl in
  match esp32 w with
  | None => w' = w
  | Some c =>
      if connected c then
        if env_sendall env (tick w) line then
          events_since w w' = [EvSendall line true]
          /\ esp32 w' = Some (mkESP32 true)
        else
          events_since w w'
          = [EvSendall line false; EvConnect (env_connect env (S (tick w)))]
          /\ esp32 w' = Some (mkESP32 (env_connect env (S (tick w))))
      else w' = w
  end.
Proof.
  unfold exec, send, is_connected, connect, set_connected, events_since,
    bind, gets, modify, emit, ask, ret.
  destruct w as [tk tr cf e ec hk ac ca cx sp rs bt lb].
  destruct e as [[[|]]|]; cbn; try reflexivity.
  match goal with
  | |- context [env_sendall ?e ?t ?l] => destruct (env_sendall e t l)
  end; cbn.
  - rewrite skipn_app, skipn_all, Nat.sub_diag. auto.
  - rewrite <- List.app_assoc, skipn_app, skipn_all, Nat.sub_diag. auto.
Qed.

Lemma send_runs (message_type text : string) w :
  runs (send env message_type text) w (display_only w).
Proof.
  unfold send, is_connected, display_only. run.
  run_case; run.
  - repeat split; reflexivity.
  - run_case; run.
    + repeat split; reflexivity.
    + apply runs_bind, set_connected_runs. intros w1 Ht Hs Hsp Hk He.
      eapply runs_conseq; [apply connect_runs|].
      intros [] e w2 (-> & Hs2 & Hsp2 & _). simpl.
      repeat split; [now rewrite Hs2, Hs | now rewrite Hsp2, Hsp].
Qed.

Lemma if_esp32_send_runs (message_type text : string) w :
  runs (if_esp32 (send env message_type text)) w (display_only w).
Proof.
  apply runs_if_esp32; intros _.
  - apply send_runs.
  - repeat split; reflexivity.
Qed.

End Display.

Lemma session_fields (w w' : World) :
  session w' = session w ->
  config_file w' = config_file w /\ elevenlabs_client w' = elevenlabs_client w
  /\ hume_api_key w' = hume_api_key w /\ anthropic_client w' = anthropic_client w
  /\ conversation_active w' = conversation_active w /\ context w' = context w
  /\ reminders w' = reminders w
  /\ battery_thresholds w' = battery_thresholds w
  /\ last_battery_check w' = last_battery_check w.
Proof. unfold session. intros H. injection H. intuition. Qed.

Ltac session_of H :=
  let F := fresh "F" in
  pose proof (session_fields _ _ H) as F;
  destruct F as (? & ? & ? & ? & ? & ? & ? & ? & ?).

(** Run the first computation of a sequence by a lemma already proved for
    it. *)
Ltac run_by lem :=
  apply runs_bind; eapply runs_conseq; [apply lem | cbv beta].

(* ================================================================== *)
(** ** Speech in and out *)
(* ================================================================== *)

Section Speech.

Variable env : Env.

(** Speaking says the text once, may synthesise it, and leaves the session
    alone. *)
Lemma speak_runs (text : string) w :
  runs (speak env text) w (fun _ evs w' =>
    (core evs = [EvSay text] \/ exists ok, core evs = [EvSay text; EvTTS text ok])
    /\ session w' = session w).
Proof.
  unfold speak, send_speaking, send_ready.
  run_by if_esp32_send_runs. intros [] e1 w1 (C1 & S1 & _).
  run. run_case; run.
  - rewrite !core_app, C1. split; [left; reflexivity | exact S1].
  - apply runs_when; intros Hok.
    + eapply runs_conseq; [apply if_esp32_send_runs|].
      intros [] e2 w2 (C2 & S2 & _).
      rewrite !core_app, C1, C2. split; [right; eexists; reflexivity|].
      rewrite S2. exact S1.
    + rewrite !core_app, C1. split; [right; eexists; reflexivity | exact S1].
Qed.

Lemma speak_said (text : string) w :
  runs (speak env text) w (fun _ evs w' =>
    said evs = [text] /\ hume_calls evs = [] /\ model_calls evs = []
    /\ session w' = session w).
Proof.
  eapply runs_conseq; [apply speak_runs|].
  intros [] evs w' ([C|[ok C]] & S);
    rewrite <- said_core, <- hume_calls_core, <- model_calls_core, C; auto.
Qed.

Lemma listen_runs (timeout limit : option nat) w :
  runs (listen env timeout limit) w (fun _ evs w' =>
    said evs = [] /\ hume_calls evs = [] /\ model_calls evs = []
    /\ session w' = session w).
Proof.
  unfold listen, send_listening, send_input.
  run. run_case.
  - run_by if_esp32_send_runs. intros [] e1 w1 (C1 & S1 & _).
    run. run_by if_esp32_send_runs. intros [] e2 w2 (C2 & S2 & _).
    run.
    rewrite <- said_core, <- hume_calls_core, <- model_calls_core.
    rewrite !core_app, C1, C2. simpl. repeat split. now rewrite S2.
  - run_by if_esp32_send_runs. intros [] e1 w1 (C1 & S1 & _).
    run.
    rewrite <- said_core, <- hume_calls_core, <- model_calls_core.
    rewrite !core_app, C1. simpl. repeat split. exact S1.
  - run. repeat split.
Qed.

End Speech.

(* ================================================================== *)
(** ** Reminders *)
(* ================================================================== *)

Lemma Reminder_eqb_eq (a b : Reminder) : Reminder_eqb a b = true <-> a = b.
Proof.
  destruct a as [ta za], b as [tb zb]. unfold Reminder_eqb. simpl.
  rewrite andb_true_iff, String.eqb_eq, Z.eqb_eq.
  split; [intros [-> ->]; reflexivity | intros H; injection H; auto].
Qed.

(** Removing an element that first occurs behind [kept] deletes exactly that
    occurrence. *)
Lemma list_remove_behind (x : Reminder) (kept rest : list Reminder) :
  ~ In x kept -> list_remove x (kept ++ x :: rest) = (kept ++ rest)%list.
Proof.
  induction kept as [|y kept IH]; simpl; intros H.
  - assert (E : Reminder_eqb x x = true) by now apply Reminder_eqb_eq.
    now rewrite E.
  - destruct (Reminder_eqb y x) eqn:E.
    + apply Reminder_eqb_eq in E. subst. tauto.
    + rewrite IH by tauto. reflexivity.
  Qed.

(** The scan removes the due reminders and nothing else, and collects them
    in the order of the list. *)
Lemma scan_due_from (now : Z) (copy kept due : list Reminder) :
  Forall (fun r => is_due now r = false) kept ->
  scan_due now copy due (kept ++ copy)
  = ((due ++ filter (is_due now) copy)%list,
     (kept ++ filter (fun r => negb (is_due now r)) copy)%list).
Proof.
  revert kept due.
  induction copy as [|r copy IH]; intros kept due Hk; simpl.
  - now rewrite !app_nil_r.
  - fold (is_due now r). destruct (is_due now r) eqn:Hr; simpl.
    + rewrite list_remove_behind, IH by
        (auto; intros Hin; rewrite Forall_forall in Hk;
         apply Hk in Hin; congruence).
      now rewrite <- List.app_assoc.
    + change (kept ++ r :: copy)%list with (kept ++ [r] ++ copy)%list.
      rewrite List.app_assoc, IH.
      * now rewrite <- List.app_assoc.
      * apply Forall_app. split; [exact Hk | now constructor].
Qed.

Lemma scan_due_filter (now : Z) (rs : list Reminder) :
  scan_due now rs [] rs
  = (filter (is_due now) rs, filter (fun r => negb (is_due now r)) rs).
Proof. exact (scan_due_from now rs [] [] (Forall_nil _)). Qed.

Lemma count_occ_filter_true (f : Reminder -> bool) (l : list Reminder) (r : Reminder) :
  f r = true ->
  count_occ Reminder_eq_dec (filter f l) r = count_occ Reminder_eq_dec l r.
Proof.
  intros Hr. induction l as [|y l IH]; simpl; [reflexivity|].
  destruct (Reminder_eq_dec y r) as [->|Hne].
  - rewrite Hr. simpl. destruct (Reminder_eq_dec r r); congruence.
  - destruct (f y); simpl; [|exact IH].
    destruct (Reminder_eq_dec y r); congruence.
Qed.

Section Reminders.

Variable env : Env.

Lemma announce_all_runs (due : list Reminder) w :
  runs (for_each due (fun reminder => speak env ("Reminder: " ++ r_text reminder))) w
    (fun _ evs w' => said evs = map announcement due /\ session w' = session w).
Proof.
  revert w. induction due as [|r due IH]; intros w; simpl.
  - apply runs_ret. auto.
  - run_by speak_said. intros [] e1 w1 (Hs & _ & _ & S1).
    eapply runs_conseq; [apply IH|].
    intros [] e2 w2 (Hs2 & S2). cbv beta.
    rewrite said_app, Hs, Hs2. split; [reflexivity | now rewrite S2].
Qed.

(** What one due-check does, whatever the state. *)
Lemma check_reminders_effect w :
  let now := env_clock env (tick w) in
  let due := filter (is_due now) (reminders w) in
  let left := filter (fun r => negb (is_due now r)) (reminders w) in
  let w' := exec (check_reminders env) w in
  reminders w' = left
  /\ match due with
     | [] => events_since w w' = [] /\ config_file w' = config_file w
     | _ :: _ =>
         config_file w'
         = stored_after (env_write env (S (tick w))) left (config_file w)
         /\ exists rest,
             events_since w w'
             = EvSaveConfig left (env_write env (S (tick w))) :: rest
             /\ said rest = map announcement due
     end.
Proof.
  cbv zeta.
  assert (R : runs (check_reminders env) w (fun _ evs w' =>
    reminders w' = filter (fun r => negb (is_due (env_clock env (tick w)) r)) (reminders w)
    /\ match filter (is_due (env_clock env (tick w))) (reminders w) with
       | [] => evs = [] /\ config_file w' = config_file w
       | _ :: _ =>
           config_file w'
           = stored_after (env_write env (S (tick w)))
               (filter (fun r => negb (is_due (env_clock env (tick w)) r)) (reminders w))
               (config_file w)
           /\ exists rest,
               evs = EvSaveConfig (filter (fun r => negb (is_due (env_clock env (tick w)) r)) (reminders w))
                                  (env_write env (S (tick w))) :: rest
               /\ said rest = map announcement (filter (is_due (env_clock env (tick w))) (reminders w))
       end)).
  { unfold check_reminders, datetime_now, save_config. run.
    cbn [reminders set_tick].
    rewrite scan_due_filter. cbn [fst snd].
    destruct (filter (is_due (env_clock env (tick w))) (reminders w))
      as [|d due] eqn:Hdue.
    - run. auto.
    - run. eapply runs_conseq; [apply announce_all_runs|].
      intros [] evs w' (Hs & S1). cbv beta. session_of S1.
      cbn in *. repeat split; auto.
      eexists. split; [reflexivity | exact Hs]. }
  destruct R as (evs & E & Hr & Hm).
  rewrite (events_since_runs _ _ _ E).
  split; [exact Hr | exact Hm].
Qed.

End Reminders.

Lemma check_reminders_said (env : Env) (w : World) :
  said (events_since w (exec (check_reminders env) w))
  = map announcement (filter (is_due (env_clock env (tick w))) (reminders w)).
Proof.
  destruct (check_reminders_effect env w) as (_ & H).
  destruct (filter (is_due (env_clock env (tick w))) (reminders w)).
  - destruct H as (-> & _). reflexivity.
  - destruct H as (_ & rest & -> & Hs). exact Hs.
Qed.

(** C5, as amended.  A reminder that is in the active set and due at the
    time of a check is taken out of the active set by that check; the write
    of the shortened set to the configuration is attempted before anything
    is announced, and it is the only write; the file holds the shortened set
    when the write succeeds, and a failed write is passed over: the file is
    then as the failure left it, and the announcements are made all the
    same.  The announcements of the check are those of the due reminders,
    one per entry and in order; and a later check that starts from the set
    this one left neither finds the reminder due, nor announces anything but
    the reminders then due, nor brings the reminder back. *)
Theorem due_reminder_announced_once (env : Env) (w : World) (r : Reminder) :
  In r (reminders w) ->
  (r_time r <= env_clock env (tick w))%Z ->
  let now := env_clock env (tick w) in
  let due := filter (is_due now) (reminders w) in
  let w' := exec (check_reminders env) w in
  let out := env_write env (S (tick w)) in
  (exists rest,
      events_since w w' = EvSaveConfig (reminders w') out :: rest
      /\ said rest = map announcement due)
  /\ count_occ Reminder_eq_dec due r = count_occ Reminder_eq_dec (reminders w) r
  /\ In r due
  /\ config_file w' = stored_after out (reminders w') (config_file w)
  /\ (out = Written -> config_file w' = reminders w')
  /\ ~ In r (reminders w')
  /\ forall w2,
       reminders w2 = reminders w' ->
       let due2 := filter (is_due (env_clock env (tick w2))) (reminders w2) in
       let w3 := exec (check_reminders env) w2 in
       ~ In r due2
       /\ said (events_since w2 w3) = map announcement due2
       /\ ~ In r (reminders w3).
Proof.
  intros Hin Htime now due w' out.
  assert (Hdue : is_due now r = true) by (apply Z.leb_le; exact Htime).
  assert (Hrd : In r due) by (apply filter_In; auto).
  destruct (check_reminders_effect env w) as (Hleft & Hm).
  fold now in Hleft, Hm. fold due in Hm. fold w' in Hleft, Hm.
  fold out in Hm.
  assert (Hout : ~ In r (reminders w')).
  { rewrite Hleft. intros Hf. apply filter_In in Hf as [_ Hf].
    rewrite Hdue in Hf. discriminate. }
  destruct due as [|d due'] eqn:Ed; [contradiction|].
  destruct Hm as (Hcfg & rest & Hev & Hsaid).
  split; [|split; [|split; [|split; [|split; [|split]]]]]; auto.
  - exists rest. rewrite Hleft. auto.
  - rewrite <- Ed. apply count_occ_filter_true. exact Hdue.
  - congruence.
  - intros Hw. rewrite Hcfg, Hw, Hleft. reflexivity.
  - intros w2 H2 due2 w3.
    assert (Hnot : ~ In r (reminders w2)) by (rewrite H2; exact Hout).
    split; [|split].
    + intros Hf. apply filter_In in Hf as [Hf _]. auto.
    + apply check_reminders_said.
    + destruct (check_reminders_effect env w2) as (Hl2 & _).
      fold w3 in Hl2. rewrite Hl2.
      intros Hf. apply filter_In in Hf as [Hf _]. auto.
Qed.

(** The claim as worded fails where the write is refused: the reminder is
    announced and leaves the active set, and the file still holds it. *)
Lemma refused_write_keeps_reminder_stored :
  let w' := exec (check_reminders Scenes.unwritable) Scenes.stored in
  In Demo.call_mum (reminders Scenes.stored)
  /\ (r_time Demo.call_mum
      <= env_clock Scenes.unwritable (tick Scenes.stored))%Z
  /\ said (events_since Scenes.stored w') = ["Reminder: call mum"]
  /\ reminders w' = [Demo.water_plants]
  /\ config_file w' = [Demo.call_mum; Demo.water_plants]
  /\ config_file w' <> reminders w'.
Proof.
  cbv zeta.
  split; [left; reflexivity|].
  split; [vm_compute; discriminate|].
  split; [vm_compute; reflexivity|].
  split; [vm_compute; reflexivity|].
  split; [vm_compute; reflexivity|].
  vm_compute. discriminate.
Qed.

Lemma due_reminder_announced_once_witness :
  let w' := exec (check_reminders Demo.env) Demo.world in
  In Demo.call_mum (reminders Demo.world)
  /\ (r_time Demo.call_mum <= env_clock Demo.env (tick Demo.world))%Z
  /\ said (events_since Demo.world w') = ["Reminder: call mum"]
  /\ reminders w' = [Demo.water_plants]
  /\ config_file w' = reminders w'
  /\ ~ In Demo.call_mum (reminders w').
Proof.
  assert (H1 : In Demo.call_mum (reminders Demo.world)) by (left; reflexivity).
  assert (H2 : (r_time Demo.call_mum <= env_clock Demo.env (tick Demo.world))%Z)
    by (vm_compute; discriminate).
  pose proof (due_reminder_announced_once Demo.env Demo.world Demo.call_mum H1 H2)
    as (_ & _ & _ & _ & Hfile & Hout & _).
  split; [exact H1|]. split; [exact H2|].
  split; [reflexivity|]. split; [reflexivity|].
  split; [exact (Hfile eq_refl) | exact Hout].
Defined.

(* ================================================================== *)
(** ** Battery *)
(* ================================================================== *)

Lemma Qlt_bool_iff (a b : Q) : Qlt_bool a b = true <-> (a < b)%Q.
Proof.
  unfold Qlt_bool. rewrite negb_true_iff.
  split; intros H.
  - apply Qnot_le_lt. intros Hle. apply Qle_bool_iff in Hle. congruence.
  - destruct (Qle_bool b a) eqn:E; [|reflexivity].
    apply Qle_bool_iff in E. now apply Qlt_not_le in H.
Qed.

Lemma Qle_bool_mono (p : Q) (s t : Z) :
  (s <= t)%Z -> Qle_bool p (inject_Z s) = true -> Qle_bool p (inject_Z t) = true.
Proof.
  intros Hst H. apply Qle_bool_iff in H. apply Qle_bool_iff.
  eapply Qle_trans; [exact H|]. now rewrite <- Zle_Qle.
Qed.

Lemma three_flags_inv (items : list (Z * bool)) :
  three_flags items ->
  exists a b c, items = [(20, a); (10, b); (5, c)]%Z.
Proof.
  unfold three_flags. intros H.
  destruct items as [|[k1 a] [|[k2 b] [|[k3 c] [|]]]]; try discriminate.
  simpl in H. injection H as -> -> ->. now exists a, b, c.
Qed.

(** What the loop over the thresholds finds, and what marking does. *)
Lemma scan_thresholds_found (p : Q) (items : list (Z * bool)) (t : Z) :
  three_flags items ->
  scan_thresholds p items = Some t ->
  In t [20; 10; 5]%Z
  /\ Qle_bool p (inject_Z t) = true
  /\ alerted t items = false
  /\ three_flags (dict_set t true items)
  /\ forall t', In t' [20; 10; 5]%Z ->
       alerted t' (dict_set t true items)
       = if Z.eqb t' t then true else alerted t' items.
Proof.
  intros H Hs. destruct (three_flags_inv _ H) as (a & b & c & ->).
  cbn [scan_thresholds] in Hs.
  destruct (Qle_bool p (inject_Z 20)) eqn:E20, a; cbn in Hs;
    try (injection Hs as <-; repeat split; cbn; auto;
         intros t' [<-|[<-|[<-|[]]]]; reflexivity);
  destruct (Qle_bool p (inject_Z 10)) eqn:E10, b; cbn in Hs;
    try (injection Hs as <-; repeat split; cbn; auto;
         intros t' [<-|[<-|[<-|[]]]]; reflexivity);
  destruct (Qle_bool p (inject_Z 5)) eqn:E5, c; cbn in Hs;
    try (injection Hs as <-; repeat split; cbn; auto;
         intros t' [<-|[<-|[<-|[]]]]; reflexivity);
  discriminate.
Qed.

Lemma scan_thresholds_above (p : Q) (items : list (Z * bool)) :
  three_flags items ->
  Qlt_bool (inject_Z 20) p = true ->
  scan_thresholds p items = None.
Proof.
  intros H Hp. destruct (three_flags_inv _ H) as (a & b & c & ->).
  unfold Qlt_bool in Hp. apply negb_true_iff in Hp.
  assert (H10 : Qle_bool p (inject_Z 10) = false).
  { destruct (Qle_bool p (inject_Z 10)) eqn:E; [|reflexivity].
    apply (Qle_bool_mono p 10 20) in E; [congruence | lia]. }
  assert (H5 : Qle_bool p (inject_Z 5) = false).
  { destruct (Qle_bool p (inject_Z 5)) eqn:E; [|reflexivity].
    apply (Qle_bool_mono p 5 20) in E; [congruence | lia]. }
  cbn [scan_thresholds]. now rewrite Hp, H10, H5.
Qed.

(** The effect of one check, case by case. *)
Lemma check_battery_effect (env : Env) (w : World) :
  let r := check_battery env w in
  let c := mkCheck w (fst r) (snd r) in
  (observed c = None /\ fst r = None
   /\ battery_thresholds (snd r) = battery_thresholds w)
  \/ exists p,
       observed c = Some p
       /\ match scan_thresholds p (battery_thresholds w) with
          | Some t =>
              fst r = Some ("Battery at " ++ env_str_number env p
                            ++ "%. Please charge soon.")
              /\ battery_thresholds (snd r)
                 = dict_set t true (battery_thresholds w)
          | None =>
              fst r = None
              /\ battery_thresholds (snd r)
                 = if Qlt_bool (inject_Z 20) p then fresh_thresholds
                   else battery_thresholds w
          end.
Proof.
  cbv zeta. unfold observed, events_since. cbn [before after].
  unfold check_battery, datetime_now, emit, bind, gets, modify, ask, ret, when.
  cbn [fst snd tick last_battery_check set_tick].
  destruct (env_clock env (tick w) - last_battery_check w <? 300)%Z.
  - left. cbn. rewrite skipn_all. auto.
  - cbn [fst snd tick trace set_tick set_last_battery_check set_trace
         battery_thresholds].
    destruct (env_battery env (S (tick w))) as [p| |] eqn:Eb;
      cbn [fst snd tick trace set_tick set_last_battery_check set_trace
           battery_thresholds].
    + right. exists p.
      destruct (scan_thresholds p (battery_thresholds w)) eqn:Es;
        [|destruct (Qlt_bool (inject_Z 20) p) eqn:Ep];
        cbn [fst snd tick trace set_tick set_last_battery_check set_trace
             set_battery_thresholds battery_thresholds ret];
        rewrite skipn_app, skipn_all, Nat.sub_diag; cbn [skipn app]; auto.
    + left. rewrite skipn_app, skipn_all, Nat.sub_diag. cbn. auto.
    + left. rewrite skipn_app, skipn_all, Nat.sub_diag. cbn. auto.
Qed.

(** One check, summarised for the argument over a run. *)
Lemma check_battery_step (env : Env) (w : World) :
  three_flags (battery_thresholds w) ->
  let r := check_battery env w in
  let c := mkCheck w (fst r) (snd r) in
  three_flags (battery_thresholds (snd r))
  /\ length (newly_alerted c)
     = match warning c with Some _ => 1 | None => 0 end
  /\ (forall p, observed c = Some p -> (inject_Z 20 < p)%Q ->
        battery_thresholds (snd r) = fresh_thresholds /\ fst r = None)
  /\ (in_low_period c ->
      forall t, In t [20; 10; 5]%Z ->
        alerted t (battery_thresholds w) = true ->
        alerted t (battery_thresholds (snd r)) = true).
Proof.
  intros Hw. cbv zeta.
  pose proof (check_battery_effect env w) as H. cbv zeta in H.
  unfold newly_alerted, in_low_period. cbn [before after warning].
  destruct H as [(Ho & Hr & Ht)|(p & Ho & Hm)].
  - (* nothing read *)
    rewrite Ho, Hr, Ht.
    split; [exact Hw|]. split; [|split].
    + destruct (three_flags_inv _ Hw) as (a & b & x & E). rewrite E.
      now destruct a, b, x.
    + intros q Hq. discriminate.
    + auto.
  - rewrite Ho.
    destruct (scan_thresholds p (battery_thresholds w)) as [t|] eqn:Es.
    + (* a threshold is reached for the first time *)
      destruct Hm as (Hr & Ht). rewrite Hr, Ht.
      destruct (scan_thresholds_found p _ t Hw Es)
        as (Hin & Hle & Hoff & Hk & Hset).
      split; [exact Hk|]. split; [|split].
      * cbn [filter].
        rewrite !Hset by (cbn; auto).
        destruct Hin as [<-|[<-|[<-|[]]]]; cbn; rewrite Hoff; cbn;
          repeat match goal with
                 | |- context [alerted ?k ?l] => destruct (alerted k l)
                 end; reflexivity.
      * intros q Hq Hlt. exfalso.
        injection Hq as <-.
        apply Qlt_bool_iff in Hlt.
        rewrite (scan_thresholds_above p _ Hw Hlt) in Es. discriminate.
      * intros _ t' Ht' Hon. rewrite Hset by exact Ht'.
        now destruct (Z.eqb t' t).
    + (* no threshold newly reached *)
      destruct Hm as (Hr & Ht). rewrite Hr, Ht.
      destruct (Qlt_bool (inject_Z 20) p) eqn:Ep.
      * split; [reflexivity|]. split; [|split; [auto|]].
        { destruct (three_flags_inv _ Hw) as (a & b & x & E). rewrite E.
          now destruct a, b, x. }
        intros Hlow. exfalso.
        apply Qlt_bool_iff in Ep. specialize (Hlow p eq_refl).
        now apply Qlt_not_le in Ep.
      * split; [exact Hw|]. split; [|split].
        -- destruct (three_flags_inv _ Hw) as (a & b & x & E). rewrite E.
           now destruct a, b, x.
        -- intros q Hq Hlt. exfalso. injection Hq as <-.
           apply Qlt_bool_iff in Hlt. congruence.
        -- auto.
Qed.

Lemma warns_for_flags (t : Z) (c : BatteryCheck) :
  warns_for t c = true ->
  alerted t (battery_thresholds (before c)) = false
  /\ alerted t (battery_thresholds (after c)) = true.
Proof.
  unfold warns_for. destruct (warning c); [|discriminate].
  rewrite andb_true_iff, negb_true_iff. auto.
Qed.

(** Within a low period a threshold already alerted stays silent, and one
    not yet alerted warns at most once. *)
Lemma low_period_once (env : Env) (t : Z) (n : nat) :
  In t [20; 10; 5]%Z ->
  forall w,
    three_flags (battery_thresholds w) ->
    Forall in_low_period (battery_run env n w) ->
    (alerted t (battery_thresholds w) = true ->
     filter (warns_for t) (battery_run env n w) = [])
    /\ length (filter (warns_for t) (battery_run env n w)) <= 1.
Proof.
  intros Ht. induction n as [|n IH]; intros w Hw Hlow.
  - simpl. auto.
  - cbn [battery_run] in *. cbv zeta in *.
    apply Forall_cons_iff in Hlow as [Hc Hrest].
    destruct (check_battery_step env w Hw) as (Hk & _ & _ & Hmono).
    cbv zeta in Hmono. specialize (Hmono Hc t Ht).
    destruct (IH _ Hk Hrest) as (IH1 & IH2).
    cbn [filter].
    destruct (warns_for t _) eqn:Ew.
    + apply warns_for_flags in Ew as [Hoff Hon]. cbn [before after] in *.
      rewrite (IH1 Hon). split; [congruence | simpl; lia].
    + split; [|exact IH2]. intros Hon. apply IH1, Hmono, Hon.
Qed.

(** C6.  In any run of battery checks: every check marks at most one
    threshold, and marks one exactly when it returns a warning, so a check
    gives at most one warning; a check that reads a charge above 20% leaves
    all three thresholds unalerted; and over a stretch of checks none of
    which reads a charge above 20% - a low period - each of the thresholds
    20, 10 and 5 gives at most one warning. *)
Theorem battery_warning_once_per_low_period (env : Env) (n : nat) (w : World) :
  three_flags (battery_thresholds w) ->
  let checks := battery_run env n w in
  Forall (fun c => length (newly_alerted c)
                   = match warning c with Some _ => 1 | None => 0 end) checks
  /\ Forall (fun c => forall p, observed c = Some p -> (inject_Z 20 < p)%Q ->
                        battery_thresholds (after c) = fresh_thresholds) checks
  /\ (Forall in_low_period checks ->
      forall t, In t [20; 10; 5]%Z ->
        length (filter (warns_for t) checks) <= 1).
Proof.
  intros Hw checks. subst checks. split; [|split].
  - revert w Hw. induction n as [|n IH]; intros w Hw; [constructor|].
    cbn [battery_run]. cbv zeta.
    destruct (check_battery_step env w Hw) as (Hk & Hone & _ & _).
    constructor; [exact Hone | apply IH, Hk].
  - revert w Hw. induction n as [|n IH]; intros w Hw; [constructor|].
    cbn [battery_run]. cbv zeta.
    destruct (check_battery_step env w Hw) as (Hk & _ & Hreset & _).
    constructor; [|apply IH, Hk].
    intros p Hp Hlt. apply (Hreset p Hp Hlt).
  - intros Hlow t Ht. now apply low_period_once.
Qed.

Lemma battery_warning_once_per_low_period_witness :
  three_flags (battery_thresholds Demo.world)
  /\ map warning (battery_run Demo.env 4 Demo.world)
     = [Some "Battery at 15%. Please charge soon."; None; None; None]
  /\ forall t, In t [20; 10; 5]%Z ->
       length (filter (warns_for t) (battery_run Demo.env 4 Demo.world)) <= 1.
Proof.
  assert (Hw : three_flags (battery_thresholds Demo.world)) by reflexivity.
  split; [exact Hw|]. split; [reflexivity|].
  apply (battery_warning_once_per_low_period Demo.env 4 Demo.world Hw).
  repeat constructor; intros p Hp; vm_compute in Hp; injection Hp as <-;
    vm_compute; discriminate.
Defined.

(* ================================================================== *)
(** ** Emotion detection *)
(* ================================================================== *)

Lemma fallback_sentiment_bucket (env : Env) (text : string) :
  dict_get emotion_map (fallback_sentiment env text) "Calm"
  = match env_polarity env text with
    | Some p => Spec.bucket p
    | None => "Calm"
    end.
Proof.
  unfold fallback_sentiment, Spec.bucket.
  destruct (env_polarity env text) as [p|]; [|reflexivity].
  destruct (Qlt_bool (3 # 10) p) eqn:E1.
  - apply Qlt_bool_iff in E1.
    destruct (Qlt_le_dec (3 # 10) p) as [_|H]; [reflexivity|].
    now apply Qlt_not_le in E1.
  - destruct (Qlt_le_dec (3 # 10) p) as [H|_].
    + apply Qlt_bool_iff in H. congruence.
    + destruct (Qlt_bool p (-3 # 10)) eqn:E2.
      * apply Qlt_bool_iff in E2.
        destruct (Qlt_le_dec p (-3 # 10)) as [_|H]; [reflexivity|].
        now apply Qlt_not_le in E2.
      * destruct (Qlt_le_dec p (-3 # 10)) as [H|_]; [|reflexivity].
        apply Qlt_bool_iff in H. congruence.
Qed.

Lemma detect_emotions_fast_fallback (env : Env) (text : string) (w : World) :
  service_unavailable env text w ->
  eval (detect_emotions_fast env text) w = sentiment_result env text.
Proof.
  intros H.
  unfold eval, detect_emotions_fast, bind, gets, ask, emit, modify, ret.
  cbn [fst snd].
  destruct H as [H|[H|[[rest H]|[H|H]]]].
  - rewrite H. reflexivity.
  - rewrite H. reflexivity.
  - rewrite H. unfold key_unusable.
    rewrite PyFacts.startswith_app, orb_true_r. reflexivity.
  - destruct (key_unusable (hume_api_key w)); [reflexivity|].
    cbn [fst snd tick]. rewrite H. reflexivity.
  - destruct (key_unusable (hume_api_key w)); [reflexivity|].
    cbn [fst snd tick]. rewrite H. reflexivity.
Qed.

(** C7.  Whenever the emotion service cannot be used, the result for a text
    is the same in every run: the primary emotion is Joy for a polarity
    above 0.3, Sadness for one below -0.3 and Calm otherwise (also when no
    polarity can be computed), the score is 0.5 and no further emotions are
    listed. *)
Theorem emotion_fallback_deterministic
    (env : Env) (text : string) (w1 w2 : World) :
  service_unavailable env text w1 ->
  service_unavailable env text w2 ->
  let r1 := eval (detect_emotions_fast env text) w1 in
  let r2 := eval (detect_emotions_fast env text) w2 in
  r1 = r2
  /\ primary r1 = match env_polarity env text with
                  | Some p => Spec.bucket p
                  | None => "Calm"
                  end
  /\ score r1 = (1 # 2)%Q
  /\ top3 r1 = None.
Proof.
  intros H1 H2. cbv zeta.
  rewrite !detect_emotions_fast_fallback by assumption.
  unfold sentiment_result. cbn [primary score top3].
  rewrite fallback_sentiment_bucket. auto.
Qed.

Lemma emotion_fallback_deterministic_witness :
  let text := "I'm so excited today" in
  let keyless := new_assistant None false false 0 in
  service_unavailable Demo.env text Demo.world
  /\ service_unavailable Demo.env text keyless
  /\ eval (detect_emotions_fast Demo.env text) Demo.world
     = eval (detect_emotions_fast Demo.env text) keyless
  /\ eval (detect_emotions_fast Demo.env text) Demo.world
     = mkResult "Joy" (1 # 2) None.
Proof.
  cbv zeta.
  assert (H1 : service_unavailable Demo.env "I'm so excited today" Demo.world)
    by (right; right; right; left; reflexivity).
  assert (H2 : service_unavailable Demo.env "I'm so excited today"
                 (new_assistant None false false 0))
    by (left; reflexivity).
  pose proof (emotion_fallback_deterministic Demo.env _ _ _ H1 H2) as (E & _).
  split; [exact H1|]. split; [exact H2|]. split; [exact E | reflexivity].
Defined.

(* ================================================================== *)
(** ** Replies: canned and generated *)
(* ================================================================== *)

Lemma reply_bucket_length (emotions : option EmotionResult) :
  length (reply_bucket emotions) = 3.
Proof.
  assert (C : dict_get responses "Calm" [] = calm_replies) by reflexivity.
  unfold reply_bucket. rewrite C.
  destruct emotions as [e|]; [|reflexivity].
  unfold responses. cbn [dict_get].
  repeat match goal with
         | |- context [String.eqb ?a ?b] => destruct (String.eqb a b)
         end; reflexivity.
Qed.


Section Replies.

Variable env : Env.

Lemma random_choice_runs (l : list string) w :
  l <> [] ->
  runs (random_choice env l) w (fun r evs w' =>
    evs = [] /\ In r l /\ session w' = session w).
Proof.
  intros Hl. unfold random_choice. run.
  repeat split. apply nth_In. apply Nat.mod_upper_bound.
  destruct l; [contradiction | discriminate].
Qed.

Lemma get_emotion_aware_response_runs query emotions w :
  runs (get_emotion_aware_response env query emotions) w (fun r evs w' =>
    evs = [] /\ In r (reply_bucket emotions) /\ session w' = session w).
Proof.
  unfold get_emotion_aware_response. fold (reply_bucket emotions).
  apply random_choice_runs.
  pose proof (reply_bucket_length emotions) as H.
  destruct (reply_bucket emotions); [discriminate | discriminate].
Qed.

Lemma get_casual_response_runs query w :
  runs (get_casual_response env query) w (fun r evs w' =>
    evs = [] /\ session w' = session w).
Proof.
  unfold get_casual_response, random_choice. run_all; auto.
Qed.

(** The loop over the models. *)
Lemma try_models_runs (model : string) (rest : list string)
    (prompt query : string) emotions w :
  runs (try_models env (model :: rest) prompt query emotions) w
    (fun answer evs w' =>
      session w' = session w
      /\ exists failed final,
          evs = map (attempt_event prompt) (failed ++ [final])
          /\ attempts_outcome (model :: rest) (reply_bucket emotions)
                              failed final answer).
Proof.
  revert model w. induction rest as [|next rest IH]; intros model w;
    cbn [try_models]; run; run_case.
  - run. split; [reflexivity|].
    exists [], (model, ModelText text). split; [reflexivity|].
    repeat split; auto.
  - eapply runs_conseq; [apply get_emotion_aware_response_runs|].
    intros r e w' (-> & Hin & S1). split; [exact S1|].
    exists [], (model, ModelApiError). split; [reflexivity|].
    repeat split; auto.
  - eapply runs_conseq; [apply get_emotion_aware_response_runs|].
    intros r e w' (-> & Hin & S1). split; [exact S1|].
    exists [], (model, ModelOtherError). split; [reflexivity|].
    repeat split; auto.
  - run. split; [reflexivity|].
    exists [], (model, ModelText text). split; [reflexivity|].
    repeat split; auto.
  - eapply runs_conseq; [apply IH|].
    intros r e w' (S1 & failed & final & -> & Hm & Hf & Hlast).
    split; [exact S1|].
    exists ((model, ModelApiError) :: failed), final.
    split; [reflexivity|].
    split; [|split].
    + cbn [app map fst length firstn] in *. now rewrite Hm.
    + constructor; auto.
    + destruct (snd final); auto.
      destruct Hlast as [Hlen Hin]. split; [|exact Hin].
      cbn [length] in *. now rewrite Hlen.
  - eapply runs_conseq; [apply get_emotion_aware_response_runs|].
    intros r e w' (-> & Hin & S1). split; [exact S1|].
    exists [], (model, ModelOtherError). split; [reflexivity|].
    repeat split; auto.
Qed.

End Replies.





(* ================================================================== *)
(** ** The response pipeline *)
(* ================================================================== *)

Lemma attempts_quiet (prompt : string) (l : list (string * ModelOutcome)) :
  said (map (attempt_event prompt) l) = []
  /\ hume_calls (map (attempt_event prompt) l) = [].
Proof. induction l; simpl; auto. Qed.

Lemma digit_is_digit (n : nat) : is_digit (digit n) = true.
Proof.
  unfold digit.
  pose proof (Nat.mod_upper_bound n 10 ltac:(lia)) as H.
  generalize dependent (n mod 10). intros k Hk.
  do 10 (destruct k as [|k]; [reflexivity|]).
  lia.
Qed.

Lemma strftime_reply_form (t : Z) :
  time_reply_form ("It's " ++ strftime_I_M_p t ++ ".").
Proof.
  unfold strftime_I_M_p, two_digits. cbv zeta.
  set (secs := Z.to_nat (t mod 86400)).
  set (hh := if (secs / 3600) mod 12 =? 0 then 12 else (secs / 3600) mod 12).
  set (mm := (secs / 60) mod 60).
  exists (digit (hh / 10)), (digit hh), (digit (mm / 10)), (digit mm),
         (if secs / 3600 <? 12 then "A" else "P").
  repeat split; try apply digit_is_digit.
  - destruct (secs / 3600 <? 12); reflexivity.
  - destruct (secs / 3600 <? 12); auto.
Qed.

Section Pipeline.

Variable env : Env.

Lemma detect_emotions_fast_runs (text : string) w :
  runs (detect_emotions_fast env text) w (fun _ evs w' =>
    said evs = [] /\ model_calls evs = []
    /\ hume_calls evs = (if key_unusable (hume_api_key w) then [] else [text])
    /\ session w' = session w).
Proof.
  unfold detect_emotions_fast. run.
  destruct (key_unusable (hume_api_key w)); run; [auto|].
  run_case; [|run; auto].
  run_case; [run; auto|].
  run_by if_esp32_send_runs. intros [] e1 w1 (C1 & S1 & _).
  run. destruct (display_quiet _ C1) as (Hs & Hh & Hm).
  rewrite !said_app, !model_calls_app, !hume_calls_app, Hs, Hh, Hm.
  auto.
Qed.

Lemma process_with_claude_runs (query : string) emotions w :
  runs (process_with_claude env query emotions) w (fun _ evs w' =>
    said evs = [] /\ hume_calls evs = [] /\ session w' = session w).
Proof.
  unfold process_with_claude, datetime_now.
  run_case; [run; auto|].
  run_case; [run; auto|].
  run. run_case.
  - eapply runs_conseq; [apply get_emotion_aware_response_runs|].
    intros r e w' (-> & _ & S1). auto.
  - run. eapply runs_conseq; [apply try_models_runs|].
    intros r e w' (S1 & failed & final & -> & _).
    destruct (attempts_quiet
                (build_prompt env query emotions (context w))
                (failed ++ [final])) as (Hs & Hh).
    cbn [app]. auto.
Qed.

(** A query with a time keyword is answered from the clock, without any
    event. *)
Lemma process_with_claude_time (query : string) emotions w :
  Py.any (fun keyword => Py.contains keyword (Py.lower query)) time_keywords = true ->
  process_with_claude env query emotions w
  = ("It's " ++ strftime_I_M_p (env_clock env (tick w)) ++ ".",
     set_tick (S (tick w)) w).
Proof. intros H. unfold process_with_claude. rewrite H. reflexivity. Qed.

Lemma remember_runs (text response : string) w :
  runs (remember text response) w (fun _ evs w' =>
    evs = [] /\ context w' = pushed (context w) text response).
Proof.
  unfold remember, pushed. run. cbv zeta. apply runs_when; intros H.
  - run. cbn [context set_context] in *. rewrite H. auto.
  - cbn [context set_context] in *. rewrite H. auto.
Qed.

End Pipeline.

(* ================================================================== *)
(** ** The context window *)
(* ================================================================== *)

Lemma last_n_short {A} (n : nat) (l : list A) : length l <= n -> last_n n l = l.
Proof.
  intros H. unfold last_n. replace (length l - n) with 0 by lia. reflexivity.
Qed.

Lemma last_n_length {A} (n : nat) (l : list A) : length (last_n n l) <= n.
Proof. unfold last_n. rewrite length_skipn. lia. Qed.

Lemma last_n_app {A} (n : nat) (a b : list A) :
  last_n n (last_n n a ++ b) = last_n n (a ++ b).
Proof.
  destruct (le_lt_dec (length a) n) as [H|H].
  - now rewrite (last_n_short n a H).
  - unfold last_n at 1 3.
    rewrite !length_app.
    assert (L : length (last_n n a) = n)
      by (unfold last_n; rewrite length_skipn; lia).
    rewrite L.
    rewrite (skipn_app (length a + length b - n) a b).
    rewrite (skipn_app (n + length b - n) (last_n n a) b).
    rewrite L.
    destruct (le_lt_dec n (length b)) as [Hb|Hb].
    + rewrite (skipn_all2 a), (skipn_all2 (last_n n a)) by lia.
      f_equal. f_equal. lia.
    + replace (length a + length b - n - length a) with 0 by lia.
      replace (n + length b - n - n) with 0 by lia.
      f_equal. unfold last_n. rewrite skipn_skipn. f_equal. lia.
Qed.

Lemma pushed_last_n (ctx : list string) (text response : string) :
  length ctx <= 5 ->
  pushed ctx text response
  = last_n 5 (ctx ++ [exchange_entry (text, response)]).
Proof.
  intros H. unfold pushed, exchange_entry, last_n. cbv zeta. cbn [fst snd].
  rewrite length_app. cbn [length].
  destruct (5 <? length ctx + 1) eqn:E.
  - apply Nat.ltb_lt in E. replace (length ctx + 1 - 5) with 1 by lia.
    reflexivity.
  - apply Nat.ltb_ge in E. replace (length ctx + 1 - 5) with 0 by lia.
    reflexivity.
Qed.

Lemma pushed_length (ctx : list string) (text response : string) :
  length ctx <= 5 -> length (pushed ctx text response) <= 5.
Proof. intros H. rewrite pushed_last_n by exact H. apply last_n_length. Qed.

Lemma remember_context (text response : string) (w : World) :
  context (snd (remember text response w)) = pushed (context w) text response.
Proof.
  destruct (remember_runs text response w) as (evs & _ & _ & H). exact H.
Qed.

(** Any number of appends keeps the last five entries, oldest first. *)
Lemma remember_many (exchanges : list (string * string)) (w : World) :
  length (context w) <= 5 ->
  context (exec (for_each exchanges (fun x => remember (fst x) (snd x))) w)
  = last_n 5 (context w ++ map exchange_entry exchanges).
Proof.
  revert w. induction exchanges as [|[t r] xs IH]; intros w H.
  - cbn. rewrite app_nil_r. symmetry. now apply last_n_short.
  - cbn [for_each map fst snd].
    change (exec (remember t r;; for_each xs (fun x => remember (fst x) (snd x))) w)
      with (exec (for_each xs (fun x => remember (fst x) (snd x)))
                 (snd (remember t r w))).
    rewrite IH by (rewrite remember_context; now apply pushed_length).
    rewrite remember_context, pushed_last_n by exact H.
    rewrite last_n_app, <- List.app_assoc. reflexivity.
Qed.

Section Window.

Variable env : Env.

Lemma keeps_window_bind {A B} (m : M A) (k : A -> M B) :
  keeps_window m -> (forall a, keeps_window (k a)) -> keeps_window (bind m k).
Proof. intros Hm Hk w H. unfold bind. apply Hk, Hm, H. Qed.

Lemma keeps_window_ret {A} (a : A) : keeps_window (ret a).
Proof. intros w H. exact H. Qed.

(** A computation that leaves the context as it is. *)
Lemma keeps_window_same {A} (m : M A) :
  (forall w, context (snd (m w)) = context w) -> keeps_window m.
Proof. intros Hm w H. now rewrite Hm. Qed.

Lemma runs_session_context {A} (m : M A) :
  (forall w, runs m w (fun _ _ w' => session w' = session w)) ->
  forall w, context (snd (m w)) = context w.
Proof.
  intros Hm w. destruct (Hm w) as (evs & _ & S1). now session_of S1.
Qed.

Lemma speak_context text w : context (snd (speak env text w)) = context w.
Proof.
  revert w. apply runs_session_context. intros w.
  eapply runs_conseq; [apply speak_said|]. cbv beta; intros ? ? ? H; apply H.
Qed.

Lemma listen_context t l w : context (snd (listen env t l w)) = context w.
Proof.
  revert w. apply runs_session_context. intros w.
  eapply runs_conseq; [apply listen_runs|]. cbv beta; intros ? ? ? H; apply H.
Qed.

Lemma send_context mt text w :
  context (snd (if_esp32 (send env mt text) w)) = context w.
Proof.
  revert w. apply runs_session_context. intros w.
  eapply runs_conseq; [apply if_esp32_send_runs|].
  unfold display_only. cbv beta. intros ? ? ? H. apply H.
Qed.

Lemma detect_context text w :
  context (snd (detect_emotions_fast env text w)) = context w.
Proof.
  revert w. apply runs_session_context. intros w.
  eapply runs_conseq; [apply detect_emotions_fast_runs|]. cbv beta; intros ? ? ? H; apply H.
Qed.

Lemma casual_context text w :
  context (snd (get_casual_response env text w)) = context w.
Proof.
  revert w. apply runs_session_context. intros w.
  eapply runs_conseq; [apply get_casual_response_runs|]. cbv beta; intros ? ? ? H; apply H.
Qed.

Lemma process_context query emotions w :
  context (snd (process_with_claude env query emotions w)) = context w.
Proof.
  revert w. apply runs_session_context. intros w.
  eapply runs_conseq; [apply process_with_claude_runs|]. cbv beta; intros ? ? ? H; apply H.
Qed.

Lemma check_battery_context w :
  context (snd (check_battery env w)) = context w.
Proof.
  unfold check_battery, datetime_now, emit, bind, gets, modify, ask, ret, when.
  cbn [fst snd tick last_battery_check set_tick].
  destruct (_ <? 300)%Z; [reflexivity|].
  cbn [fst snd tick trace set_tick set_last_battery_check set_trace
       battery_thresholds].
  destruct (env_battery env (S (tick w))); [|reflexivity ..].
  destruct (scan_thresholds _ _); [reflexivity|].
  destruct (Qlt_bool _ _); reflexivity.
Qed.

Lemma check_reminders_context w :
  context (snd (check_reminders env w)) = context w.
Proof.
  assert (R : runs (check_reminders env) w (fun _ _ w' => context w' = context w)).
  { unfold check_reminders, datetime_now, save_config. run.
    run_case; run; [reflexivity|].
    eapply runs_conseq; [apply announce_all_runs|].
    intros [] evs w' (_ & S1). cbv beta. now session_of S1. }
  destruct R as (evs & _ & H). exact H.
Qed.

End Window.

Section Loops.

Variable env : Env.

Ltac ctx :=
  repeat first
    [ rewrite remember_context
    | rewrite speak_context
    | rewrite send_context
    | rewrite listen_context
    | rewrite detect_context
    | rewrite casual_context
    | rewrite process_context
    | rewrite check_battery_context
    | rewrite check_reminders_context
    | progress cbn [context set_conversation_active snd modify ret] ].

(** A conversation turn leaves the context alone or appends one
    exchange. *)
Lemma conversation_turn_context w :
  context (exec (conversation_turn env) w) = context w
  \/ exists text response,
       context (exec (conversation_turn env) w)
       = pushed (context w) text response.
Proof.
  unfold exec, conversation_turn, bind,
    send_input, send_ready, send_response.
  destruct (fst (listen env (Some 10) (Some 10) w)) as [text|].
  - destruct (check_termination (Some text)).
    + left. unfold bind. ctx. reflexivity.
    + right. unfold bind.
      match goal with
      | |- context [remember text ?r] => exists text, r
      end.
      ctx.
      destruct (Py.truthy _); ctx; reflexivity.
  - left. ctx. reflexivity.
Qed.

(** The inline query appends its exchange, and nothing is appended when
    there is no query. *)
Lemma inline_query_context query w :
  context (exec (inline_query env query) w) = context w
  \/ exists text response,
       query = Some text
       /\ context (exec (inline_query env query) w)
          = pushed (context w) text response.
Proof.
  unfold exec, inline_query, send_response.
  destruct query as [q|]; [|now left].
  destruct (Py.truthy (Some q) && (0 <? String.length (Py.strip q)));
    [|now left].
  right. unfold bind.
  match goal with
  | |- context [remember q ?r] => exists q, r
  end.
  split; [reflexivity|]. ctx. reflexivity.
Qed.

Lemma keeps_window_step {A} (m : M A) :
  (forall w, context (snd (m w)) = context w
             \/ exists text response,
                  context (snd (m w)) = pushed (context w) text response) ->
  keeps_window m.
Proof.
  intros Hm w H. destruct (Hm w) as [E|(t & r & E)]; rewrite E;
    [exact H | now apply pushed_length].
Qed.

Lemma conversation_turn_window : keeps_window (conversation_turn env).
Proof. apply keeps_window_step, conversation_turn_context. Qed.

Lemma inline_query_window query : keeps_window (inline_query env query).
Proof.
  apply keeps_window_step. intros w.
  destruct (inline_query_context query w) as [E|(t & r & _ & E)];
    [now left | right; now exists t, r].
Qed.

Lemma conversation_loop_window fuel : keeps_window (conversation_loop env fuel).
Proof.
  induction fuel as [|n IH]; cbn [conversation_loop].
  - intros w H. exact H.
  - apply keeps_window_bind; [intros w H; exact H|].
    intros active. destruct (negb active); [apply keeps_window_ret|].
    apply keeps_window_bind; [apply conversation_turn_window | auto].
Qed.

Lemma conversation_mode_window fuel : keeps_window (conversation_mode env fuel).
Proof.
  unfold conversation_mode.
  apply keeps_window_bind; [intros w H; exact H|]. intros _.
  apply keeps_window_bind;
    [apply keeps_window_same; intros w; apply speak_context|]. intros _.
  apply conversation_loop_window.
Qed.

Lemma passive_iteration_window fuel : keeps_window (passive_iteration env fuel).
Proof.
  unfold passive_iteration, send_ready.
  apply keeps_window_bind;
    [apply keeps_window_same; intros w; apply check_reminders_context|].
  intros _.
  apply keeps_window_bind;
    [apply keeps_window_same; intros w; apply check_battery_context|].
  intros warning.
  apply keeps_window_bind.
  { destruct warning as [text|]; [|apply keeps_window_ret].
    destruct (Py.truthy (Some text)); [|apply keeps_window_ret].
    apply keeps_window_same; intros w; apply speak_context. }
  intros _.
  apply keeps_window_bind;
    [apply keeps_window_same; intros w; apply listen_context|].
  intros [text|]; [|apply keeps_window_ret].
  destruct (fst (check_wake_word (Some text))); [|apply keeps_window_ret].
  apply keeps_window_bind;
    [apply keeps_window_same; intros w; apply send_context|].
  intros _.
  apply keeps_window_bind; [apply inline_query_window|]. intros _.
  apply keeps_window_bind; [apply conversation_mode_window|]. intros _.
  apply keeps_window_ret.
Qed.

Lemma passive_listening_window iterations fuel :
  keeps_window (passive_listening env iterations fuel).
Proof.
  induction iterations as [|n IH]; cbn [passive_listening].
  - apply keeps_window_same; intros w; apply speak_context.
  - apply keeps_window_bind; [exact IH|]. intros _.
    apply passive_iteration_window.
Qed.

End Loops.

(** C4.  Started with at most five entries, the context never holds more:
    after any number of appends it is made of the last five entries of what
    it held followed by what was appended, so the entries leave oldest
    first; a conversation turn and the inline query of the passive loop
    change the context by one such append or not at all; and the context
    stays within five entries through any run of the passive loop and the
    conversations it starts. *)
Theorem context_window_bounded_fifo
    (env : Env) (w : World) (exchanges : list (string * string)) :
  length (context w) <= 5 ->
  (let w' := exec (for_each exchanges (fun x => remember (fst x) (snd x))) w in
   length (context w') <= 5
   /\ context w' = last_n 5 (context w ++ map exchange_entry exchanges))
  /\ (context (exec (conversation_turn env) w) = context w
      \/ exists text response,
           context (exec (conversation_turn env) w)
           = last_n 5 (context w ++ [exchange_entry (text, response)]))
  /\ (forall query,
        context (exec (inline_query env query) w) = context w
        \/ exists text response,
             query = Some text
             /\ context (exec (inline_query env query) w)
                = last_n 5 (context w ++ [exchange_entry (text, response)]))
  /\ (forall iterations fuel,
        length (context (exec (passive_listening env iterations fuel) w)) <= 5).
Proof.
  intros H. split; [|split; [|split]].
  - cbv zeta. rewrite remember_many by exact H.
    split; [apply last_n_length | reflexivity].
  - destruct (conversation_turn_context env w) as [E|(t & r & E)];
      [now left | right].
    exists t, r. rewrite E. now apply pushed_last_n.
  - intros query.
    destruct (inline_query_context env query w) as [E|(t & r & Hq & E)];
      [now left | right].
    exists t, r. split; [exact Hq|]. rewrite E. now apply pushed_last_n.
  - intros iterations fuel. now apply passive_listening_window.
Qed.

Lemma context_window_bounded_fifo_witness :
  let exchanges :=
    [("one", "1"); ("two", "2"); ("three", "3"); ("four", "4");
     ("five", "5"); ("six", "6"); ("seven", "7")] in
  let w' := exec (for_each exchanges (fun x => remember (fst x) (snd x)))
                 Demo.world in
  length (context Demo.world) <= 5
  /\ length (context w') <= 5
  /\ context w'
     = ["User: three | May: 3"; "User: four | May: 4"; "User: five | May: 5";
        "User: six | May: 6"; "User: seven | May: 7"].
Proof.
  cbv zeta.
  assert (H : length (context Demo.world) <= 5) by (cbn; lia).
  split; [exact H|].
  pose proof (context_window_bounded_fifo Demo.env Demo.world
                [("one", "1"); ("two", "2"); ("three", "3"); ("four", "4");
                 ("five", "5"); ("six", "6"); ("seven", "7")] H)
    as ((Hlen & Hfifo) & _).
  split; [exact Hlen | exact Hfifo].
Defined.

(* ================================================================== *)
(** ** The inline query of the passive loop *)
(* ================================================================== *)

Section Inline.

Variable env : Env.

Lemma process_with_claude_time_runs (query : string) emotions w :
  Py.any (fun keyword => Py.contains keyword (Py.lower query)) time_keywords = true ->
  runs (process_with_claude env query emotions) w (fun reply evs w' =>
    evs = [] /\ time_reply_form reply /\ session w' = session w).
Proof.
  intros H. exists []. rewrite (process_with_claude_time env query emotions w H).
  cbn [fst snd]. rewrite app_nil_r.
  repeat split. apply strftime_reply_form.
Qed.

(** An inline query with a time keyword. *)
Lemma inline_time_query_runs (q : string) w :
  Py.truthy (Some q) && (0 <? String.length (Py.strip q)) = true ->
  Py.any (fun keyword => Py.contains keyword (Py.lower q)) time_keywords = true ->
  runs (inline_query env (Some q)) w (fun _ evs w' =>
    exists reply,
      time_reply_form reply
      /\ said evs = [reply]
      /\ model_calls evs = []
      /\ hume_calls evs = (if key_unusable (hume_api_key w) then [] else [q])
      /\ context w' = pushed (context w) q reply).
Proof.
  intros Hq Ht. unfold inline_query, send_response. rewrite Hq.
  run_by detect_emotions_fast_runs.
  intros emotions e1 w1 (Hs1 & Hm1 & Hh1 & S1).
  run_by (process_with_claude_time_runs q (Some emotions) w1 Ht).
  intros reply e2 w2 (-> & Hform & S2).
  run_by if_esp32_send_runs. intros [] e3 w3 (C3 & S3 & _).
  destruct (display_quiet _ C3) as (Hs3 & Hh3 & Hm3).
  run_by speak_said. intros [] e4 w4 (Hs4 & Hh4 & Hm4 & S4).
  eapply runs_conseq; [apply remember_runs|].
  intros [] e5 w5 (-> & Hctx). cbv beta.
  exists reply. split; [exact Hform|].
  rewrite !said_app, !model_calls_app, !hume_calls_app.
  rewrite Hs1, Hm1, Hh1, Hs3, Hh3, Hm3, Hs4, Hh4, Hm4. cbn [said model_calls hume_calls app].
  rewrite !app_nil_r.
  repeat split; auto.
  rewrite Hctx.
  session_of S1. session_of S2. session_of S3. session_of S4.
  congruence.
Qed.

End Inline.

(** C2, as amended.  "may what time is it" wakes the assistant with the
    inline query "what time is it".  [process_with_claude] answers that
    query from the clock alone, with a reply of the form "It's HH:MM AM." or
    "It's HH:MM PM." and without any event.  On the inline path the
    language model is never called, the reply is spoken once and stored in
    the context; the emotion detection has run on the query before, and it
    has called the emotion service once unless no usable key is
    configured. *)
Theorem time_query_answered_from_clock (env : Env) (w : World) :
  let wake := check_wake_word (Some "may what time is it") in
  let w' := exec (inline_query env (snd wake)) w in
  let evs := events_since w w' in
  wake = (true, Some "what time is it")
  /\ (forall emotions w0,
        time_reply_form (eval (process_with_claude env "what time is it" emotions) w0)
        /\ events_since w0 (exec (process_with_claude env "what time is it" emotions) w0)
           = [])
  /\ exists reply,
       time_reply_form reply
       /\ said evs = [reply]
       /\ model_calls evs = []
       /\ hume_calls evs
          = (if key_unusable (hume_api_key w) then [] else ["what time is it"])
       /\ context w' = pushed (context w) "what time is it" reply.
Proof.
  cbv zeta. split; [reflexivity|]. split.
  - intros emotions w0.
    destruct (process_with_claude_time_runs env "what time is it" emotions w0 eq_refl)
      as (evs & E & -> & Hform & _).
    split; [exact Hform|].
    apply (events_since_runs _ _ _ E).
  - change (snd (check_wake_word (Some "may what time is it")))
      with (Some "what time is it").
    destruct (inline_time_query_runs env "what time is it" w eq_refl eq_refl)
      as (evs & E & reply & H).
    exists reply. rewrite (events_since_runs _ _ _ E). exact H.
Qed.

(** With an emotion key configured the emotion service is called for the
    time query, before the pipeline looks at it. *)
Lemma time_query_calls_emotion_service :
  let wake := check_wake_word (Some "may what time is it") in
  let w' := exec (inline_query Demo.env (snd wake)) Demo.world in
  wake = (true, Some "what time is it")
  /\ hume_calls (events_since Demo.world w') = ["what time is it"]
  /\ hume_calls (events_since Demo.world w') <> [].
Proof.
  cbv zeta. split; [reflexivity|]. split; [reflexivity|].
  vm_compute. discriminate.
Qed.

(** The claim as worded fails: the reconnection is not left to the next
    send.  Here the first send fails and its reconnection, attempted at
    once, fails too; the next send finds the link marked disconnected and
    does nothing. *)
Lemma next_send_does_not_reconnect :
  let w1 := exec (send Demo.env "READY" "") Demo.world in
  let w2 := exec (send Demo.env "INPUT" "hello") w1 in
  events_since Demo.world w1
  = [EvSendall ("READY|" ++ nl) false; EvConnect false]
  /\ esp32 w1 = Some (mkESP32 false)
  /\ connects (events_since w1 w2) = []
  /\ w2 = w1.
Proof.
  cbv zeta.
  split; [vm_compute; reflexivity|].
  split; [vm_compute; reflexivity|].
  split; vm_compute; reflexivity.
Qed.

(** C3, at the failing input.  The passive loop hears "may hello" with a
    model client configured.  The query "hello" is an entry of the casual
    table, and a conversation turn that hears "hello" answers with a canned
    reply without calling the model; the inline path of the passive loop
    calls the models instead and speaks and stores what the model said. *)
Theorem inline_query_skips_casual_shortcut :
  let w' := exec (passive_iteration (Demo.hearing "may hello") 0) Demo.world in
  let evs := events_since Demo.world w' in
  let turn := exec (conversation_turn (Demo.hearing "hello")) Demo.world in
  check_wake_word (Some "may hello") = (true, Some "hello")
  /\ casual_entry casual_responses "hello" = Some ["Hello!"; "Hi there!"; "Hey!"]
  /\ model_calls evs = models_to_try
  /\ In "Hello, I am here." (said evs)
  /\ context w' = ["User: hello | May: Hello, I am here."]
  /\ model_calls (events_since Demo.world turn) = []
  /\ context turn = ["User: hello | May: Hi there!"].
Proof.
  cbv zeta.
  split; [vm_compute; reflexivity|].
  split; [vm_compute; reflexivity|].
  split; [vm_compute; reflexivity|].
  split; [vm_compute; tauto|].
  split; [vm_compute; reflexivity|].
  split; vm_compute; reflexivity.
Qed.

(* ================================================================== *)
(** ** Substring tests, whatever the letter case *)
(* ================================================================== *)

Lemma lower_split (a b text : string) :
  Py.lower text = a ++ b ->
  exists x y, text = x ++ y /\ Py.lower x = a /\ Py.lower y = b.
Proof.
  revert text. induction a as [|c a IH]; intros text H.
  - exists "", text. auto.
  - destruct text as [|d text]; [discriminate|].
    cbn in H. injection H as Hc Ht.
    destruct (IH text Ht) as (x & y & -> & Hx & Hy).
    exists (String d x), y. cbn. rewrite Hx, Hc. auto.
Qed.

Lemma occurs_of_contains_lower (word text : string) :
  Py.contains word (Py.lower text) = true -> occurs_ci word text.
Proof.
  intros H. apply PyFacts.contains_split in H as (pre & suf & H).
  apply lower_split in H as (x & y & -> & _ & Hy).
  apply lower_split in Hy as (m & s & -> & Hm & _).
  now exists x, m, s.
Qed.

(** The test [word in text.lower()] is the occurrence of [word] in [text]
    with the letter case ignored. *)
Lemma contains_lower_iff (word text : string) :
  Py.contains word (Py.lower text) = true <-> occurs_ci word text.
Proof.
  split; [apply occurs_of_contains_lower | apply PyFacts.contains_lower_of_occurs].
Qed.

Lemma any_contains_iff (keywords : list string) (text : string) :
  Py.any (fun keyword => Py.contains keyword (Py.lower text)) keywords = true
  <-> mentions keywords text.
Proof.
  unfold Py.any, mentions. rewrite existsb_exists.
  split; intros (k & Hin & H); exists k; split; auto;
    now apply contains_lower_iff.
Qed.

Lemma any_contains_false (keywords : list string) (text : string) :
  ~ mentions keywords text ->
  Py.any (fun keyword => Py.contains keyword (Py.lower text)) keywords = false.
Proof.
  intros H.
  destruct (Py.any _ keywords) eqn:E; [|reflexivity].
  apply any_contains_iff in E. contradiction.
Qed.

(** X1.  [check_termination] answers true exactly for a text in which one
    of the termination phrases occurs, whatever the letter case and
    wherever in the text, also inside a longer word. *)
Theorem check_termination_iff (text : option string) :
  check_termination text = true
  <-> exists t, text = Some t /\ mentions TERMINATION_WORDS t.
Proof.
  unfold check_termination. destruct text as [t|].
  - destruct (negb (Py.truthy (Some t))) eqn:Et.
    + split; [discriminate|].
      intros (t' & E & k & Hin & Hocc). injection E as <-.
      destruct t; [|discriminate].
      destruct Hocc as (pre & mid & suf & E & Hm).
      destruct pre; [|discriminate]. destruct mid; [|discriminate].
      cbn in Hm. subst k. cbn in Hin.
      repeat (destruct Hin as [Hin|Hin]; [discriminate|]). contradiction.
    + cbv zeta. rewrite any_contains_iff.
      split; [intros H; now exists t | intros (t' & E & H); now injection E as <-].
  - split; [discriminate | intros (t & E & _); discriminate].
Qed.

(** X2.  [check_wake_word] reports detection exactly for a text in which
    "may" occurs, whatever the letter case and also inside a longer word. *)
Theorem wake_detection_iff (text : option string) :
  fst (check_wake_word text) = true
  <-> exists t, text = Some t /\ occurs_ci "may" t.
Proof.
  destruct text as [t|]; [|split; [discriminate | intros (t & E & _); discriminate]].
  split.
  - intros H. exists t. split; [reflexivity|].
    unfold check_wake_word in H.
    destruct (negb (Py.truthy (Some t))); [discriminate|].
    cbn [WAKE_WORDS wake_scan] in H.
    destruct (Py.contains "may" (Py.lower t)) eqn:E; [|discriminate].
    now apply occurs_of_contains_lower.
  - intros (t' & E & H). injection E as <-.
    unfold check_wake_word.
    rewrite (occurs_ci_nonempty "may" t H) by discriminate. cbn [negb].
    rewrite wake_scan_hit by now apply PyFacts.contains_lower_of_occurs.
    reflexivity.
Qed.

Lemma lower_char_idem (c : ascii) : Py.lower_char (Py.lower_char c) = Py.lower_char c.
Proof. destruct c as [[] [] [] [] [] [] [] []]; reflexivity. Qed.

Lemma lower_idem (s : string) : Py.lower (Py.lower s) = Py.lower s.
Proof. induction s; cbn; [reflexivity|]. now rewrite lower_char_idem, IHs. Qed.

Lemma replace_from_lower (old : string) (k : nat) (s : string) :
  Py.lower s = s ->
  Py.lower (Py.replace_from old "" k s) = Py.replace_from old "" k s.
Proof.
  revert k. induction s as [|c t IH]; intros k H; [reflexivity|].
  cbn in H. injection H as Hc Ht.
  cbn [Py.replace_from]. destruct k as [|k]; [|now apply IH].
  destruct (Py.startswith old (String c t)).
  - cbn [String.append]. now apply IH.
  - cbn. now rewrite Hc, IH.
Qed.

Lemma lstrip_lower (s : string) : Py.lower s = s -> Py.lower (Py.lstrip s) = Py.lstrip s.
Proof.
  induction s as [|c t IH]; intros H; [reflexivity|].
  cbn [Py.lstrip]. destruct (Py.is_space c); [|exact H].
  cbn in H. injection H as _ Ht. now apply IH.
Qed.

Lemma rstrip_lower (s : string) : Py.lower s = s -> Py.lower (Py.rstrip s) = Py.rstrip s.
Proof.
  induction s as [|c t IH]; intros H; [reflexivity|].
  cbn in H. injection H as Hc Ht.
  cbn [Py.rstrip]. cbv zeta.
  destruct (Py.is_space c && Py.is_empty (Py.rstrip t)); [reflexivity|].
  cbn. now rewrite Hc, IH.
Qed.

Lemma wake_remainder_lower (text : string) :
  Py.lower (wake_remainder text) = wake_remainder text.
Proof.
  unfold wake_remainder, Py.strip, Py.replace.
  apply rstrip_lower, lstrip_lower, replace_from_lower, lower_idem.
Qed.

Lemma wake_remainder_trimmed (text : string) : trimmed (wake_remainder text).
Proof.
  unfold wake_remainder, trimmed.
  destruct (PyFacts.strip_split (Py.replace "may" "" (Py.lower text)))
    as (l & r & _ & _ & _ & Hf & Hl).
  auto.
Qed.

(** X3.  A query returned by [check_wake_word] comes with a detection; it
    is what is left of the lower-cased text without the wake word, so it has
    no upper-case letter; it is not empty and has no white space at either
    end. *)
Theorem wake_query_shape (text : option string) (detected : bool) (query : string) :
  check_wake_word text = (detected, Some query) ->
  detected = true
  /\ query <> ""
  /\ trimmed query
  /\ Py.lower query = query
  /\ exists t, text = Some t /\ query = wake_remainder t.
Proof.
  intros H. destruct text as [t|]; [|discriminate].
  unfold check_wake_word in H.
  destruct (negb (Py.truthy (Some t))); [discriminate|].
  cbn [WAKE_WORDS wake_scan] in H.
  destruct (Py.contains "may" (Py.lower t)); [|discriminate].
  fold (wake_remainder t) in H.
  destruct (wake_remainder t) as [|c q] eqn:E; cbn in H; [discriminate|].
  injection H as <- <-.
  split; [reflexivity|]. split; [discriminate|].
  rewrite <- E.
  split; [apply wake_remainder_trimmed|].
  split; [apply wake_remainder_lower|].
  now exists t.
Qed.

Lemma wake_query_shape_witness :
  check_wake_word (Some "  Hey MAY,  Play Some Jazz  ")
  = (true, Some "hey ,  play some jazz")
  /\ trimmed "hey ,  play some jazz"
  /\ Py.lower "hey ,  play some jazz" = "hey ,  play some jazz".
Proof.
  pose proof (wake_query_shape (Some "  Hey MAY,  Play Some Jazz  ") true
                "hey ,  play some jazz" eq_refl) as (_ & _ & Ht & Hl & _).
  split; [reflexivity|]. split; [exact Ht | exact Hl].
Defined.

(* ================================================================== *)
(** ** Answers that need no model *)
(* ================================================================== *)

(** X4.  A query that mentions "time", "clock" or "hour" - in any letter
    case, inside a longer word, with or without a date keyword beside it -
    is answered from the clock: the reply has the form "It's HH:MM AM." or
    "It's HH:MM PM.", nothing is sent, said or requested, and only the
    interaction counter moves, whether or not a model client is
    configured. *)
Theorem time_keyword_answered_from_clock
    (env : Env) (query : string) (emotions : option EmotionResult) (w : World) :
  mentions time_keywords query ->
  process_with_claude env query emotions w
  = ("It's " ++ strftime_I_M_p (env_clock env (tick w)) ++ ".",
     set_tick (S (tick w)) w)
  /\ time_reply_form (eval (process_with_claude env query emotions) w).
Proof.
  intros H. apply any_contains_iff in H.
  unfold eval. rewrite (process_with_claude_time env query emotions w H).
  split; [reflexivity | apply strftime_reply_form].
Qed.

Lemma time_keyword_answered_from_clock_witness :
  mentions time_keywords "Sometimes I wonder what today brings"
  /\ eval (process_with_claude Demo.env "Sometimes I wonder what today brings"
                               None) Demo.world
     = "It's 12:16 AM.".
Proof.
  assert (H : mentions time_keywords "Sometimes I wonder what today brings").
  { exists "time". split; [left; reflexivity|].
    exists "Some", "time", "s I wonder what today brings". split; reflexivity. }
  split; [exact H|].
  pose proof (time_keyword_answered_from_clock Demo.env _ None Demo.world H)
    as (E & _).
  unfold eval. rewrite E. reflexivity.
Defined.

(** X5.  A query that mentions "date", "day is it" or "today" and none of
    the time keywords is answered with "Today is <date>.", the date being
    the clock's; again nothing is sent, said or requested. *)
Theorem date_keyword_answered_from_clock
    (env : Env) (query : string) (emotions : option EmotionResult) (w : World) :
  mentions date_keywords query ->
  ~ mentions time_keywords query ->
  process_with_claude env query emotions w
  = ("Today is " ++ env_strftime_date env (env_clock env (tick w)) ++ ".",
     set_tick (S (tick w)) w).
Proof.
  intros Hd Ht. apply any_contains_iff in Hd. apply any_contains_false in Ht.
  unfold process_with_claude. cbv zeta. rewrite Ht, Hd. reflexivity.
Qed.

Lemma not_mentions_by_test (keywords : list string) (text : string) :
  Py.any (fun keyword => Py.contains keyword (Py.lower text)) keywords = false ->
  ~ mentions keywords text.
Proof. intros H M. apply any_contains_iff in M. congruence. Qed.

Lemma date_keyword_answered_from_clock_witness :
  mentions date_keywords "What day is it?"
  /\ ~ mentions time_keywords "What day is it?"
  /\ eval (process_with_claude Demo.env "What day is it?" None) Demo.world
     = "Today is Monday, January 01.".
Proof.
  assert (Hd : mentions date_keywords "What day is it?").
  { exists "day is it". split; [right; left; reflexivity|].
    exists "What ", "day is it", "?". split; reflexivity. }
  assert (Ht : ~ mentions time_keywords "What day is it?")
    by (apply not_mentions_by_test; reflexivity).
  split; [exact Hd|]. split; [exact Ht|].
  unfold eval.
  rewrite (date_keyword_answered_from_clock Demo.env _ None Demo.world Hd Ht).
  reflexivity.
Defined.

(** X6.  Without a model client, a query with no time or date keyword is
    answered by one of the three replies of the emotion's bucket (the Calm
    bucket for a missing or unknown emotion); no model is called, nothing
    is added to the trace and the session is left as it was. *)
Theorem no_client_answers_from_bucket
    (env : Env) (query : string) (emotions : option EmotionResult) (w : World) :
  anthropic_client w = false ->
  ~ mentions time_keywords query ->
  ~ mentions date_keywords query ->
  let r := process_with_claude env query emotions w in
  In (fst r) (reply_bucket emotions)
  /\ length (reply_bucket emotions) = 3
  /\ trace (snd r) = trace w
  /\ session (snd r) = session w.
Proof.
  intros Hc Ht Hd. cbv zeta.
  apply any_contains_false in Ht. apply any_contains_false in Hd.
  assert (R : runs (process_with_claude env query emotions) w
                (fun r evs w' => evs = [] /\ In r (reply_bucket emotions)
                                 /\ session w' = session w)).
  { unfold process_with_claude. cbv zeta. rewrite Ht, Hd. run.
    rewrite Hc. cbn [negb].
    eapply runs_conseq; [apply get_emotion_aware_response_runs|].
    intros r e w' (-> & Hin & S1). auto. }
  destruct R as (evs & E & -> & Hin & S1).
  rewrite app_nil_r in E.
  split; [exact Hin|]. split; [apply reply_bucket_length|]. auto.
Qed.

Lemma no_client_answers_from_bucket_witness :
  let w := new_assistant None false false 0 in
  let sad := Some (mkResult "Sadness" (1 # 2) None) in
  anthropic_client w = false
  /\ In (eval (process_with_claude Demo.env "I lost my keys" sad) w)
        ["I'm here for you."; "Take your time, I'm listening.";
         "It's okay to feel this way."].
Proof.
  cbv zeta. split; [reflexivity|].
  apply (no_client_answers_from_bucket Demo.env "I lost my keys"
           (Some (mkResult "Sadness" (1 # 2) None))
           (new_assistant None false false 0) eq_refl).
  - apply not_mentions_by_test. reflexivity.
  - apply not_mentions_by_test. reflexivity.
Defined.

(* ================================================================== *)
(** ** The casual table *)
(* ================================================================== *)

Lemma casual_entry_some (table : list (string * list string)) (ql : string)
    (replies : list string) :
  casual_entry table ql = Some replies ->
  exists before key after,
    table = (before ++ (key, replies) :: after)%list
    /\ Py.contains key ql = true
    /\ forall k, In k (map fst before) -> Py.contains k ql = false.
Proof.
  induction table as [|[k rs] table IH]; cbn; intros H; [discriminate|].
  destruct (Py.contains k ql) eqn:E.
  - injection H as <-. exists [], k, table. repeat split; auto.
    intros k' [].
  - destruct (IH H) as (before & key & after & -> & Hk & Hb).
    exists ((k, rs) :: before), key, after. repeat split; auto.
    intros k' [<-|Hin]; auto.
Qed.

Lemma casual_entry_none (table : list (string * list string)) (ql : string) :
  casual_entry table ql = None ->
  forall k, In k (map fst table) -> Py.contains k ql = false.
Proof.
  induction table as [|[k rs] table IH]; cbn; intros H k' Hin; [contradiction|].
  destruct (Py.contains k ql) eqn:E; [discriminate|].
  destruct Hin as [<-|Hin]; auto.
Qed.

Lemma casual_replies_nonempty (key : string) (replies : list string) :
  In (key, replies) casual_responses ->
  replies <> [] /\ Forall (fun r => r <> "") replies.
Proof.
  unfold casual_responses. cbn [In].
  intros H.
  repeat (destruct H as [H|H];
          [injection H as <- <-; split; [discriminate|];
           repeat constructor; discriminate|]).
  contradiction.
Qed.

(** X7.  [get_casual_response] answers exactly when one of the keys of the
    casual table occurs in the query, whatever the letter case; the reply is
    one of the replies listed for the first such key in the order of the
    table, and it is not empty.  The method adds nothing to the trace. *)
Theorem casual_response_first_match (env : Env) (query : string) (w : World) :
  let r := get_casual_response env query w in
  trace (snd r) = trace w
  /\ session (snd r) = session w
  /\ match fst r with
     | Some reply =>
         reply <> ""
         /\ exists before key replies after,
              casual_responses = (before ++ (key, replies) :: after)%list
              /\ occurs_ci key query
              /\ ~ mentions (map fst before) query
              /\ In reply replies
     | None => ~ mentions (map fst casual_responses) query
     end.
Proof.
  cbv zeta. unfold get_casual_response, random_choice, bind, ask, ret.
  cbv zeta.
  destruct (casual_entry casual_responses (Py.lower query)) as [replies|] eqn:E;
    cbn [fst snd].
  - split; [reflexivity|]. split; [reflexivity|].
    destruct (casual_entry_some _ _ _ E) as (before & key & after & Ht & Hk & Hb).
    assert (Hin : In (key, replies) casual_responses)
      by (rewrite Ht; apply in_or_app; right; left; reflexivity).
    destruct (casual_replies_nonempty _ _ Hin) as (Hne & Hall).
    assert (Hr : In (nth (env_random env (tick w) mod length replies) replies "")
                    replies).
    { apply nth_In, Nat.mod_upper_bound. destruct replies; [contradiction|discriminate]. }
    split; [rewrite Forall_forall in Hall; now apply Hall|].
    exists before, key, replies, after.
    split; [exact Ht|]. split; [now apply occurs_of_contains_lower|].
    split; [|exact Hr].
    intros (k & Hkin & Hocc).
    apply PyFacts.contains_lower_of_occurs in Hocc.
    rewrite (Hb k Hkin) in Hocc. discriminate.
  - split; [reflexivity|]. split; [reflexivity|].
    intros (k & Hkin & Hocc).
    apply PyFacts.contains_lower_of_occurs in Hocc.
    rewrite (casual_entry_none _ _ E k Hkin) in Hocc. discriminate.
Qed.

(* ================================================================== *)
(** ** Conversation turns *)
(* ================================================================== *)

Section Turns.

Variable env : Env.

(** What [listen] returns, beside what it does. *)
Lemma listen_result_runs (timeout limit : option nat) w :
  runs (listen env timeout limit) w (fun r evs w' =>
    r = match env_listen env (tick w) with
        | Heard raw => Some (Py.strip raw)
        | _ => None
        end
    /\ said evs = [] /\ hume_calls evs = [] /\ model_calls evs = []
    /\ session w' = session w).
Proof.
  unfold listen, send_listening, send_input.
  run. run_case.
  - run_by if_esp32_send_runs. intros [] e1 w1 (C1 & S1 & _).
    run. run_by if_esp32_send_runs. intros [] e2 w2 (C2 & S2 & _).
    run.
    rewrite <- said_core, <- hume_calls_core, <- model_calls_core.
    rewrite !core_app, C1, C2. simpl. repeat split. now rewrite S2.
  - run_by if_esp32_send_runs. intros [] e1 w1 (C1 & S1 & _).
    run.
    rewrite <- said_core, <- hume_calls_core, <- model_calls_core.
    rewrite !core_app, C1. simpl. repeat split. exact S1.
  - run. repeat split.
Qed.

Lemma check_termination_of_mentions (text : string) :
  mentions TERMINATION_WORDS text -> check_termination (Some text) = true.
Proof.
  intros H. unfold check_termination.
  assert (T : Py.truthy (Some text) = true).
  { destruct H as (k & Hin & Hocc).
    apply (occurs_ci_nonempty k text Hocc).
    intros ->. cbn in Hin.
    repeat (destruct Hin as [Hin|Hin]; [discriminate|]). contradiction. }
  rewrite T. cbn [negb]. cbv zeta. now apply any_contains_iff.
Qed.

Lemma check_termination_without_mention (text : string) :
  ~ mentions TERMINATION_WORDS text -> check_termination (Some text) = false.
Proof.
  intros H. unfold check_termination.
  destruct (negb (Py.truthy (Some text))); [reflexivity|].
  cbv zeta. now apply any_contains_false.
Qed.

Lemma conversation_loop_left (fuel : nat) w :
  conversation_active w = false -> conversation_loop env fuel w = (true, w).
Proof.
  intros H. destruct fuel; cbn [conversation_loop]; unfold bind, gets, ret;
    cbn [fst snd]; rewrite H; reflexivity.
Qed.

(** X8.  When a conversation turn hears a termination phrase, the
    assistant says its farewell and nothing else, neither the emotion
    service nor a model is called, the context is left as it was, the
    conversation is marked inactive, and the loop is left at once, whatever
    else the utterance holds. *)
Theorem termination_phrase_ends_conversation (w : World) (raw : string) :
  env_listen env (tick w) = Heard raw ->
  mentions TERMINATION_WORDS (Py.strip raw) ->
  let w' := exec (conversation_turn env) w in
  let evs := events_since w w' in
  said evs = ["Goodbye! Say my name if you need me again."]
  /\ hume_calls evs = []
  /\ model_calls evs = []
  /\ context w' = context w
  /\ conversation_active w' = false
  /\ forall fuel, conversation_loop env fuel w' = (true, w').
Proof.
  intros Hl Ht. cbv zeta.
  assert (R : runs (conversation_turn env) w (fun _ evs w' =>
    said evs = ["Goodbye! Say my name if you need me again."]
    /\ hume_calls evs = [] /\ model_calls evs = []
    /\ context w' = context w /\ conversation_active w' = false)).
  { unfold conversation_turn, send_input, send_ready.
    run_by listen_result_runs. intros heard e1 w1 (Hr & Hs1 & Hh1 & Hm1 & S1).
    rewrite Hl in Hr. subst heard.
    run_by if_esp32_send_runs. intros [] e2 w2 (C2 & S2 & _).
    destruct (display_quiet _ C2) as (Hs2 & Hh2 & Hm2).
    rewrite (check_termination_of_mentions _ Ht).
    run_by speak_said. intros [] e3 w3 (Hs3 & Hh3 & Hm3 & S3).
    run.
    eapply runs_conseq; [apply if_esp32_send_runs|].
    intros [] e4 w4 (C4 & S4 & _). cbv beta.
    destruct (display_quiet _ C4) as (Hs4 & Hh4 & Hm4).
    rewrite !said_app, !hume_calls_app, !model_calls_app.
    rewrite Hs1, Hh1, Hm1, Hs2, Hh2, Hm2, Hs3, Hh3, Hm3, Hs4, Hh4, Hm4.
    cbn [app said hume_calls model_calls].
    session_of S1. session_of S2. session_of S3. session_of S4.
    cbn [context conversation_active set_conversation_active] in *.
    repeat split; congruence. }
  destruct R as (evs & E & Hs & Hh & Hm & Hc & Ha).
  rewrite (events_since_runs _ _ _ E).
  repeat split; auto.
  intros fuel. now apply conversation_loop_left.
Qed.

End Turns.

Lemma termination_phrase_ends_conversation_witness :
  let env := Demo.hearing " Thanks, see you LATER  " in
  let w' := exec (conversation_turn env) Demo.world in
  env_listen env (tick Demo.world) = Heard " Thanks, see you LATER  "
  /\ mentions TERMINATION_WORDS (Py.strip " Thanks, see you LATER  ")
  /\ said (events_since Demo.world w')
     = ["Goodbye! Say my name if you need me again."]
  /\ conversation_active w' = false.
Proof.
  cbv zeta.
  assert (Hm : mentions TERMINATION_WORDS (Py.strip " Thanks, see you LATER  ")).
  { exists "see you later". split; [cbn; tauto|].
    exists "Thanks, ", "see you LATER", "". split; reflexivity. }
  split; [reflexivity|]. split; [exact Hm|].
  pose proof (termination_phrase_ends_conversation
                (Demo.hearing " Thanks, see you LATER  ") Demo.world
                " Thanks, see you LATER  " eq_refl Hm)
    as (Hs & _ & _ & _ & Ha & _).
  split; [exact Hs | exact Ha].
Defined.

Section MoreTurns.

Variable env : Env.

Lemma silent_turn_runs w :
  (forall raw, env_listen env (tick w) <> Heard raw) ->
  runs (conversation_turn env) w (fun _ evs w' =>
    said evs = [still_here] /\ hume_calls evs = [] /\ model_calls evs = []
    /\ session w' = session w).
Proof.
  intros Hl. unfold conversation_turn.
  run_by listen_result_runs. intros heard e1 w1 (Hr & Hs1 & Hh1 & Hm1 & S1).
  assert (Hn : heard = None).
  { rewrite Hr. destruct (env_listen env (tick w)) as [raw| |]; auto.
    now elim (Hl raw). }
  clear Hr. subst heard.
  eapply runs_conseq; [apply speak_said|].
  intros [] e2 w2 (Hs2 & Hh2 & Hm2 & S2). cbv beta.
  rewrite !said_app, !hume_calls_app, !model_calls_app.
  rewrite Hs1, Hh1, Hm1, Hs2, Hh2, Hm2. repeat split. now rewrite S2.
Qed.

Lemma silent_loop_runs (fuel : nat) w :
  (forall t raw, env_listen env t <> Heard raw) ->
  conversation_active w = true ->
  runs (conversation_loop env fuel) w (fun r evs w' =>
    r = false
    /\ said evs = repeat still_here fuel
    /\ hume_calls evs = [] /\ model_calls evs = []
    /\ session w' = session w).
Proof.
  intros Hl. revert w. induction fuel as [|n IH]; intros w Ha;
    cbn [conversation_loop].
  - run. rewrite Ha. repeat split.
  - run. rewrite Ha. cbn [negb].
    apply runs_bind. eapply runs_conseq;
      [apply silent_turn_runs; intros raw; apply Hl | cbv beta].
    intros [] e1 w1 (Hs1 & Hh1 & Hm1 & S1).
    assert (Ha1 : conversation_active w1 = true)
      by (session_of S1; congruence).
    eapply runs_conseq; [apply (IH w1 Ha1)|].
    intros r e2 w2 (-> & Hs2 & Hh2 & Hm2 & S2). cbv beta.
    cbn [app]. rewrite !said_app, !hume_calls_app, !model_calls_app.
    rewrite Hs1, Hh1, Hm1, Hs2, Hh2, Hm2. repeat split. now rewrite S2.
Qed.

(** X9.  As long as nothing is heard, the conversation loop never ends by
    itself: after any number of turns it is still active, it has said its
    re-engagement prompt once per turn and nothing else, it has called
    neither the emotion service nor a model, and the session is as it
    was. *)
Theorem silence_never_ends_conversation (fuel : nat) (w : World) :
  (forall t raw, env_listen env t <> Heard raw) ->
  conversation_active w = true ->
  let r := conversation_loop env fuel w in
  let evs := events_since w (snd r) in
  fst r = false
  /\ conversation_active (snd r) = true
  /\ said evs = repeat still_here fuel
  /\ hume_calls evs = []
  /\ model_calls evs = []
  /\ session (snd r) = session w.
Proof.
  intros Hl Ha. cbv zeta.
  destruct (silent_loop_runs fuel w Hl Ha) as (evs & E & Hr & Hs & Hh & Hm & S1).
  change (snd (conversation_loop env fuel w))
    with (exec (conversation_loop env fuel) w).
  rewrite (events_since_runs _ _ _ E). unfold exec.
  repeat split; auto. session_of S1. congruence.
Qed.

(** The two statements that store an exchange change the context and
    nothing else. *)
Lemma remember_full_runs (text response : string) w :
  runs (remember text response) w (fun _ evs w' =>
    evs = [] /\ w' = set_context (pushed (context w) text response) w).
Proof.
  exists []. rewrite app_nil_r.
  unfold remember, pushed, bind, gets, modify, when, ret. cbv zeta.
  cbn [fst snd context set_context].
  destruct (5 <? _); cbn; repeat split; reflexivity.
Qed.

Lemma get_casual_response_hit_runs (query : string) (replies : list string) w :
  casual_entry casual_responses (Py.lower query) = Some replies ->
  runs (get_casual_response env query) w (fun r evs w' =>
    evs = [] /\ session w' = session w
    /\ exists reply, r = Some reply /\ In reply replies /\ reply <> "").
Proof.
  intros E. unfold get_casual_response, random_choice. cbv zeta. rewrite E.
  run. split; [reflexivity|]. split; [reflexivity|].
  destruct (casual_entry_some _ _ _ E) as (before & key & after & Ht & _ & _).
  assert (Hin : In (key, replies) casual_responses)
    by (rewrite Ht; apply in_or_app; right; left; reflexivity).
  destruct (casual_replies_nonempty _ _ Hin) as (Hne & Hall).
  eexists. split; [reflexivity|].
  assert (Hr : In (nth (env_random env (tick w) mod length replies) replies "")
                  replies).
  { apply nth_In, Nat.mod_upper_bound.
    destruct replies; [contradiction|discriminate]. }
  split; [exact Hr|]. rewrite Forall_forall in Hall. now apply Hall.
Qed.

(** X10.  In conversation mode an utterance that holds a key of the casual
    table and no termination phrase is answered by a canned reply of the
    first key that occurs: the reply is said once and stored with the
    utterance in the context, and no model is called even when a client is
    configured.  The emotion detection has run before all the same, so the
    emotion service is called once when a usable key is configured. *)
Theorem casual_turn_bypasses_model (w : World) (raw : string) (replies : list string) :
  env_listen env (tick w) = Heard raw ->
  ~ mentions TERMINATION_WORDS (Py.strip raw) ->
  casual_entry casual_responses (Py.lower (Py.strip raw)) = Some replies ->
  let w' := exec (conversation_turn env) w in
  let evs := events_since w w' in
  exists reply,
    In reply replies
    /\ said evs = [reply]
    /\ model_calls evs = []
    /\ hume_calls evs
       = (if key_unusable (hume_api_key w) then [] else [Py.strip raw])
    /\ context w' = pushed (context w) (Py.strip raw) reply
    /\ conversation_active w' = conversation_active w.
Proof.
  intros Hl Ht Hc. cbv zeta.
  assert (R : runs (conversation_turn env) w (fun _ evs w' =>
    exists reply,
      In reply replies
      /\ said evs = [reply] /\ model_calls evs = []
      /\ hume_calls evs
         = (if key_unusable (hume_api_key w) then [] else [Py.strip raw])
      /\ context w' = pushed (context w) (Py.strip raw) reply
      /\ conversation_active w' = conversation_active w)).
  { unfold conversation_turn, send_input, send_response.
    run_by listen_result_runs. intros heard e1 w1 (Hr & Hs1 & Hh1 & Hm1 & S1).
    rewrite Hl in Hr. subst heard.
    run_by if_esp32_send_runs. intros [] e2 w2 (C2 & S2 & _).
    destruct (display_quiet _ C2) as (Hs2 & Hh2 & Hm2).
    rewrite (check_termination_without_mention _ Ht).
    run_by detect_emotions_fast_runs.
    intros emotions e3 w3 (Hs3 & Hm3 & Hh3 & S3).
    run_by (get_casual_response_hit_runs (Py.strip raw) replies w3 Hc).
    intros casual e4 w4 (-> & S4 & reply & -> & Hin & Hne).
    assert (T : Py.truthy (Some reply) = true)
      by (destruct reply; [contradiction | reflexivity]).
    rewrite T. run.
    run_by if_esp32_send_runs. intros [] e5 w5 (C5 & S5 & _).
    destruct (display_quiet _ C5) as (Hs5 & Hh5 & Hm5).
    run_by speak_said. intros [] e6 w6 (Hs6 & Hh6 & Hm6 & S6).
    eapply runs_conseq; [apply remember_full_runs|].
    intros [] e7 w7 (-> & ->). cbv beta.
    exists reply. split; [exact Hin|].
    rewrite !said_app, !hume_calls_app, !model_calls_app.
    rewrite Hs1, Hh1, Hm1, Hs2, Hh2, Hm2, Hs3, Hh3, Hm3, Hs5, Hh5, Hm5,
      Hs6, Hh6, Hm6.
    cbn [app said hume_calls model_calls]. rewrite !app_nil_r.
    session_of S1. session_of S2. session_of S3. session_of S4.
    session_of S5. session_of S6.
    cbn [hume_api_key context conversation_active set_tick] in *.
    assert (K : hume_api_key w2 = hume_api_key w) by congruence.
    rewrite K.
    cbn [context conversation_active set_context].
    repeat split; try congruence. }
  destruct R as (evs & E & reply & H).
  exists reply. rewrite (events_since_runs _ _ _ E). exact H.
Qed.

End MoreTurns.

Lemma silence_never_ends_conversation_witness :
  let r := conversation_loop Scenes.silent 3 Scenes.talking in
  (forall t raw, env_listen Scenes.silent t <> Heard raw)
  /\ conversation_active Scenes.talking = true
  /\ fst r = false
  /\ said (events_since Scenes.talking (snd r))
     = [still_here; still_here; still_here].
Proof.
  cbv zeta.
  assert (Hl : forall t raw, env_listen Scenes.silent t <> Heard raw)
    by (intros t raw; discriminate).
  split; [exact Hl|]. split; [reflexivity|].
  pose proof (silence_never_ends_conversation Scenes.silent 3 Scenes.talking
                Hl eq_refl) as (Hr & _ & Hs & _).
  split; [exact Hr | exact Hs].
Defined.

Lemma casual_turn_bypasses_model_witness :
  let env := Demo.hearing "Oh HELLO, and thanks!" in
  let w' := exec (conversation_turn env) Scenes.talking in
  env_listen env (tick Scenes.talking) = Heard "Oh HELLO, and thanks!"
  /\ ~ mentions TERMINATION_WORDS (Py.strip "Oh HELLO, and thanks!")
  /\ casual_entry casual_responses (Py.lower (Py.strip "Oh HELLO, and thanks!"))
     = Some ["Hello!"; "Hi there!"; "Hey!"]
  /\ exists reply,
       In reply ["Hello!"; "Hi there!"; "Hey!"]
       /\ said (events_since Scenes.talking w') = [reply]
       /\ model_calls (events_since Scenes.talking w') = [].
Proof.
  cbv zeta.
  assert (Ht : ~ mentions TERMINATION_WORDS (Py.strip "Oh HELLO, and thanks!"))
    by (apply not_mentions_by_test; reflexivity).
  split; [reflexivity|]. split; [exact Ht|]. split; [reflexivity|].
  destruct (casual_turn_bypasses_model (Demo.hearing "Oh HELLO, and thanks!")
              Scenes.talking "Oh HELLO, and thanks!"
              ["Hello!"; "Hi there!"; "Hey!"] eq_refl Ht eq_refl)
    as (reply & Hin & Hs & Hm & _).
  exists reply. split; [exact Hin|]. split; [exact Hs | exact Hm].
Defined.

(* ================================================================== *)
(** ** The passive loop *)
(* ================================================================== *)

Lemma occurs_ci_strip (word s : string) :
  occurs_ci word (Py.strip s) -> occurs_ci word s.
Proof.
  intros (pre & mid & suf & E & Hm).
  destruct (PyFacts.strip_split s) as (l & r & Hs & _).
  exists (l ++ pre), mid, (suf ++ r). split; [|exact Hm].
  rewrite Hs at 1. rewrite E.
  now rewrite !PyFacts.app_assoc.
Qed.

Section Passive.

Variable env : Env.

Lemma announce_all_calls (due : list Reminder) w :
  runs (for_each due (fun reminder => speak env ("Reminder: " ++ r_text reminder))) w
    (fun _ evs w' =>
       said evs = map announcement due
       /\ hume_calls evs = [] /\ model_calls evs = []
       /\ session w' = session w).
Proof.
  revert w. induction due as [|r due IH]; intros w; cbn [for_each map].
  - apply runs_ret. repeat split; auto.
  - run_by speak_said. intros [] e1 w1 (Hs1 & Hh1 & Hm1 & S1).
    eapply runs_conseq; [apply IH|].
    intros [] e2 w2 (Hs2 & Hh2 & Hm2 & S2). cbv beta.
    rewrite said_app, hume_calls_app, model_calls_app.
    rewrite Hs1, Hh1, Hm1, Hs2, Hh2, Hm2.
    repeat split; auto. now rewrite S2.
Qed.

Lemma check_reminders_runs w :
  runs (check_reminders env) w (fun _ evs w' =>
    said evs = map announcement
                   (filter (is_due (env_clock env (tick w))) (reminders w))
    /\ hume_calls evs = [] /\ model_calls evs = []
    /\ context w' = context w
    /\ conversation_active w' = conversation_active w).
Proof.
  unfold check_reminders, datetime_now, save_config. run.
  cbn [reminders set_tick]. rewrite scan_due_filter. cbn [fst snd].
  destruct (filter (is_due (env_clock env (tick w))) (reminders w))
    as [|d due] eqn:Hdue.
  - run. repeat split.
  - run. eapply runs_conseq; [apply announce_all_calls|].
    intros [] evs w' (Hs & Hh & Hm & S1). cbv beta. session_of S1.
    cbn [app said hume_calls model_calls]. cbn in *.
    repeat split; auto.
Qed.

Lemma check_battery_runs w :
  runs (check_battery env) w (fun r evs w' =>
    said evs = [] /\ hume_calls evs = [] /\ model_calls evs = []
    /\ context w' = context w
    /\ conversation_active w' = conversation_active w
    /\ match r with
       | Some warning => is_battery_warning env warning
       | None => True
       end).
Proof.
  unfold check_battery, datetime_now, is_battery_warning.
  run. run_case; run; [repeat split|].
  run_case; run; [|repeat split ..].
  run_case; run.
  - repeat split. now eexists.
  - apply runs_bind, runs_when; intros _; run; repeat split.
Qed.

(** X11.  An utterance without the wake word is dropped: when nothing the
    microphone delivers holds "may", a pass of the passive loop starts no
    conversation, leaves the context as it was, calls neither the emotion
    service nor a model, and says nothing beyond the reminders that are due
    and at most one battery warning. *)
Theorem utterance_without_wake_word_dropped (fuel : nat) (w : World) :
  (forall t raw, env_listen env t = Heard raw -> ~ occurs_ci "may" raw) ->
  let w' := exec (passive_iteration env fuel) w in
  let evs := events_since w w' in
  context w' = context w
  /\ conversation_active w' = conversation_active w
  /\ hume_calls evs = []
  /\ model_calls evs = []
  /\ exists warnings,
       said evs
       = (map announcement
              (filter (is_due (env_clock env (tick w))) (reminders w))
          ++ warnings)%list
       /\ length warnings <= 1
       /\ Forall (is_battery_warning env) warnings.
Proof.
  intros Hl. cbv zeta.
  assert (R : runs (passive_iteration env fuel) w (fun _ evs w' =>
    context w' = context w
    /\ conversation_active w' = conversation_active w
    /\ hume_calls evs = [] /\ model_calls evs = []
    /\ exists warnings,
         said evs
         = (map announcement
                (filter (is_due (env_clock env (tick w))) (reminders w))
            ++ warnings)%list
         /\ length warnings <= 1
         /\ Forall (is_battery_warning env) warnings)).
  { unfold passive_iteration.
    run_by check_reminders_runs. intros [] e1 w1 (Hs1 & Hh1 & Hm1 & C1 & A1).
    run_by check_battery_runs. intros warning e2 w2 (Hs2 & Hh2 & Hm2 & C2 & A2 & Hw).
    apply runs_bind.
    assert (B : runs (match warning with
                      | Some text => when (Py.truthy warning) (speak env text)
                      | None => ret tt
                      end) w2
                  (fun _ evs w' =>
                     hume_calls evs = [] /\ model_calls evs = []
                     /\ context w' = context w2
                     /\ conversation_active w' = conversation_active w2
                     /\ length (said evs) <= 1
                     /\ Forall (is_battery_warning env) (said evs))).
    { destruct warning as [text|]; [|apply runs_ret; repeat split; auto].
      apply runs_when; intros _; [|repeat split; auto].
      eapply runs_conseq; [apply speak_said|].
      intros [] e w' (Hs & Hh & Hm & S1). cbv beta. session_of S1.
      rewrite Hs. repeat split; auto. }
    eapply runs_conseq; [exact B|].
    intros [] e3 w3 (Hh3 & Hm3 & C3 & A3 & Hlen & Hall). cbv beta.
    run_by listen_result_runs. intros heard e4 w4 (Hr & Hs4 & Hh4 & Hm4 & S4).
    session_of S4.
    assert (Hdrop : runs (match heard with
                          | Some text =>
                              let wake := check_wake_word (Some text) in
                              if fst wake
                              then if_esp32 (send_ready env);;
                                   inline_query env (snd wake);;
                                   _ <- conversation_mode env fuel;; ret tt
                              else ret tt
                          | None => ret tt
                          end) w4 (fun _ evs w' => evs = [] /\ w' = w4)).
    { destruct heard as [text|]; [|apply runs_ret; auto].
      destruct (env_listen env (tick w3)) as [raw| |] eqn:El; try discriminate.
      injection Hr as ->.
      cbv zeta. rewrite wake_word_missing; [apply runs_ret; auto|].
      intros Hocc. apply (Hl _ _ El). now apply occurs_ci_strip. }
    eapply runs_conseq; [exact Hdrop|].
    intros [] e5 w5 (-> & ->). cbv beta.
    rewrite !said_app, !hume_calls_app, !model_calls_app.
    rewrite Hs1, Hh1, Hm1, Hs2, Hh2, Hm2, Hh3, Hm3, Hs4, Hh4, Hm4.
    cbn [app]. rewrite !app_nil_r.
    repeat split; try congruence.
    exists (said e3). auto. }
  destruct R as (evs & E & H).
  rewrite (events_since_runs _ _ _ E). exact H.
Qed.

End Passive.

Lemma utterance_without_wake_word_dropped_witness :
  let env := Demo.hearing "what a lovely morning" in
  let w' := exec (passive_iteration env 5) Demo.world in
  (forall t raw, env_listen env t = Heard raw -> ~ occurs_ci "may" raw)
  /\ context w' = context Demo.world
  /\ conversation_active w' = false
  /\ said (events_since Demo.world w')
     = ["Reminder: call mum"; "Battery at 15%. Please charge soon."].
Proof.
  cbv zeta.
  assert (Hl : forall t raw,
             env_listen (Demo.hearing "what a lovely morning") t = Heard raw ->
             ~ occurs_ci "may" raw).
  { intros t raw E. injection E as <-. intros H.
    apply PyFacts.contains_lower_of_occurs in H. discriminate. }
  split; [exact Hl|].
  pose proof (utterance_without_wake_word_dropped
                (Demo.hearing "what a lovely morning") 5 Demo.world Hl)
    as (Hc & Ha & _).
  split; [exact Hc|]. split; [exact Ha|]. vm_compute. reflexivity.
Defined.

(* ================================================================== *)
(** ** Properties kept by everything the assistant does *)
(* ================================================================== *)

Section Upholding.

Variable env : Env.

(** A property [I] of the display link and a property [P] of stretches of
    the trace that every send respects. *)
Variable I : World -> Prop.
Variable P : list Event -> Prop.

Hypothesis I_link : forall w w', esp32 w' = esp32 w -> I w -> I w'.
Hypothesis P_nil : P [].
Hypothesis P_app : forall a b, P a -> P b -> P (a ++ b).
Hypothesis P_core : forall e, is_display e = false -> P [e].
Hypothesis send_upholds :
  forall message_type text, upholds I P (send env message_type text).

Lemma upholds_ret {A} (a : A) : upholds I P (ret a).
Proof. intros w H. apply runs_ret. auto. Qed.

Lemma upholds_bind {A B} (m : M A) (k : A -> M B) :
  upholds I P m -> (forall a, upholds I P (k a)) -> upholds I P (bind m k).
Proof.
  intros Hm Hk w H. apply runs_bind.
  eapply runs_conseq; [apply Hm, H|].
  intros a e1 w1 (P1 & I1). cbv beta.
  eapply runs_conseq; [apply Hk, I1|].
  intros b e2 w2 (P2 & I2). cbv beta. auto.
Qed.

Lemma upholds_gets {A} (f : World -> A) : upholds I P (gets f).
Proof. intros w H. apply runs_gets. auto. Qed.

Lemma upholds_modify (f : World -> World) :
  (forall w, esp32 (f w) = esp32 w /\ trace (f w) = trace w) ->
  upholds I P (modify f).
Proof.
  intros Hf w H. destruct (Hf w) as (He & Ht).
  apply runs_modify; [exact Ht|]. split; [exact P_nil|].
  now apply (I_link w).
Qed.

Lemma upholds_ask {A} (q : Env -> nat -> A) : upholds I P (ask env q).
Proof.
  intros w H. apply runs_ask. split; [exact P_nil|].
  now apply (I_link w).
Qed.

Lemma upholds_emit (e : Event) : is_display e = false -> upholds I P (emit e).
Proof.
  intros He w H. apply runs_emit. split; [now apply P_core|].
  now apply (I_link w).
Qed.

Lemma upholds_when (b : bool) (m : M unit) :
  upholds I P m -> upholds I P (when b m).
Proof. intros Hm. destruct b; [exact Hm | apply upholds_ret]. Qed.

Lemma upholds_if_esp32 (m : M unit) : upholds I P m -> upholds I P (if_esp32 m).
Proof.
  intros Hm. unfold if_esp32. apply upholds_bind; [apply upholds_gets|].
  intros [c|]; [exact Hm | apply upholds_ret].
Qed.

Lemma upholds_for_each {A} (l : list A) (body : A -> M unit) :
  (forall x, upholds I P (body x)) -> upholds I P (for_each l body).
Proof.
  intros Hb. induction l as [|x l IH]; cbn [for_each].
  - apply upholds_ret.
  - apply upholds_bind; auto.
Qed.

Ltac uphold :=
  repeat first
    [ apply upholds_ret
    | apply upholds_gets
    | apply upholds_ask
    | apply upholds_emit; reflexivity
    | apply upholds_modify; intros ?; split; reflexivity
    | apply upholds_if_esp32
    | apply send_upholds
    | apply upholds_when
    | apply upholds_for_each; intros ?
    | apply upholds_bind; [|intros ?]
    | progress cbv zeta
    | match goal with
      | |- upholds _ _ (if ?b then _ else _) => destruct b
      | |- upholds _ _ (match ?x with _ => _ end) => destruct x
      end ].

Lemma speak_upholds text : upholds I P (speak env text).
Proof. unfold speak, send_speaking, send_ready. uphold. Qed.

Lemma listen_upholds timeout limit : upholds I P (listen env timeout limit).
Proof. unfold listen, send_listening, send_input. uphold. Qed.

Lemma check_reminders_upholds : upholds I P (check_reminders env).
Proof.
  unfold check_reminders, datetime_now, save_config. uphold.
  all: apply speak_upholds.
Qed.

Lemma check_battery_upholds : upholds I P (check_battery env).
Proof. unfold check_battery, datetime_now. uphold. Qed.

Lemma detect_emotions_fast_upholds text :
  upholds I P (detect_emotions_fast env text).
Proof. unfold detect_emotions_fast. uphold. Qed.

Lemma get_casual_response_upholds query :
  upholds I P (get_casual_response env query).
Proof. unfold get_casual_response, random_choice. uphold. Qed.

Lemma get_emotion_aware_response_upholds query emotions :
  upholds I P (get_emotion_aware_response env query emotions).
Proof. unfold get_emotion_aware_response, random_choice. uphold. Qed.

Lemma try_models_upholds models prompt query emotions :
  upholds I P (try_models env models prompt query emotions).
Proof.
  induction models as [|model rest IH]; cbn [try_models].
  - apply get_emotion_aware_response_upholds.
  - uphold; auto using get_emotion_aware_response_upholds.
Qed.

Lemma process_with_claude_upholds query emotions :
  upholds I P (process_with_claude env query emotions).
Proof.
  unfold process_with_claude, datetime_now.
  repeat match goal with
         | |- upholds _ _ (if ?b then _ else _) => destruct b
         end.
  - uphold.
  - uphold.
  - apply upholds_bind; [apply upholds_gets|]. intros client.
    destruct (negb client); [apply get_emotion_aware_response_upholds|].
    apply upholds_bind; [apply upholds_gets|]. intros ctx.
    apply try_models_upholds.
Qed.

Lemma remember_upholds text response : upholds I P (remember text response).
Proof. unfold remember. uphold. Qed.

Lemma conversation_turn_upholds : upholds I P (conversation_turn env).
Proof.
  unfold conversation_turn, send_input, send_ready, send_response.
  apply upholds_bind; [apply listen_upholds|]. intros [text|];
    [|apply speak_upholds].
  apply upholds_bind; [uphold|]. intros _.
  destruct (check_termination (Some text)).
  - apply upholds_bind; [apply speak_upholds|]. intros _. uphold.
  - apply upholds_bind; [apply detect_emotions_fast_upholds|]. intros emotions.
    apply upholds_bind; [apply get_casual_response_upholds|]. intros casual.
    apply upholds_bind.
    { destruct (Py.truthy casual);
        [apply upholds_ret | apply process_with_claude_upholds]. }
    intros response.
    apply upholds_bind; [uphold|]. intros _.
    apply upholds_bind; [apply speak_upholds|]. intros _.
    apply remember_upholds.
Qed.

Lemma conversation_loop_upholds fuel : upholds I P (conversation_loop env fuel).
Proof.
  induction fuel as [|n IH]; cbn [conversation_loop].
  - apply upholds_gets.
  - apply upholds_bind; [apply upholds_gets|]. intros active.
    destruct (negb active); [apply upholds_ret|].
    apply upholds_bind; [apply conversation_turn_upholds | auto].
Qed.

Lemma conversation_mode_upholds fuel : upholds I P (conversation_mode env fuel).
Proof.
  unfold conversation_mode.
  apply upholds_bind; [uphold|]. intros _.
  apply upholds_bind; [apply speak_upholds|]. intros _.
  apply conversation_loop_upholds.
Qed.

Lemma inline_query_upholds query : upholds I P (inline_query env query).
Proof.
  unfold inline_query, send_response.
  destruct query as [q|]; [|apply upholds_ret].
  destruct (Py.truthy (Some q) && (0 <? String.length (Py.strip q)));
    [|apply upholds_ret].
  apply upholds_bind; [apply detect_emotions_fast_upholds|]. intros emotions.
  apply upholds_bind; [apply process_with_claude_upholds|]. intros response.
  apply upholds_bind; [uphold|]. intros _.
  apply upholds_bind; [apply speak_upholds|]. intros _.
  apply remember_upholds.
Qed.

Lemma passive_iteration_upholds fuel : upholds I P (passive_iteration env fuel).
Proof.
  unfold passive_iteration, send_ready.
  apply upholds_bind; [apply check_reminders_upholds|]. intros _.
  apply upholds_bind; [apply check_battery_upholds|]. intros warning.
  apply upholds_bind.
  { destruct warning as [text|]; [|apply upholds_ret].
    apply upholds_when, speak_upholds. }
  intros _.
  apply upholds_bind; [apply listen_upholds|]. intros [text|];
    [|apply upholds_ret].
  cbv zeta. destruct (fst (check_wake_word (Some text))); [|apply upholds_ret].
  apply upholds_bind; [uphold|]. intros _.
  apply upholds_bind; [apply inline_query_upholds|]. intros _.
  apply upholds_bind; [apply conversation_mode_upholds|]. intros _.
  apply upholds_ret.
Qed.

Lemma passive_listening_upholds iterations fuel :
  upholds I P (passive_listening env iterations fuel).
Proof.
  induction iterations as [|n IH]; cbn [passive_listening].
  - apply speak_upholds.
  - apply upholds_bind; [exact IH|]. intros _. apply passive_iteration_upholds.
Qed.

End Upholding.

(* ================================================================== *)
(** ** A display that is down; entering conversation mode *)
(* ================================================================== *)

Lemma send_when_link_down (env : Env) (message_type text : string) :
  upholds link_down (fun evs => display_traffic evs = [])
          (send env message_type text).
Proof.
  intros w H. unfold send, is_connected. run.
  assert (E : negb match esp32 w with Some c => connected c | None => false end
              = true).
  { unfold link_down in H. destruct (esp32 w) as [c|]; [|reflexivity].
    now rewrite H. }
  rewrite E. run. auto.
Qed.

(** X12.  A display link that is missing or marked disconnected stays so
    for good: through the start of the passive loop, any number of its
    passes and the conversations they start, nothing is transmitted to the
    display and no connection is attempted. *)
Theorem disconnected_display_never_reconnects
    (env : Env) (iterations fuel : nat) (w : World) :
  link_down w ->
  let w' := exec (passive_listening env iterations fuel) w in
  link_down w' /\ display_traffic (events_since w w') = [].
Proof.
  intros H. cbv zeta.
  assert (U : upholds link_down (fun evs => display_traffic evs = [])
                      (passive_listening env iterations fuel)).
  { apply passive_listening_upholds.
    - unfold link_down. intros w0 w1 E. now rewrite E.
    - reflexivity.
    - intros a b Ha Hb. unfold display_traffic in *.
      now rewrite filter_app, Ha, Hb.
    - intros e He. unfold display_traffic. cbn. now rewrite He.
    - apply send_when_link_down. }
  destruct (U w H) as (evs & E & Hp & Hi).
  rewrite (events_since_runs _ _ _ E). auto.
Qed.

Lemma disconnected_display_never_reconnects_witness :
  let w := new_assistant (Some "hume-key") true false 0 in
  let w' := exec (passive_listening Demo.env 2 2) w in
  link_down w
  /\ link_down w'
  /\ display_traffic (events_since w w') = [].
Proof.
  cbv zeta.
  assert (H : link_down (new_assistant (Some "hume-key") true false 0))
    by reflexivity.
  split; [exact H|].
  exact (disconnected_display_never_reconnects Demo.env 2 2 _ H).
Defined.

Section Entering.

Variable env : Env.

(** Everything the assistant does only adds to the trace. *)
Lemma send_grows (message_type text : string) :
  upholds (fun _ => True) (fun _ => True) (send env message_type text).
Proof.
  intros w _. eapply runs_conseq; [apply send_runs|]. cbv beta. auto.
Qed.

Let grows {A} (m : M A) : Prop := upholds (fun _ => True) (fun _ => True) m.

Lemma grows_runs {A} (m : M A) w :
  grows m -> runs m w (fun _ _ _ => True).
Proof.
  intros G. eapply runs_conseq; [apply (G w I)|]. cbv beta. auto.
Qed.

Lemma wake_detected_of_occurs (text : string) :
  occurs_ci "may" text ->
  fst (check_wake_word (Some text)) = true.
Proof.
  intros H. unfold check_wake_word.
  rewrite (occurs_ci_nonempty "may" text H) by discriminate. cbn [negb].
  rewrite wake_scan_hit by now apply PyFacts.contains_lower_of_occurs.
  reflexivity.
Qed.

Lemma listens_app (a b : list Event) :
  listens (a ++ b) = (listens a ++ listens b)%list.
Proof. induction a as [|[] a IH]; simpl; congruence. Qed.

Lemma listens_core (evs : list Event) : listens (core evs) = listens evs.
Proof.
  induction evs as [|e evs IH]; [reflexivity|].
  destruct e; simpl; congruence.
Qed.

(** Only [listen] uses the microphone. *)
Lemma speak_listens (text : string) w :
  runs (speak env text) w (fun _ evs _ => listens evs = []).
Proof.
  eapply runs_conseq; [apply speak_runs|].
  intros [] evs w' ([C|[ok C]] & _); rewrite <- listens_core, C; reflexivity.
Qed.

Lemma announce_all_listens (due : list Reminder) w :
  runs (for_each due (fun reminder => speak env ("Reminder: " ++ r_text reminder))) w
    (fun _ evs _ => listens evs = []).
Proof.
  revert w. induction due as [|r due IH]; intros w; cbn [for_each].
  - apply runs_ret. reflexivity.
  - run_by speak_listens. intros [] e1 w1 L1.
    eapply runs_conseq; [apply IH|].
    intros [] e2 w2 L2. cbv beta. now rewrite listens_app, L1, L2.
Qed.

Lemma check_reminders_listens w :
  runs (check_reminders env) w (fun _ evs _ => listens evs = []).
Proof.
  unfold check_reminders, datetime_now, save_config. run.
  cbn [reminders set_tick]. rewrite scan_due_filter. cbn [fst snd].
  destruct (filter (is_due (env_clock env (tick w))) (reminders w))
    as [|d due].
  - run. reflexivity.
  - run. eapply runs_conseq; [apply announce_all_listens|].
    intros [] evs w' L. cbv beta. rewrite !listens_app, L. reflexivity.
Qed.

Lemma check_battery_listens w :
  runs (check_battery env) w (fun _ evs _ => listens evs = []).
Proof.
  unfold check_battery, datetime_now.
  run. run_case; run; [reflexivity|].
  run_case; run; [|reflexivity ..].
  run_case; run.
  - reflexivity.
  - apply runs_bind, runs_when; intros _; run; reflexivity.
Qed.

Lemma listen_heard (timeout limit : option nat) w :
  runs (listen env timeout limit) w (fun r evs _ =>
    listens evs = [env_listen env (tick w)]
    /\ r = match env_listen env (tick w) with
           | Heard raw => Some (Py.strip raw)
           | _ => None
           end).
Proof.
  unfold listen, send_listening, send_input.
  run. run_case.
  - run_by if_esp32_send_runs. intros [] e1 w1 (C1 & _).
    run. run_by if_esp32_send_runs. intros [] e2 w2 (C2 & _).
    run. rewrite <- listens_core, !core_app, C1, C2. split; reflexivity.
  - run_by if_esp32_send_runs. intros [] e1 w1 (C1 & _).
    run. rewrite <- listens_core, !core_app, C1. split; reflexivity.
  - run. split; reflexivity.
Qed.

(** X13.  Whenever the utterance a pass of the passive loop hears - the
    first thing the microphone delivers in that pass, whatever it delivers
    later - holds the wake word, the pass enters conversation mode, with or
    without an inline query: the opening prompt is among what the pass
    says. *)
Theorem wake_word_opens_conversation (fuel : nat) (w : World) (raw : string) :
  let w' := exec (passive_iteration env fuel) w in
  let evs := events_since w w' in
  occurs_ci "may" (Py.strip raw) ->
  hd_error (listens evs) = Some (Heard raw) ->
  In opening_prompt (said evs).
Proof.
  cbv zeta. intros Hocc.
  assert (G : forall A (m : M A) w0,
             upholds (fun _ => True) (fun _ => True) m ->
             runs m w0 (fun _ _ _ => True)) by (intros; now apply grows_runs).
  assert (R : runs (passive_iteration env fuel) w
                (fun _ evs _ =>
                   hd_error (listens evs) = Some (Heard raw) ->
                   In opening_prompt (said evs))).
  { unfold passive_iteration.
    run_by check_reminders_listens. intros [] e1 w1 L1.
    run_by check_battery_listens. intros warning e2 w2 L2.
    apply runs_bind.
    assert (B : runs (match warning with
                      | Some text => when (Py.truthy warning) (speak env text)
                      | None => ret tt
                      end) w2 (fun _ evs _ => listens evs = [])).
    { destruct warning as [text|]; [|apply runs_ret; reflexivity].
      apply runs_when; intros _; [apply speak_listens | reflexivity]. }
    eapply runs_conseq; [exact B|].
    intros [] e3 w3 L3. cbv beta.
    run_by listen_heard. intros heard e4 w4 (L4 & Hr).
    assert (T : runs (match heard with
                      | Some text =>
                          let wake := check_wake_word (Some text) in
                          if fst wake
                          then if_esp32 (send_ready env);;
                               inline_query env (snd wake);;
                               _ <- conversation_mode env fuel;; ret tt
                          else ret tt
                      | None => ret tt
                      end) w4
                  (fun _ evs _ =>
                     env_listen env (tick w3) = Heard raw ->
                     In opening_prompt (said evs))).
    { destruct (env_listen env (tick w3)) as [raw0| |]; subst heard;
        [|apply runs_ret; discriminate ..].
      cbv zeta.
      destruct (fst (check_wake_word (Some (Py.strip raw0)))) eqn:W.
      - apply runs_bind. eapply runs_conseq.
        { apply G, upholds_if_esp32; auto. apply send_grows. }
        intros [] e5 w5 _. cbv beta.
        apply runs_bind. eapply runs_conseq.
        { apply G, inline_query_upholds; auto using send_grows. }
        intros [] e6 w6 _. cbv beta.
        apply runs_bind.
        assert (C : runs (conversation_mode env fuel) w6
                      (fun _ evs _ => In opening_prompt (said evs))).
        { unfold conversation_mode. run.
          run_by speak_said. intros [] e7 w7 (Hs7 & _).
          eapply runs_conseq.
          { apply G, conversation_loop_upholds; auto using send_grows. }
          intros r e8 w8 _. cbv beta. cbn [app].
          rewrite said_app, Hs7. left. reflexivity. }
        eapply runs_conseq; [exact C|].
        intros r e7 w7 Hin. cbv beta. run. intros _.
        rewrite !said_app. rewrite app_nil_r.
        repeat (apply in_or_app; right). exact Hin.
      - apply runs_ret. intros E. injection E as ->.
        rewrite (wake_detected_of_occurs _ Hocc) in W. discriminate. }
    eapply runs_conseq; [exact T|].
    intros [] e5 w5 H. cbv beta.
    rewrite !listens_app, L1, L2, L3, L4. cbn [app hd_error].
    intros E. injection E as E.
    rewrite !said_app. repeat (apply in_or_app; right). now apply H. }
  destruct R as (evs & E & H).
  now rewrite (events_since_runs _ _ _ E).
Qed.

End Entering.

Lemma wake_word_opens_conversation_witness :
  let w' := exec (passive_iteration Scenes.calling 1) Demo.world in
  let evs := events_since Demo.world w' in
  occurs_ci "may" (Py.strip "Hey May")
  /\ listens evs = [Heard "Hey May"; Heard "goodbye"]
  /\ In opening_prompt (said evs).
Proof.
  cbv zeta.
  assert (Ho : occurs_ci "may" (Py.strip "Hey May"))
    by (exists "Hey ", "May", ""; split; reflexivity).
  split; [exact Ho|]. split; [vm_compute; reflexivity|].
  apply (wake_word_opens_conversation Scenes.calling 1 Demo.world "Hey May" Ho).
  vm_compute. reflexivity.
Defined.

(* ================================================================== *)
(** ** More on reminders *)
(* ================================================================== *)

Lemma list_remove_checked_behind (x : Reminder) (kept rest : list Reminder) :
  ~ In x kept ->
  list_remove_checked x (kept ++ x :: rest) = Some (kept ++ rest)%list.
Proof.
  induction kept as [|y kept IH]; simpl; intros H.
  - assert (E : Reminder_eqb x x = true) by now apply Reminder_eqb_eq.
    now rewrite E.
  - destruct (Reminder_eqb y x) eqn:E.
    + apply Reminder_eqb_eq in E. subst. tauto.
    + rewrite IH by tauto. reflexivity.
Qed.

Lemma scan_due_checked_from (now : Z) (copy kept due : list Reminder) :
  Forall (fun r => is_due now r = false) kept ->
  scan_due_checked now copy due (kept ++ copy)
  = Some ((due ++ filter (is_due now) copy)%list,
          (kept ++ filter (fun r => negb (is_due now r)) copy)%list).
Proof.
  revert kept due.
  induction copy as [|r copy IH]; intros kept due Hk; simpl.
  - now rewrite !app_nil_r.
  - fold (is_due now r). destruct (is_due now r) eqn:Hr; simpl.
    + rewrite list_remove_checked_behind.
      * rewrite IH by exact Hk. now rewrite <- List.app_assoc.
      * intros Hin. rewrite Forall_forall in Hk. apply Hk in Hin. congruence.
    + change (kept ++ r :: copy)%list with (kept ++ [r] ++ copy)%list.
      rewrite List.app_assoc, IH.
      * now rewrite <- List.app_assoc.
      * apply Forall_app. split; [exact Hk | now constructor].
Qed.

(** X14.  The loop of [check_reminders] removes from the list it is
    scanning a copy of, and [list.remove] deletes the first equal element;
    all the same the removal never fails, whatever the list holds and also
    with equal reminders in it: the loop ends with the due reminders, in the
    order of the list, and leaves the others, in their order. *)
Theorem reminder_scan_never_fails (now : Z) (rs : list Reminder) :
  scan_due_checked now rs [] rs
  = Some (filter (is_due now) rs, filter (fun r => negb (is_due now r)) rs)
  /\ scan_due_checked now rs [] rs = Some (scan_due now rs [] rs).
Proof.
  pose proof (scan_due_checked_from now rs [] [] (Forall_nil _)) as H.
  cbn [app] in H. split; [exact H|].
  rewrite H, scan_due_filter. reflexivity.
Qed.

Lemma filter_none {A} (f : A -> bool) (l : list A) :
  (forall x, In x l -> f x = false) -> filter f l = [].
Proof.
  induction l as [|x l IH]; intros H; [reflexivity|].
  cbn. rewrite (H x) by (left; reflexivity). apply IH.
  intros y Hy. apply H. now right.
Qed.

(** X15.  A check that finds no reminder due neither writes the
    configuration nor says anything: it adds nothing to the trace and leaves
    the reminders, the stored configuration and the rest of the session as
    they were. *)
Theorem check_reminders_nothing_due (env : Env) (w : World) :
  (forall r, In r (reminders w) -> (env_clock env (tick w) < r_time r)%Z) ->
  let w' := exec (check_reminders env) w in
  events_since w w' = []
  /\ reminders w' = reminders w
  /\ config_file w' = config_file w
  /\ context w' = context w.
Proof.
  intros H. cbv zeta.
  assert (Hnone : filter (is_due (env_clock env (tick w))) (reminders w) = []).
  { apply filter_none. intros r Hin. unfold is_due.
    apply Z.leb_gt. now apply H. }
  assert (Hall : filter (fun r => negb (is_due (env_clock env (tick w)) r))
                        (reminders w) = reminders w).
  { apply forallb_filter_id. apply forallb_forall. intros r Hin. unfold is_due.
    apply negb_true_iff, Z.leb_gt. now apply H. }
  destruct (check_reminders_effect env w) as (Hleft & Hm).
  rewrite Hnone in Hm. destruct Hm as (Hev & Hcfg).
  rewrite Hleft, Hall. repeat split; auto.
  apply check_reminders_context.
Qed.

Lemma check_reminders_nothing_due_witness :
  let w := set_reminders [Demo.water_plants] Demo.world in
  (forall r, In r (reminders w) -> (env_clock Demo.env (tick w) < r_time r)%Z)
  /\ events_since w (exec (check_reminders Demo.env) w) = []
  /\ reminders (exec (check_reminders Demo.env) w) = [Demo.water_plants].
Proof.
  cbv zeta.
  assert (H : forall r,
             In r (reminders (set_reminders [Demo.water_plants] Demo.world)) ->
             (env_clock Demo.env (tick (set_reminders [Demo.water_plants] Demo.world))
              < r_time r)%Z).
  { intros r [<-|[]]. reflexivity. }
  split; [exact H|].
  pose proof (check_reminders_nothing_due Demo.env _ H) as (He & Hr & _).
  split; [exact He | exact Hr].
Defined.

Lemma representable_sum (now minutes : Z) :
  representable now minutes ->
  timedelta_minutes minutes = Some (60 * minutes)%Z
  /\ datetime_add now (60 * minutes) = Some (now + 60 * minutes)%Z.
Proof.
  intros (Hd & Hs). unfold timedelta_minutes, datetime_add. cbv zeta.
  assert (E1 : (Z.abs (60 * minutes / 86400) <=? 999999999)%Z = true)
    by (apply Z.leb_le; lia).
  assert (E2 : ((0 <=? now + 60 * minutes)
                && (now + 60 * minutes <? 3652059 * 86400))%Z = true).
  { apply andb_true_iff. split; [apply Z.leb_le | apply Z.ltb_lt]; lia. }
  rewrite E1, E2. auto.
Qed.

Lemma unrepresentable_sum (now minutes : Z) :
  ~ representable now minutes ->
  match timedelta_minutes minutes with
  | Some delta => datetime_add now delta = None
  | None => True
  end.
Proof.
  intros H. unfold timedelta_minutes, datetime_add. cbv zeta.
  destruct (Z.abs (60 * minutes / 86400) <=? 999999999)%Z eqn:E1; [|exact I].
  destruct ((0 <=? now + 60 * minutes)
            && (now + 60 * minutes <? 3652059 * 86400))%Z eqn:E2;
    [|reflexivity].
  exfalso. apply H. apply Z.leb_le in E1.
  apply andb_true_iff in E2 as (E2 & E3).
  apply Z.leb_le in E2. apply Z.ltb_lt in E3.
  split; lia.
Qed.

Lemma set_reminder_effect (env : Env) (text : string) (minutes : Z) (w : World) :
  representable (env_clock env (tick w)) minutes ->
  let r := mkReminder text (env_clock env (tick w) + 60 * minutes) in
  let w1 := exec (set_reminder env text minutes) w in
  let out := env_write env (S (tick w)) in
  reminders w1 = (reminders w ++ [r])%list
  /\ config_file w1 = stored_after out (reminders w ++ [r]) (config_file w)
  /\ events_since w w1 = [EvSaveConfig (reminders w ++ [r]) out]
  /\ eval (set_reminder env text minutes) w
     = "Reminder set for " ++ env_str_number env (inject_Z minutes)
       ++ " minutes from now.".
Proof.
  intros H. cbv zeta.
  destruct (representable_sum _ _ H) as (H1 & H2).
  unfold exec, eval, events_since, set_reminder, datetime_now, bind, ask.
  cbn [fst snd]. rewrite H1, H2.
  unfold save_config, emit, bind, gets, modify, ask, ret.
  cbn. rewrite skipn_app, skipn_all, Nat.sub_diag. auto.
Qed.

(** X16.  A reminder set for some minutes ahead, at an instant a date can
    hold, is appended to the list with the due time worked out from the
    clock; the write of the list to the configuration is attempted at once,
    and the file holds the list when the write succeeds.  A later check
    leaves the reminder in the list and does not announce it as long as the
    clock is before that time; the first check at or after that time
    announces it and removes it. *)
Theorem reminder_set_then_checked
    (env : Env) (text : string) (minutes : Z) (w w2 : World) :
  let now := env_clock env (tick w) in
  let r := mkReminder text (now + 60 * minutes) in
  let w1 := exec (set_reminder env text minutes) w in
  let out := env_write env (S (tick w)) in
  let w3 := exec (check_reminders env) w2 in
  representable now minutes ->
  reminders w2 = reminders w1 ->
  reminders w1 = (reminders w ++ [r])%list
  /\ events_since w w1 = [EvSaveConfig (reminders w1) out]
  /\ config_file w1 = stored_after out (reminders w1) (config_file w)
  /\ (out = Written -> config_file w1 = reminders w1)
  /\ eval (set_reminder env text minutes) w
     = "Reminder set for " ++ env_str_number env (inject_Z minutes)
       ++ " minutes from now."
  /\ if (env_clock env (tick w2) <? r_time r)%Z
     then In r (reminders w3)
          /\ said (events_since w2 w3)
             = map announcement
                   (filter (is_due (env_clock env (tick w2))) (reminders w))
     else In ("Reminder: " ++ text) (said (events_since w2 w3))
          /\ ~ In r (reminders w3).
Proof.
  cbv zeta. intros Hrep H2.
  destruct (set_reminder_effect env text minutes w Hrep) as (Hr & Hc & He & Ha).
  cbv zeta in Hr, Hc, He.
  rewrite Hr in *. rewrite Hc, He.
  split; [reflexivity|]. split; [reflexivity|]. split; [reflexivity|].
  split; [now intros ->|]. split; [exact Ha|].
  set (r := mkReminder text (env_clock env (tick w) + 60 * minutes)) in *.
  destruct (check_reminders_effect env w2) as (Hleft & _).
  rewrite check_reminders_said, Hleft, H2.
  rewrite !filter_app. cbn [filter].
  change (is_due (env_clock env (tick w2)) r)
    with (r_time r <=? env_clock env (tick w2))%Z.
  destruct (env_clock env (tick w2) <? r_time r)%Z eqn:E.
  - apply Z.ltb_lt in E.
    assert (L : (r_time r <=? env_clock env (tick w2))%Z = false)
      by (apply Z.leb_gt; exact E).
    rewrite L. cbn [negb]. rewrite app_nil_r.
    split; [apply in_or_app; right; left; reflexivity | reflexivity].
  - apply Z.ltb_ge in E.
    assert (L : (r_time r <=? env_clock env (tick w2))%Z = true)
      by (apply Z.leb_le; exact E).
    rewrite L. cbn [negb]. rewrite map_app, app_nil_r.
    split; [apply in_or_app; right; left; reflexivity|].
    intros Hin. apply filter_In in Hin as (_ & Hin).
    change (is_due (env_clock env (tick w2)) r)
      with (r_time r <=? env_clock env (tick w2))%Z in Hin.
    rewrite L in Hin. discriminate.
Qed.

Lemma reminder_set_then_checked_witness :
  let w1 := exec (set_reminder Demo.env "stretch" 5) Demo.world in
  representable (env_clock Demo.env (tick Demo.world)) 5
  /\ reminders w1 = [Demo.call_mum; Demo.water_plants; mkReminder "stretch" 1300]
  /\ config_file w1 = reminders w1
  /\ said (events_since w1 (exec (check_reminders Demo.env) w1))
     = ["Reminder: call mum"; "Reminder: stretch"].
Proof.
  cbv zeta.
  assert (H : representable (env_clock Demo.env (tick Demo.world)) 5)
    by (vm_compute; intuition discriminate).
  pose proof (reminder_set_then_checked Demo.env "stretch" 5 Demo.world
                (exec (set_reminder Demo.env "stretch" 5) Demo.world) H eq_refl)
    as (Hr & _ & _ & Hc & _).
  split; [exact H|]. split; [exact Hr|]. split; [exact (Hc eq_refl)|].
  vm_compute. reflexivity.
Defined.

(** X23.  A reminder asked for an instant that no date can hold - beyond
    year 9999, before year 1, or further away than a time span can be - is
    not set: [set_reminder] answers "Failed to set reminder.", appends
    nothing, writes nothing and adds nothing to the trace; only the clock
    has been read. *)
Theorem set_reminder_out_of_range
    (env : Env) (text : string) (minutes : Z) (w : World) :
  ~ representable (env_clock env (tick w)) minutes ->
  set_reminder env text minutes w
  = ("Failed to set reminder.", set_tick (S (tick w)) w).
Proof.
  intros H. apply unrepresentable_sum in H.
  unfold set_reminder, datetime_now, bind, ask. cbn [fst snd].
  destruct (timedelta_minutes minutes) as [delta|]; [|reflexivity].
  rewrite H. reflexivity.
Qed.

Lemma set_reminder_out_of_range_witness :
  let w1 := exec (set_reminder Demo.env "far away" 10000000000) Demo.world in
  ~ representable (env_clock Demo.env (tick Demo.world)) 10000000000
  /\ eval (set_reminder Demo.env "far away" 10000000000) Demo.world
     = "Failed to set reminder."
  /\ reminders w1 = reminders Demo.world
  /\ events_since Demo.world w1 = [].
Proof.
  cbv zeta.
  assert (H : ~ representable (env_clock Demo.env (tick Demo.world)) 10000000000).
  { intros (_ & _ & H). vm_compute in H. discriminate. }
  pose proof (set_reminder_out_of_range Demo.env "far away" 10000000000
                Demo.world H) as E.
  split; [exact H|]. unfold eval, exec. rewrite E.
  split; [reflexivity|]. split; reflexivity.
Defined.

(* ================================================================== *)
(** ** More on the battery check *)
(* ================================================================== *)

Section Battery.

Variable env : Env.

Lemma check_battery_throttled_step (w : World) :
  (env_clock env (tick w) - last_battery_check w < 300)%Z ->
  check_battery env w = (None, set_tick (S (tick w)) w).
Proof.
  intros H. apply Z.ltb_lt in H.
  unfold check_battery, datetime_now, bind, gets, ask, ret.
  cbn [fst snd tick last_battery_check set_tick]. now rewrite H.
Qed.

Lemma check_battery_stamp (w : World) :
  (300 <= env_clock env (tick w) - last_battery_check w)%Z ->
  last_battery_check (exec (check_battery env) w) = env_clock env (tick w)
  /\ tick (exec (check_battery env) w) = S (S (tick w)).
Proof.
  intros H. apply Z.ltb_ge in H.
  unfold exec, check_battery, datetime_now, emit, bind, gets, modify, ask, ret, when.
  cbn [fst snd tick last_battery_check set_tick]. rewrite H.
  cbn [fst snd tick trace set_tick set_last_battery_check set_trace
       battery_thresholds].
  destruct (env_battery env (S (tick w))); [|split; reflexivity ..].
  destruct (scan_thresholds _ _); [split; reflexivity|].
  destruct (Qlt_bool _ _); split; reflexivity.
Qed.

(** X17.  The throttle: a battery check that is not throttled records the
    time it was made, whatever the battery read gives or fails to give, and
    a check made less than 300 seconds after that time does nothing at all:
    it reads no battery, returns no warning and leaves the state as it is,
    apart from the clock having been read. *)
Theorem battery_check_throttled (w w2 : World) :
  (300 <= env_clock env (tick w) - last_battery_check w)%Z ->
  last_battery_check w2 = last_battery_check (exec (check_battery env) w) ->
  (env_clock env (tick w2) - env_clock env (tick w) < 300)%Z ->
  last_battery_check (exec (check_battery env) w) = env_clock env (tick w)
  /\ check_battery env w2 = (None, set_tick (S (tick w2)) w2).
Proof.
  intros H1 H2 H3.
  destruct (check_battery_stamp w H1) as (Hs & _).
  split; [exact Hs|].
  apply check_battery_throttled_step. rewrite H2, Hs. exact H3.
Qed.

Lemma check_battery_reading (w : World) (p : Q) :
  (300 <= env_clock env (tick w) - last_battery_check w)%Z ->
  env_battery env (S (tick w)) = Battery p ->
  fst (check_battery env w)
  = match scan_thresholds p (battery_thresholds w) with
    | Some _ => Some (battery_warning env p)
    | None => None
    end
  /\ battery_thresholds (exec (check_battery env) w)
     = match scan_thresholds p (battery_thresholds w) with
       | Some t => dict_set t true (battery_thresholds w)
       | None => if Qlt_bool (inject_Z 20) p then fresh_thresholds
                 else battery_thresholds w
       end.
Proof.
  intros H Hb. apply Z.ltb_ge in H.
  unfold exec, check_battery, datetime_now, emit, bind, gets, modify, ask, ret,
    when, battery_warning.
  cbn [fst snd tick last_battery_check set_tick]. rewrite H.
  cbn [fst snd tick trace set_tick set_last_battery_check set_trace
       battery_thresholds].
  rewrite Hb.
  cbn [fst snd tick trace set_tick set_last_battery_check set_trace
       battery_thresholds].
  destruct (scan_thresholds p (battery_thresholds w)); [split; reflexivity|].
  destruct (Qlt_bool (inject_Z 20) p); split; reflexivity.
Qed.

Lemma low_battery_run (p : Q) :
  (forall t, env_battery env t = Battery p) ->
  (p <= inject_Z 5)%Q ->
  (forall t, 300 <= env_clock env (S (S t)) - env_clock env t)%Z ->
  forall n j w,
    j <= 3 ->
    battery_thresholds w = alerted_first j ->
    (300 <= env_clock env (tick w) - last_battery_check w)%Z ->
    map warning (battery_run env n w)
    = (repeat (Some (battery_warning env p)) (Nat.min n (3 - j))
       ++ repeat None (n - (3 - j)))%list.
Proof.
  intros Hb Hp Hclock.
  assert (L5 : Qle_bool p (inject_Z 5) = true) by now apply Qle_bool_iff.
  assert (L10 : Qle_bool p (inject_Z 10) = true)
    by (apply (Qle_bool_mono p 5 10); [lia | exact L5]).
  assert (L20 : Qle_bool p (inject_Z 20) = true)
    by (apply (Qle_bool_mono p 5 20); [lia | exact L5]).
  assert (N20 : Qlt_bool (inject_Z 20) p = false)
    by (unfold Qlt_bool; now rewrite L20).
  induction n as [|n IH]; intros j w Hj Hf Ht; [reflexivity|].
  cbn [battery_run map warning]. cbv zeta. cbn [map warning].
  change (snd (check_battery env w)) with (exec (check_battery env) w).
  destruct (check_battery_stamp w Ht) as (Hstamp & Htick).
  destruct (check_battery_reading w p Ht (Hb _)) as (Hres & Hflags).
  assert (Hnext : (300 <= env_clock env (tick (exec (check_battery env) w))
                          - last_battery_check (exec (check_battery env) w))%Z)
    by (rewrite Hstamp, Htick; apply Hclock).
  rewrite Hres. rewrite Hf in *.
  destruct j as [|[|[|[|j]]]]; try lia;
    cbn [alerted_first scan_thresholds Nat.ltb Nat.leb negb andb] in *;
    rewrite ?L20, ?L10, ?L5, ?N20 in *; cbn [andb negb] in *.
  - rewrite (IH 1 _ ltac:(lia) Hflags Hnext).
    replace (Nat.min (S n) (3 - 0)) with (S (Nat.min n (3 - 1))) by lia.
    replace (S n - (3 - 0)) with (n - (3 - 1)) by lia. reflexivity.
  - rewrite (IH 2 _ ltac:(lia) Hflags Hnext).
    replace (Nat.min (S n) (3 - 1)) with (S (Nat.min n (3 - 2))) by lia.
    replace (S n - (3 - 1)) with (n - (3 - 2)) by lia. reflexivity.
  - rewrite (IH 3 _ ltac:(lia) Hflags Hnext).
    replace (Nat.min (S n) (3 - 2)) with (S (Nat.min n (3 - 3))) by lia.
    replace (S n - (3 - 2)) with (n - (3 - 3)) by lia. reflexivity.
  - rewrite (IH 3 _ ltac:(lia) Hflags Hnext).
    replace (Nat.min (S n) (3 - 3)) with 0 by lia.
    replace (Nat.min n (3 - 3)) with 0 by lia.
    replace (S n - (3 - 3)) with (S (n - (3 - 3))) by lia. reflexivity.
Qed.

(** X18.  With no threshold alerted yet and the charge staying at one
    value of at most 5%, checks that are at least 300 seconds apart warn
    three times in a row - once for each of the thresholds 20, 10 and 5, each
    time with the same sentence, which names the charge - and are silent
    from then on. *)
Theorem low_battery_warns_three_times (p : Q) (n : nat) (w : World) :
  (forall t, env_battery env t = Battery p) ->
  (p <= inject_Z 5)%Q ->
  (forall t, 300 <= env_clock env (S (S t)) - env_clock env t)%Z ->
  battery_thresholds w = fresh_thresholds ->
  (300 <= env_clock env (tick w) - last_battery_check w)%Z ->
  map warning (battery_run env (3 + n) w)
  = (repeat (Some (battery_warning env p)) 3 ++ repeat None n)%list.
Proof.
  intros Hb Hp Hclock Hf Ht.
  rewrite (low_battery_run p Hb Hp Hclock (3 + n) 0 w); auto.
  replace (Nat.min (3 + n) (3 - 0)) with 3 by lia.
  replace (3 + n - (3 - 0)) with n by lia. reflexivity.
Qed.

End Battery.

Lemma battery_check_throttled_witness :
  let w1 := exec (check_battery Scenes.unhurried) Demo.world in
  fst (check_battery Scenes.unhurried Demo.world)
  = Some "Battery at 15%. Please charge soon."
  /\ last_battery_check w1 = 1000%Z
  /\ check_battery Scenes.unhurried w1 = (None, set_tick (S (tick w1)) w1).
Proof.
  cbv zeta.
  split; [reflexivity|].
  assert (H1 : (300 <= env_clock Scenes.unhurried (tick Demo.world)
                       - last_battery_check Demo.world)%Z)
    by (vm_compute; discriminate).
  assert (H3 : (env_clock Scenes.unhurried
                  (tick (exec (check_battery Scenes.unhurried) Demo.world))
                - env_clock Scenes.unhurried (tick Demo.world) < 300)%Z)
    by (vm_compute; reflexivity).
  exact (battery_check_throttled Scenes.unhurried Demo.world
           (exec (check_battery Scenes.unhurried) Demo.world) H1 eq_refl H3).
Defined.

Lemma low_battery_warns_three_times_witness :
  map warning (battery_run Scenes.drained 5 Demo.world)
  = [Some "Battery at 4%. Please charge soon.";
     Some "Battery at 4%. Please charge soon.";
     Some "Battery at 4%. Please charge soon."; None; None].
Proof.
  apply (low_battery_warns_three_times Scenes.drained (4 # 1) 2 Demo.world).
  - reflexivity.
  - vm_compute. discriminate.
  - intros t. unfold Scenes.drained, Scenes.with_battery, Demo.env, Demo.hearing.
    cbn [env_clock]. lia.
  - reflexivity.
  - vm_compute. discriminate.
Defined.

(* ================================================================== *)
(** ** The emotion service path *)
(* ================================================================== *)

Lemma insert_desc_in (x e : HumeEmotion) (l : list HumeEmotion) :
  In e (insert_desc x l) <-> e = x \/ In e l.
Proof.
  induction l as [|y l IH]; cbn.
  - intuition.
  - destruct (Qlt_bool (e_score x) (e_score y)); cbn; rewrite ?IH; intuition.
Qed.

Lemma sorted_desc_cons (x : HumeEmotion) (l : list HumeEmotion) :
  sorted_desc (x :: l) = insert_desc x (sorted_desc l).
Proof. reflexivity. Qed.

Lemma sorted_desc_in (e : HumeEmotion) (l : list HumeEmotion) :
  In e (sorted_desc l) <-> In e l.
Proof.
  induction l as [|x l IH]; [cbn; tauto|].
  rewrite sorted_desc_cons, insert_desc_in, IH. cbn. intuition.
Qed.

Lemma insert_desc_length (x : HumeEmotion) (l : list HumeEmotion) :
  length (insert_desc x l) = S (length l).
Proof.
  induction l as [|y l IH]; cbn; [reflexivity|].
  destruct (Qlt_bool _ _); cbn; congruence.
Qed.

Lemma sorted_desc_length (l : list HumeEmotion) : length (sorted_desc l) = length l.
Proof.
  induction l as [|x l IH]; [reflexivity|].
  rewrite sorted_desc_cons, insert_desc_length, IH. reflexivity.
Qed.

Lemma insert_desc_sorted (x : HumeEmotion) (l : list HumeEmotion) :
  StronglySorted scores_at_least l ->
  StronglySorted scores_at_least (insert_desc x l).
Proof.
  induction l as [|y l IH]; intros H; cbn.
  - repeat constructor.
  - apply StronglySorted_inv in H as (Hl & Hy).
    destruct (Qlt_bool (e_score x) (e_score y)) eqn:E.
    + constructor; [now apply IH|].
      apply Forall_forall. intros e He. apply insert_desc_in in He as [->|He].
      * apply Qlt_bool_iff in E. unfold scores_at_least. now apply Qlt_le_weak.
      * rewrite Forall_forall in Hy. now apply Hy.
    + assert (Hxy : scores_at_least x y).
      { unfold scores_at_least. apply Qnot_lt_le. intros Hlt.
        apply Qlt_bool_iff in Hlt. congruence. }
      constructor; [constructor; assumption|].
      constructor; [exact Hxy|].
      apply Forall_forall. intros e He. rewrite Forall_forall in Hy.
      unfold scores_at_least in *.
      eapply Qle_trans; [apply Hy, He | exact Hxy].
Qed.

Lemma sorted_desc_sorted (l : list HumeEmotion) :
  StronglySorted scores_at_least (sorted_desc l).
Proof.
  induction l as [|x l IH]; [constructor|].
  rewrite sorted_desc_cons. now apply insert_desc_sorted.
Qed.

Lemma firstn_in {A} (n : nat) (l : list A) (e : A) :
  In e (firstn n l) -> In e l.
Proof.
  revert n. induction l as [|x l IH]; intros n H.
  - now rewrite firstn_nil in H.
  - destruct n as [|n]; [contradiction|].
    cbn in H. destruct H as [<-|H]; [now left | right; eauto].
Qed.

Lemma firstn_sorted (n : nat) (l : list HumeEmotion) :
  StronglySorted scores_at_least l ->
  StronglySorted scores_at_least (firstn n l).
Proof.
  revert n. induction l as [|x l IH]; intros n H.
  - rewrite firstn_nil. constructor.
  - destruct n as [|n]; cbn; [constructor|].
    apply StronglySorted_inv in H as (Hl & Hx).
    constructor; [now apply IH|].
    apply Forall_forall. intros e He. rewrite Forall_forall in Hx.
    apply Hx. eapply firstn_in. exact He.
Qed.

(** The head of the sorted list is the first emotion of highest score. *)
Lemma sorted_desc_head (l : list HumeEmotion) (best : HumeEmotion)
    (rest : list HumeEmotion) :
  sorted_desc l = best :: rest ->
  exists pre post,
    l = (pre ++ best :: post)%list
    /\ (forall e, In e pre -> (e_score e < e_score best)%Q)
    /\ (forall e, In e post -> (e_score e <= e_score best)%Q).
Proof.
  revert best rest. induction l as [|x l IH]; intros best rest H;
    [discriminate|].
  rewrite sorted_desc_cons in H. destruct (sorted_desc l) as [|y r] eqn:Es.
  - assert (l = []).
    { pose proof (sorted_desc_length l) as L. rewrite Es in L.
      destruct l; [reflexivity | discriminate]. }
    subst l. cbn in H. injection H as <- <-.
    exists [], []. repeat split; intros e [].
  - destruct (IH y r eq_refl) as (pre & post & -> & Hpre & Hpost).
    cbn in H. destruct (Qlt_bool (e_score x) (e_score y)) eqn:E.
    + injection H as <- _. apply Qlt_bool_iff in E.
      exists (x :: pre), post. repeat split; auto.
      intros e [<-|He]; auto.
    + injection H as <- _.
      assert (Hyx : (e_score y <= e_score x)%Q).
      { apply Qnot_lt_le. intros Hlt. apply Qlt_bool_iff in Hlt. congruence. }
      exists [], (pre ++ y :: post)%list. repeat split; [intros e []|].
      intros e He. apply in_app_or in He as [He|[<-|He]].
      * apply Qlt_le_weak. eapply Qlt_le_trans; [apply Hpre, He | exact Hyx].
      * exact Hyx.
      * eapply Qle_trans; [apply Hpost, He | exact Hyx].
Qed.

Lemma insert_desc_perm (x : HumeEmotion) (l : list HumeEmotion) :
  Permutation (x :: l) (insert_desc x l).
Proof.
  induction l as [|y l IH]; cbn; [reflexivity|].
  destruct (Qlt_bool (e_score x) (e_score y)); [|reflexivity].
  rewrite perm_swap. now apply perm_skip.
Qed.

Lemma sorted_desc_perm (l : list HumeEmotion) : Permutation l (sorted_desc l).
Proof.
  induction l as [|x l IH]; [reflexivity|].
  rewrite sorted_desc_cons, <- insert_desc_perm. now apply perm_skip.
Qed.

(** The sort is stable: emotions of one score keep their order. *)
Lemma insert_desc_stable (q : Q) (x : HumeEmotion) (l : list HumeEmotion) :
  filter (scored q) (insert_desc x l) = filter (scored q) (x :: l).
Proof.
  induction l as [|y l IH]; [reflexivity|].
  cbn [insert_desc]. destruct (Qlt_bool (e_score x) (e_score y)) eqn:E;
    [|reflexivity].
  cbn [filter] in *. rewrite IH.
  destruct (scored q y) eqn:Sy, (scored q x) eqn:Sx; try reflexivity.
  exfalso. unfold scored in *.
  apply Qeq_bool_iff in Sy, Sx. apply Qlt_bool_iff in E.
  rewrite Sx, Sy in E. now apply Qlt_irrefl in E.
Qed.

Lemma sorted_desc_stable (q : Q) (l : list HumeEmotion) :
  filter (scored q) (sorted_desc l) = filter (scored q) l.
Proof.
  induction l as [|x l IH]; [reflexivity|].
  rewrite sorted_desc_cons, insert_desc_stable. cbn [filter].
  now rewrite IH.
Qed.

Lemma sorted_front_dominates (top dropped : list HumeEmotion)
    (kept e : HumeEmotion) :
  StronglySorted scores_at_least (top ++ dropped) ->
  In kept top -> In e dropped -> (e_score e <= e_score kept)%Q.
Proof.
  intros Hs Hkept He.
  induction top as [|t top IH]; [contradiction|].
  cbn [app] in Hs. apply StronglySorted_inv in Hs as (Hs & Ht).
  destruct Hkept as [->|Hkept]; [|now apply IH].
  rewrite Forall_forall in Ht. apply Ht, in_or_app. now right.
Qed.

(** X19.  When a usable key is configured and the emotion service
    delivers a non-empty list of emotions, the service is called once and
    the result is built from that list: the primary emotion is the first
    emotion of the list with the highest score, its name put in title case,
    and the score is that highest score.  The three best emotions come with
    it (all of them when the list is shorter): they are the first three of
    the service's list rearranged by descending score, emotions of equal
    score staying in the order the service gave them; so no emotion that
    was dropped scores more than one that was kept. *)
Theorem emotion_service_picks_highest
    (env : Env) (text : string) (w : World) (emotions : list HumeEmotion) :
  key_unusable (hume_api_key w) = false ->
  env_hume env (tick w) text = HumeEmotions emotions ->
  emotions <> [] ->
  let r := eval (detect_emotions_fast env text) w in
  let evs := events_since w (exec (detect_emotions_fast env text) w) in
  hume_calls evs = [text]
  /\ exists best others dropped pre post,
       emotions = (pre ++ best :: post)%list
       /\ (forall e, In e pre -> (e_score e < e_score best)%Q)
       /\ (forall e, In e post -> (e_score e <= e_score best)%Q)
       /\ primary r = Py.title (e_name best)
       /\ score r = e_score best
       /\ top3 r = Some (best :: others)
       /\ length (best :: others) = Nat.min 3 (length emotions)
       /\ Permutation emotions ((best :: others) ++ dropped)
       /\ StronglySorted scores_at_least ((best :: others) ++ dropped)
       /\ (forall q, filter (scored q) ((best :: others) ++ dropped)
                     = filter (scored q) emotions)
       /\ (forall kept e, In kept (best :: others) -> In e dropped ->
             (e_score e <= e_score kept)%Q).
Proof.
  intros Hk Hh Hne. cbv zeta.
  destruct (detect_emotions_fast_runs env text w) as (evs & E & _ & _ & Hc & _).
  rewrite Hk in Hc.
  rewrite (events_since_runs _ _ _ E). split; [exact Hc|].
  clear evs E Hc.
  unfold eval, detect_emotions_fast, bind, gets, ask, emit, modify, ret.
  cbn [fst snd]. rewrite Hk. cbn [fst snd tick]. rewrite Hh.
  destruct (sorted_desc emotions) as [|best rest] eqn:Es.
  { exfalso. pose proof (sorted_desc_length emotions) as L. rewrite Es in L.
    destruct emotions; [contradiction | discriminate]. }
  destruct (sorted_desc_head _ _ _ Es) as (pre & post & Hsplit & Hpre & Hpost).
  assert (Htop : firstn 3 (best :: rest) = best :: firstn 2 rest) by reflexivity.
  rewrite Htop.
  exists best, (firstn 2 rest), (skipn 2 rest), pre, post.
  cbn [fst snd primary score top3].
  split; [exact Hsplit|]. split; [exact Hpre|]. split; [exact Hpost|].
  split; [reflexivity|]. split; [reflexivity|]. split; [reflexivity|].
  assert (Hall : ((best :: firstn 2 rest) ++ skipn 2 rest)%list
                 = sorted_desc emotions).
  { rewrite Es. cbn [app]. now rewrite firstn_skipn. }
  assert (Hsorted : StronglySorted scores_at_least
                      ((best :: firstn 2 rest) ++ skipn 2 rest))
    by (rewrite Hall; apply sorted_desc_sorted).
  split; [|split; [|split; [|split]]].
  - rewrite <- Htop, <- Es, length_firstn, sorted_desc_length. reflexivity.
  - rewrite Hall. apply sorted_desc_perm.
  - exact Hsorted.
  - intros q. rewrite Hall. apply sorted_desc_stable.
  - intros kept e Hkept He.
    eapply sorted_front_dominates; eauto.
Qed.

Lemma emotion_service_picks_highest_witness :
  let r := eval (detect_emotions_fast Scenes.feeling "what a day") Demo.world in
  key_unusable (hume_api_key Demo.world) = false
  /\ primary r = "Joy"
  /\ score r = (7 # 10)%Q
  /\ top3 r = Some [mkEmotion "joy" (7 # 10);
                    mkEmotion "surprise (positive)" (7 # 10);
                    mkEmotion "interest" (5 # 10)]
  /\ hume_calls (events_since Demo.world
                   (exec (detect_emotions_fast Scenes.feeling "what a day")
                         Demo.world))
     = ["what a day"].
Proof.
  cbv zeta.
  pose proof (emotion_service_picks_highest Scenes.feeling "what a day"
                Demo.world _ eq_refl eq_refl ltac:(discriminate)) as (Hc & _).
  split; [reflexivity|]. split; [reflexivity|]. split; [reflexivity|].
  split; [reflexivity | exact Hc].
Defined.

(* ================================================================== *)
(** ** What a turn costs and says *)
(* ================================================================== *)

Lemma model_calls_attempts (prompt : string) (l : list (string * ModelOutcome)) :
  model_calls (map (attempt_event prompt) l) = map fst l.
Proof. induction l as [|a l IH]; cbn; congruence. Qed.

Section Cost.

Variable env : Env.

Lemma process_with_claude_cost (query : string) emotions w :
  runs (process_with_claude env query emotions) w (fun _ evs w' =>
    said evs = [] /\ hume_calls evs = []
    /\ length (model_calls evs) <= length models_to_try
    /\ session w' = session w).
Proof.
  unfold process_with_claude, datetime_now.
  run_case; [run; repeat split; cbn; lia|].
  run_case; [run; repeat split; cbn; lia|].
  run. run_case.
  - eapply runs_conseq; [apply get_emotion_aware_response_runs|].
    intros r e w' (-> & _ & S1). repeat split; auto. cbn. lia.
  - run. eapply runs_conseq; [apply try_models_runs|].
    intros r e w' (S1 & failed & final & -> & Hm & _).
    destruct (attempts_quiet
                (build_prompt env query emotions (context w))
                (failed ++ [final])) as (Hs & Hh).
    cbn [app]. repeat split; auto.
    rewrite model_calls_attempts, Hm, length_firstn. apply Nat.le_min_r.
Qed.

(** X20.  Every conversation turn says exactly one sentence - the
    re-engagement prompt, the farewell or a reply - and on the way it calls
    the emotion service at most once and the models at most twice. *)
Theorem conversation_turn_says_one_sentence (w : World) :
  let evs := events_since w (exec (conversation_turn env) w) in
  length (said evs) = 1
  /\ length (hume_calls evs) <= 1
  /\ length (model_calls evs) <= 2.
Proof.
  cbv zeta.
  assert (R : runs (conversation_turn env) w (fun _ evs _ =>
    length (said evs) = 1 /\ length (hume_calls evs) <= 1
    /\ length (model_calls evs) <= 2)).
  { unfold conversation_turn, send_input, send_ready, send_response.
    run_by listen_runs. intros heard e1 w1 (Hs1 & Hh1 & Hm1 & S1).
    destruct heard as [text|].
    - run_by if_esp32_send_runs. intros [] e2 w2 (C2 & S2 & _).
      destruct (display_quiet _ C2) as (Hs2 & Hh2 & Hm2).
      destruct (check_termination (Some text)).
      + run_by speak_said. intros [] e3 w3 (Hs3 & Hh3 & Hm3 & S3).
        run.
        eapply runs_conseq; [apply if_esp32_send_runs|].
        intros [] e4 w4 (C4 & S4 & _). cbv beta.
        destruct (display_quiet _ C4) as (Hs4 & Hh4 & Hm4).
        rewrite !said_app, !hume_calls_app, !model_calls_app.
        rewrite Hs1, Hh1, Hm1, Hs2, Hh2, Hm2, Hs3, Hh3, Hm3, Hs4, Hh4, Hm4.
        cbn. lia.
      + run_by detect_emotions_fast_runs.
        intros emotions e3 w3 (Hs3 & Hm3 & Hh3 & S3).
        run_by get_casual_response_runs. intros casual e4 w4 (-> & S4).
        apply runs_bind.
        assert (B : runs (if Py.truthy casual
                          then ret match casual with Some r => r | None => "" end
                          else process_with_claude env text (Some emotions)) w4
                      (fun _ evs w' =>
                         said evs = [] /\ hume_calls evs = []
                         /\ length (model_calls evs) <= 2)).
        { destruct (Py.truthy casual).
          - apply runs_ret. repeat split. cbn. lia.
          - eapply runs_conseq; [apply process_with_claude_cost|].
            intros r e w' (Hs & Hh & Hm & _). auto. }
        eapply runs_conseq; [exact B|].
        intros response e5 w5 (Hs5 & Hh5 & Hm5). cbv beta.
        run_by if_esp32_send_runs. intros [] e6 w6 (C6 & S6 & _).
        destruct (display_quiet _ C6) as (Hs6 & Hh6 & Hm6).
        run_by speak_said. intros [] e7 w7 (Hs7 & Hh7 & Hm7 & S7).
        eapply runs_conseq; [apply remember_runs|].
        intros [] e8 w8 (-> & _). cbv beta.
        rewrite !said_app, !hume_calls_app, !model_calls_app, !length_app.
        rewrite Hs1, Hh1, Hm1, Hs2, Hh2, Hm2, Hs3, Hh3, Hm3, Hs5, Hh5,
          Hs6, Hh6, Hm6, Hs7, Hh7, Hm7.
        destruct (key_unusable (hume_api_key w2)); cbn; lia.
    - eapply runs_conseq; [apply speak_said|].
      intros [] e2 w2 (Hs2 & Hh2 & Hm2 & S2). cbv beta.
      rewrite !said_app, !hume_calls_app, !model_calls_app.
      rewrite Hs1, Hh1, Hm1, Hs2, Hh2, Hm2. cbn. lia. }
  destruct R as (evs & E & H).
  now rewrite (events_since_runs _ _ _ E).
Qed.

(** X21.  [speak] says its text exactly once, whether or not a display is
    attached and whether or not the synthesis works; it calls no other
    service and leaves the session alone; with a synthesis client the
    speaking flag is down again when it returns, also after a failed
    synthesis, and without one the flag is not touched. *)
Theorem speak_says_once (text : string) (w : World) :
  let w' := exec (speak env text) w in
  let evs := events_since w w' in
  said evs = [text]
  /\ hume_calls evs = []
  /\ model_calls evs = []
  /\ session w' = session w
  /\ is_speaking w' = (if elevenlabs_client w then false else is_speaking w).
Proof.
  cbv zeta.
  assert (R : runs (speak env text) w (fun _ evs w' =>
    said evs = [text] /\ hume_calls evs = [] /\ model_calls evs = []
    /\ session w' = session w
    /\ is_speaking w' = (if elevenlabs_client w then false else is_speaking w))).
  { unfold speak, send_speaking, send_ready.
    run_by if_esp32_send_runs. intros [] e1 w1 (C1 & S1 & Sp1).
    destruct (display_quiet _ C1) as (Hs1 & Hh1 & Hm1).
    session_of S1.
    run.
    match goal with H : elevenlabs_client w1 = _ |- _ => rewrite H end.
    destruct (elevenlabs_client w) eqn:Ec; cbn [negb]; run.
    - apply runs_when; intros Hok.
      + eapply runs_conseq; [apply if_esp32_send_runs|].
        intros [] e2 w2 (C2 & S2 & Sp2). cbv beta.
        destruct (display_quiet _ C2) as (Hs2 & Hh2 & Hm2).
        rewrite !said_app, !hume_calls_app, !model_calls_app.
        rewrite Hs1, Hh1, Hm1, Hs2, Hh2, Hm2. cbn.
        repeat split; [now rewrite S2 | now rewrite Sp2].
      + rewrite !said_app, !hume_calls_app, !model_calls_app.
        rewrite Hs1, Hh1, Hm1. cbn. repeat split. exact S1.
    - rewrite !said_app, !hume_calls_app, !model_calls_app.
      rewrite Hs1, Hh1, Hm1. cbn. repeat split; [exact S1 | exact Sp1]. }
  destruct R as (evs & E & H).
  now rewrite (events_since_runs _ _ _ E).
Qed.

End Cost.

(* ================================================================== *)
(** ** Start-up *)
(* ================================================================== *)

(** X22.  Reminders stored by an earlier run do not survive the start:
    [__init__] reads them and then resets the list, so whatever the file
    holds the assistant starts with no reminder, and its first due-check
    announces nothing and writes nothing.  The file keeps the old reminders
    only until the next write that succeeds: after a first [set_reminder]
    whose write succeeds it holds that one reminder alone.  The assistant
    also starts with an empty context, no threshold alerted and no
    conversation. *)
Theorem stored_reminders_dropped_at_startup
    (env : Env) (file : ConfigFile) (hume_key : option string)
    (anthropic elevenlabs : bool) (text : string) (minutes : Z) :
  let w := exec (MayAssistant_init env file)
                (unborn file hume_key anthropic elevenlabs) in
  let w1 := exec (set_reminder env text minutes) w in
  reminders w = []
  /\ config_file w = stored_reminders file
  /\ events_since w (exec (check_reminders env) w) = []
  /\ config_file (exec (check_reminders env) w) = stored_reminders file
  /\ (representable (env_clock env (tick w)) minutes ->
      env_write env (S (tick w)) = Written ->
      reminders w1 = [mkReminder text (env_clock env (tick w) + 60 * minutes)]
      /\ config_file w1 = reminders w1)
  /\ context w = []
  /\ battery_thresholds w = fresh_thresholds
  /\ conversation_active w = false.
Proof.
  cbv zeta.
  set (w := exec (MayAssistant_init env file)
                 (unborn file hume_key anthropic elevenlabs)).
  assert (Hr : reminders w = []) by (destruct file; reflexivity).
  assert (Hc : config_file w = stored_reminders file)
    by (destruct file; reflexivity).
  split; [exact Hr|]. split; [exact Hc|].
  destruct (check_reminders_effect env w) as (_ & Hm).
  rewrite Hr in Hm. cbn [filter] in Hm. destruct Hm as (He & Hcfg).
  split; [exact He|]. split; [now rewrite Hcfg|].
  split.
  - intros Hrep Hw.
    destruct (set_reminder_effect env text minutes w Hrep) as (H1 & H2 & _).
    cbv zeta in H1, H2. rewrite Hr in H1, H2. cbn [app] in H1, H2.
    rewrite Hw in H2. cbn [stored_after] in H2.
    split; [exact H1 | now rewrite H1, H2].
  - repeat split; destruct file; reflexivity.
Qed.

Lemma stored_reminders_dropped_at_startup_witness :
  let file := StoredConfig [Demo.call_mum; Demo.water_plants] in
  let w := exec (MayAssistant_init Demo.env file)
                (unborn file (Some "hume-key") true false) in
  let w1 := exec (set_reminder Demo.env "stretch" 5) w in
  config_file w = [Demo.call_mum; Demo.water_plants]
  /\ reminders w = []
  /\ representable (env_clock Demo.env (tick w)) 5
  /\ env_write Demo.env (S (tick w)) = Written
  /\ config_file w1 = reminders w1
  /\ reminders w1 = [mkReminder "stretch" 2100].
Proof.
  cbv zeta.
  pose proof (stored_reminders_dropped_at_startup Demo.env
                (StoredConfig [Demo.call_mum; Demo.water_plants])
                (Some "hume-key") true false "stretch" 5)
    as (Hr & Hc & _ & _ & Hset & _).
  assert (H : representable
                (env_clock Demo.env
                   (tick (exec (MayAssistant_init Demo.env
                                  (StoredConfig [Demo.call_mum; Demo.water_plants]))
                               (unborn (StoredConfig [Demo.call_mum; Demo.water_plants])
                                       (Some "hume-key") true false))))
                5)
    by (vm_compute; intuition discriminate).
  destruct (Hset H eq_refl) as (H1 & H2).
  split; [exact Hc|]. split; [exact Hr|]. split; [exact H|].
  split; [reflexivity|]. split; [exact H2 | exact H1].
Defined.
